(** * iOS Home Screen: the linked list and the paged containers

    A shallow embedding of [ios_home_screen.py].  Python objects live in a
    store indexed by object identity; every attribute group of the class
    hierarchy ([Node], [Item], [App], [DoublyLinkedList],
    [Single_Page_Container], [Multi_Page_Container], [Home]) is one finite
    map of that store.  Methods are computations in a state monad whose
    outcome is a returned value, a raised exception, or non-termination of
    a pointer-chasing loop.  Mutations made before an exception is raised
    stay in the store, as they do in Python. *)

From stdpp Require Import gmap strings list fin_maps pretty.
From Stdlib Require Import ZArith Lia.

Local Open Scope Z_scope.

(** ** Objects *)

(** Object identity. *)
Definition loc := positive.

(** The exceptions the program can raise. *)
Inductive exn :=
| AttributeError
| KeyError
| TypeError
| IndexError
| Exception (msg : string).

(** [class Node]: the link fields every list element carries. *)
Module Node.
Record t := mk { name : string; next : option loc; prev : option loc }.
Definition with_next (v : option loc) (n : t) : t := mk (name n) v (prev n).
Definition with_prev (v : option loc) (n : t) : t := mk (name n) (next n) v.
End Node.

(** [class DoublyLinkedList]: the attributes of a list object. *)
Module DLL.
Record t := mk {
  head : option loc;
  tail : option loc;
  size : Z;
  capacity : option Z
}.
Definition with_head (v : option loc) (l : t) : t := mk v (tail l) (size l) (capacity l).
Definition with_tail (v : option loc) (l : t) : t := mk (head l) v (size l) (capacity l).
Definition with_size (v : Z) (l : t) : t := mk (head l) (tail l) v (capacity l).
End DLL.

(** [class Single_Page_Container] (a [Page] or the [Dock]). *)
Module SPC.
Record t := mk {
  _items : loc;
  parent_container : option loc;
  container_type : string
}.
End SPC.

(** [class Multi_Page_Container] ([Home] or a [Folder]). *)
Module MPC.
Record t := mk {
  page_columns : Z;
  page_rows : Z;
  page_capacity : Z;
  max_pages : option Z;
  _pages : loc;
  max_apps : option Z;
  container_type : string
}.
End MPC.

(** The attributes [Home] adds to [Multi_Page_Container]. *)
Module HOME.
Record t := mk {
  _apps : gmap string loc;
  _dock : loc;
  _folders : gmap string loc;
  _open_apps : list loc
}.
Definition with_apps (v : gmap string loc) (h : t) : t :=
  mk v (_dock h) (_folders h) (_open_apps h).
Definition with_open_apps (v : list loc) (h : t) : t :=
  mk (_apps h) (_dock h) (_folders h) v.
Definition with_folders (v : gmap string loc) (h : t) : t :=
  mk (_apps h) (_dock h) v (_open_apps h).

End HOME.

(** ** The store *)

Record Store := mkStore {
  nodes : gmap loc Node.t;            (* Node.name / next / prev *)
  parent : gmap loc (option loc);     (* Item.parent *)
  can_delete : gmap loc bool;         (* App.can_delete *)
  lists : gmap loc DLL.t;             (* DoublyLinkedList objects *)
  spcs : gmap loc SPC.t;              (* Single_Page_Container objects *)
  mpcs : gmap loc MPC.t;              (* Multi_Page_Container objects *)
  homes : gmap loc HOME.t;            (* Home objects *)
  next_loc : loc;                     (* identity of the next object created *)
  stdout : list string                (* what [print] has written *)
}.

Definition empty_store : Store :=
  mkStore ∅ ∅ ∅ ∅ ∅ ∅ ∅ 1%positive [].

Definition set_nodes (v : gmap loc Node.t) (s : Store) : Store :=
  mkStore v (parent s) (can_delete s) (lists s) (spcs s) (mpcs s) (homes s) (next_loc s) (stdout s).
Definition set_parent (v : gmap loc (option loc)) (s : Store) : Store :=
  mkStore (nodes s) v (can_delete s) (lists s) (spcs s) (mpcs s) (homes s) (next_loc s) (stdout s).
Definition set_can_delete (v : gmap loc bool) (s : Store) : Store :=
  mkStore (nodes s) (parent s) v (lists s) (spcs s) (mpcs s) (homes s) (next_loc s) (stdout s).
Definition set_lists (v : gmap loc DLL.t) (s : Store) : Store :=
  mkStore (nodes s) (parent s) (can_delete s) v (spcs s) (mpcs s) (homes s) (next_loc s) (stdout s).
Definition set_spcs (v : gmap loc SPC.t) (s : Store) : Store :=
  mkStore (nodes s) (parent s) (can_delete s) (lists s) v (mpcs s) (homes s) (next_loc s) (stdout s).
Definition set_mpcs (v : gmap loc MPC.t) (s : Store) : Store :=
  mkStore (nodes s) (parent s) (can_delete s) (lists s) (spcs s) v (homes s) (next_loc s) (stdout s).
Definition set_homes (v : gmap loc HOME.t) (s : Store) : Store :=
  mkStore (nodes s) (parent s) (can_delete s) (lists s) (spcs s) (mpcs s) v (next_loc s) (stdout s).
Definition set_next_loc (v : loc) (s : Store) : Store :=
  mkStore (nodes s) (parent s) (can_delete s) (lists s) (spcs s) (mpcs s) (homes s) v (stdout s).
Definition set_stdout (v : list string) (s : Store) : Store :=
  mkStore (nodes s) (parent s) (can_delete s) (lists s) (spcs s) (mpcs s) (homes s) (next_loc s) v.

(** ** The monad of methods *)

Inductive outcome (A : Type) :=
| Ret (a : A)
| Raise (e : exn)
| Diverge.
Arguments Ret {A} a.
Arguments Raise {A} e.
Arguments Diverge {A}.

Definition M (A : Type) : Type := Store → outcome A * Store.

Definition ret {A} (a : A) : M A := λ s, (Ret a, s).
Definition raise {A} (e : exn) : M A := λ s, (Raise e, s).
Definition diverge {A} : M A := λ s, (Diverge, s).
Definition bind {A B} (m : M A) (k : A → M B) : M B :=
  λ s, match m s with
       | (Ret a, s') => k a s'
       | (Raise e, s') => (Raise e, s')
       | (Diverge, s') => (Diverge, s')
       end.

Notation "'let*' x := m 'in' k" := (bind m (λ x, k))
  (at level 10, x name, m at level 100, k at level 200).
Notation "m >> k" := (bind m (λ _, k))
  (at level 200, k at level 200, right associativity).

Definition gets {A} (f : Store → A) : M A := λ s, (Ret (f s), s).
Definition modify (f : Store → Store) : M unit := λ s, (Ret tt, f s).

(** [print(msg)] *)
Definition print (msg : string) : M unit :=
  modify (λ s, set_stdout (stdout s ++ [msg]) s).

(** Creating an object: a fresh identity. *)
Definition new_object : M loc :=
  λ s, (Ret (next_loc s), set_next_loc (Pos.succ (next_loc s)) s).

(** Reading an attribute of an object that does not carry it, or of
    [None], raises [AttributeError]. *)
Definition getattr {V A} (field : Store → gmap loc V) (proj : V → A)
    (o : option loc) : M A :=
  λ s, match o with
       | None => (Raise AttributeError, s)
       | Some l =>
         match field s !! l with
         | Some v => (Ret (proj v), s)
         | None => (Raise AttributeError, s)
         end
       end.

(** Writing an attribute.  The program writes link fields only to [Node]
    instances, list fields only to lists, and so on; a write to an object
    of another class is reported as [AttributeError]. *)
Definition setattr {V} (field : Store → gmap loc V)
    (put : gmap loc V → Store → Store) (upd : V → V) (o : option loc) : M unit :=
  λ s, match o with
       | None => (Raise AttributeError, s)
       | Some l =>
         match field s !! l with
         | Some v => (Ret tt, put (<[l := upd v]> (field s)) s)
         | None => (Raise AttributeError, s)
         end
       end.

Definition get_name := getattr nodes Node.name.
Definition get_next := getattr nodes Node.next.
Definition get_prev := getattr nodes Node.prev.
Definition set_next (o v : option loc) := setattr nodes set_nodes (Node.with_next v) o.
Definition set_prev (o v : option loc) := setattr nodes set_nodes (Node.with_prev v) o.

Definition get_head (self : loc) := getattr lists DLL.head (Some self).
Definition get_tail (self : loc) := getattr lists DLL.tail (Some self).
Definition get_size (self : loc) := getattr lists DLL.size (Some self).
Definition get_capacity (self : loc) := getattr lists DLL.capacity (Some self).
Definition set_head (self : loc) (v : option loc) :=
  setattr lists set_lists (DLL.with_head v) (Some self).
Definition set_tail (self : loc) (v : option loc) :=
  setattr lists set_lists (DLL.with_tail v) (Some self).
Definition set_size (self : loc) (v : Z) :=
  setattr lists set_lists (DLL.with_size v) (Some self).

(** [self.size == self.capacity] under [self.capacity is not None]. *)
Definition capacity_reached (self : loc) : M bool :=
  let* c := get_capacity self in
  match c with
  | None => ret false
  | Some c => let* sz := get_size self in ret (bool_decide (sz = c))
  end.

Definition msg_capacity : string := "Cannot add any more items. Capacity reached.".

(** ** [class DoublyLinkedList] *)

(** The anchor of [add_after] / [add_before]: a node or a name. *)
Inductive node_or_name :=
| ByNode (n : option loc)
| ByName (s : string).

Module DoublyLinkedList.

(** [__init__(self, nodes=None, capacity=None)], for [nodes=None], the
    only way the program builds a list. *)
Definition __init__ (capacity : option Z) : M loc :=
  let* self := new_object in
  modify (λ s, set_lists (<[self := DLL.mk None None 0 capacity]> (lists s)) s) >>
  ret self.

Definition push (self : loc) (new_node : loc) : M bool :=
  let* full := capacity_reached self in
  if full then print msg_capacity >> ret false
  else
    let* sz := get_size self in
    let* hd := get_head self in
    let* tl := get_tail self in
    if bool_decide (sz = 0) && bool_decide (hd = None) && bool_decide (tl = None) then
      set_head self (Some new_node) >>
      set_tail self (Some new_node) >>
      set_next (Some new_node) None >>
      set_prev (Some new_node) None >>
      let* sz := get_size self in
      set_size self (sz + 1) >>
      ret true
    else
      let* tl := get_tail self in
      set_prev (Some new_node) tl >>
      let* p := get_prev (Some new_node) in
      (if bool_decide (p ≠ None) then set_next p (Some new_node) else ret tt) >>
      set_tail self (Some new_node) >>
      set_next (Some new_node) None >>
      let* sz := get_size self in
      set_size self (sz + 1) >>
      ret true.

Definition remove (self : loc) (node : option loc) : M (option loc) :=
  let* sz := get_size self in
  if bool_decide (sz = 0) then ret None
  else
    let* p := get_prev node in
    (if bool_decide (p ≠ None) then
       let* nx := get_next node in set_next p nx
     else
       let* nx := get_next node in set_head self nx) >>
    let* nx := get_next node in
    (if bool_decide (nx ≠ None) then
       let* p := get_prev node in set_prev nx p
     else
       let* p := get_prev node in set_tail self p) >>
    set_next node None >>
    set_prev node None >>
    let* sz := get_size self in
    set_size self (sz - 1) >>
    ret node.

Definition pop (self : loc) : M (option loc) :=
  let* sz := get_size self in
  if bool_decide (sz = 0) then ret None
  else let* tl := get_tail self in remove self tl.

Definition peak (self : loc) : M (option loc) := get_tail self.

Definition push_front (self : loc) (new_node : loc) : M bool :=
  let* full := capacity_reached self in
  if full then print msg_capacity >> ret false
  else
    let* sz := get_size self in
    let* hd := get_head self in
    let* tl := get_tail self in
    if bool_decide (sz = 0) && bool_decide (hd = None) && bool_decide (tl = None) then
      push self new_node
    else
      let* hd := get_head self in
      set_next (Some new_node) hd >>
      let* nx := get_next (Some new_node) in
      (if bool_decide (nx ≠ None) then set_prev nx (Some new_node) else ret tt) >>
      set_head self (Some new_node) >>
      set_prev (Some new_node) None >>
      let* sz := get_size self in
      set_size self (sz + 1) >>
      ret true.

Definition pop_front (self : loc) : M (option loc) :=
  let* sz := get_size self in
  if bool_decide (sz = 0) then ret None
  else let* hd := get_head self in remove self hd.

Definition peak_front (self : loc) : M (option loc) := get_head self.

(** The [while curr_node is not None] loop of [find].  A walk that takes
    more steps than there are nodes has entered a cycle and never ends. *)
Fixpoint find_loop (fuel : nat) (curr_node : option loc) (name : string)
    : M (option loc) :=
  match curr_node with
  | None => ret None
  | Some c =>
    match fuel with
    | O => diverge
    | S fuel =>
      let* nm := get_name curr_node in
      if bool_decide (nm = name) then ret curr_node
      else let* nx := get_next curr_node in find_loop fuel nx name
    end
  end.

Definition find (self : loc) (name : string) : M (option loc) :=
  let* curr_node := get_head self in
  let* fuel := gets (λ s, S (base.size (nodes s))) in
  find_loop fuel curr_node name.

(** The loop of [at_index]; it returns after [index] steps at the latest. *)
Fixpoint at_index_loop (fuel : nat) (curr_node : option loc) (i index : Z)
    : M (option loc) :=
  match curr_node with
  | None => ret None
  | Some c =>
    if bool_decide (i = index) then ret curr_node
    else
      match fuel with
      | O => diverge
      | S fuel =>
        let* nx := get_next curr_node in at_index_loop fuel nx (i + 1) index
      end
  end.

Definition at_index (self : loc) (index : Z) : M (option loc) :=
  let* sz := get_size self in
  if bool_decide (index >= sz) || bool_decide (index < 0) then ret None
  else
    let* curr_node := get_head self in
    at_index_loop (Z.to_nat index) curr_node 0 index.

(** [if type(node) is str: node = self.find(node); ...] *)
Definition resolve (self : loc) (node : node_or_name) : M (option loc) :=
  match node with
  | ByNode n => ret n
  | ByName node_name =>
    let* n := find self node_name in
    if bool_decide (n = None)
    then raise (Exception ("'" +:+ node_name +:+ "' is not in the list"))
    else ret n
  end.

Definition msg_empty : string :=
  "Cannot add a new node after another node in an empty list".

Definition add_after (self : loc) (node : node_or_name) (new_node : loc) : M unit :=
  let* full := capacity_reached self in
  if full then print msg_capacity
  else
    let* node := resolve self node in
    let* sz := get_size self in
    if bool_decide (sz = 0) || bool_decide (node = None) then raise (Exception msg_empty)
    else
      let* nx := get_next node in
      (if bool_decide (nx = None) then set_tail self (Some new_node) else ret tt) >>
      let* nx := get_next node in
      set_next (Some new_node) nx >>
      set_next node (Some new_node) >>
      set_prev (Some new_node) node >>
      let* nx := get_next (Some new_node) in
      (if bool_decide (nx ≠ None) then set_prev nx (Some new_node) else ret tt) >>
      let* sz := get_size self in
      set_size self (sz + 1).

Definition add_before (self : loc) (node : node_or_name) (new_node : loc) : M unit :=
  let* full := capacity_reached self in
  if full then print msg_capacity
  else
    let* node := resolve self node in
    let* sz := get_size self in
    if bool_decide (sz = 0) || bool_decide (node = None) then raise (Exception msg_empty)
    else
      let* p := get_prev node in
      (if bool_decide (p = None) then set_head self (Some new_node) else ret tt) >>
      set_next (Some new_node) node >>
      let* p := get_prev node in
      set_prev (Some new_node) p >>
      set_prev node (Some new_node) >>
      let* p := get_prev (Some new_node) in
      (if bool_decide (p ≠ None) then set_next p (Some new_node) else ret tt) >>
      let* sz := get_size self in
      set_size self (sz + 1).

Definition add_at_index (self : loc) (index : Z) (new_node : loc) : M unit :=
  let* full := capacity_reached self in
  if full then print msg_capacity
  else
    let* sz := get_size self in
    if bool_decide (index < 0) || bool_decide (index > sz) then
      raise (Exception "Invalid index")
    else if bool_decide (sz = 0) || bool_decide (index = sz) then
      push self new_node >> ret tt
    else if bool_decide (index = 0) then
      push_front self new_node >> ret tt
    else
      let* node := at_index self index in
      add_before self (ByNode node) new_node.

(** [__iter__]: the nodes met walking [next] from [head]. *)
Fixpoint iter_loop (fuel : nat) (node : option loc) : M (list loc) :=
  match node with
  | None => ret []
  | Some n =>
    match fuel with
    | O => diverge
    | S fuel =>
      let* nx := get_next node in
      let* rest := iter_loop fuel nx in
      ret (n :: rest)
    end
  end.

Definition __iter__ (self : loc) : M (list loc) :=
  let* node := get_head self in
  let* fuel := gets (λ s, S (base.size (nodes s))) in
  iter_loop fuel node.

(** The two walks of [__repr__]: names from [head] along [next], and
    names from [tail] along [prev]. *)
Fixpoint walk_names (fuel : nat) (step : option loc → M (option loc))
    (curr_node : option loc) : M (list string) :=
  match curr_node with
  | None => ret []
  | Some _ =>
    match fuel with
    | O => diverge
    | S fuel =>
      let* nm := get_name curr_node in
      let* nx := step curr_node in
      let* rest := walk_names fuel step nx in
      ret (nm :: rest)
    end
  end.

Definition nodesLTR (self : loc) : M (list string) :=
  let* curr_node := get_head self in
  let* fuel := gets (λ s, S (base.size (nodes s))) in
  walk_names fuel get_next curr_node.

Definition nodesRTL (self : loc) : M (list string) :=
  let* curr_node := get_tail self in
  let* fuel := gets (λ s, S (base.size (nodes s))) in
  walk_names fuel get_prev curr_node.


(** The loop of [get_index]; [node] is the name or the node looked for. *)
Fixpoint get_index_loop (fuel : nat) (curr_node : option loc) (node : node_or_name)
    (i : Z) : M (option Z) :=
  match curr_node with
  | None => ret None
  | Some _ =>
    match fuel with
    | O => diverge
    | S fuel =>
      let* found :=
        match node with
        | ByName name =>
          let* nm := get_name curr_node in ret (bool_decide (nm = name))
        | ByNode n =>
          (* [issubclass(type(node), Node)] *)
          let* is_node := gets (λ s, bool_decide (is_Some (n ≫= (nodes s !!.)))) in
          if is_node then
            let* nm := get_name curr_node in
            let* nm' := get_name n in
            ret (bool_decide (nm = nm'))
          else raise (Exception "the input must be either str or Node")
        end in
      if found then ret (Some i)
      else
        let* nx := get_next curr_node in
        get_index_loop fuel nx node (i + 1)
    end
  end.

Definition get_index (self : loc) (node : node_or_name) : M (option Z) :=
  match node with
  | ByNode None => ret None
  | _ =>
    let* curr_node := get_head self in
    let* fuel := gets (λ s, S (base.size (nodes s))) in
    get_index_loop fuel curr_node node 0
  end.

(** [push], [push_front], [add_before] and [add_at_index] when the
    argument may be [None], as it is when [remove] hands back [None]. *)
Definition push_any (self : loc) (new_node : option loc) : M bool :=
  let* full := capacity_reached self in
  if full then print msg_capacity >> ret false
  else
    let* sz := get_size self in
    let* hd := get_head self in
    let* tl := get_tail self in
    if bool_decide (sz = 0) && bool_decide (hd = None) && bool_decide (tl = None) then
      set_head self new_node >>
      set_tail self new_node >>
      set_next new_node None >>
      set_prev new_node None >>
      let* sz := get_size self in
      set_size self (sz + 1) >>
      ret true
    else
      let* tl := get_tail self in
      set_prev new_node tl >>
      let* p := get_prev new_node in
      (if bool_decide (p ≠ None) then set_next p new_node else ret tt) >>
      set_tail self new_node >>
      set_next new_node None >>
      let* sz := get_size self in
      set_size self (sz + 1) >>
      ret true.

Definition push_front_any (self : loc) (new_node : option loc) : M bool :=
  let* full := capacity_reached self in
  if full then print msg_capacity >> ret false
  else
    let* sz := get_size self in
    let* hd := get_head self in
    let* tl := get_tail self in
    if bool_decide (sz = 0) && bool_decide (hd = None) && bool_decide (tl = None) then
      push_any self new_node
    else
      let* hd := get_head self in
      set_next new_node hd >>
      let* nx := get_next new_node in
      (if bool_decide (nx ≠ None) then set_prev nx new_node else ret tt) >>
      set_head self new_node >>
      set_prev new_node None >>
      let* sz := get_size self in
      set_size self (sz + 1) >>
      ret true.

Definition add_before_any (self : loc) (node : node_or_name) (new_node : option loc)
    : M unit :=
  let* full := capacity_reached self in
  if full then print msg_capacity
  else
    let* node := resolve self node in
    let* sz := get_size self in
    if bool_decide (sz = 0) || bool_decide (node = None) then raise (Exception msg_empty)
    else
      let* p := get_prev node in
      (if bool_decide (p = None) then set_head self new_node else ret tt) >>
      set_next new_node node >>
      let* p := get_prev node in
      set_prev new_node p >>
      set_prev node new_node >>
      let* p := get_prev new_node in
      (if bool_decide (p ≠ None) then set_next p new_node else ret tt) >>
      let* sz := get_size self in
      set_size self (sz + 1).

Definition add_at_index_any (self : loc) (index : Z) (new_node : option loc) : M unit :=
  let* full := capacity_reached self in
  if full then print msg_capacity
  else
    let* sz := get_size self in
    if bool_decide (index < 0) || bool_decide (index > sz) then
      raise (Exception "Invalid index")
    else if bool_decide (sz = 0) || bool_decide (index = sz) then
      push_any self new_node >> ret tt
    else if bool_decide (index = 0) then
      push_front_any self new_node >> ret tt
    else
      let* node := at_index self index in
      add_before_any self (ByNode node) new_node.

End DoublyLinkedList.

(** ** [Node], [Item], [App] *)

Definition get_parent := getattr parent (λ p : option loc, p).
Definition get_can_delete := getattr can_delete (λ b : bool, b).

(** [item.parent = v] *)
Definition set_item_parent (item : option loc) (v : option loc) : M unit :=
  match item with
  | None => raise AttributeError
  | Some i => modify (λ s, set_parent (<[i := v]> (parent s)) s)
  end.

(** [app.can_delete = v] *)
Definition set_app_can_delete (app : option loc) (v : bool) : M unit :=
  match app with
  | None => raise AttributeError
  | Some a => modify (λ s, set_can_delete (<[a := v]> (can_delete s)) s)
  end.

(** A method called on [None] raises [AttributeError]. *)
Definition the (o : option loc) : M loc :=
  match o with
  | None => raise AttributeError
  | Some l => ret l
  end.

(** [Node.__init__(self, name)]; [next] and [prev] are the class defaults. *)
Definition Node__init__ (self : loc) (name : string) : M unit :=
  modify (λ s, set_nodes (<[self := Node.mk name None None]> (nodes s)) s).

Definition Item__init__ (self : loc) (name : string) (parent : option loc) : M unit :=
  Node__init__ self name >>
  set_item_parent (Some self) parent.

Module App.
Definition __init__ (name : string) (parent : option loc) (can_delete : bool) : M loc :=
  let* self := new_object in
  Item__init__ self name parent >>
  set_app_can_delete (Some self) can_delete >>
  ret self.

Definition run (self : loc) : M unit :=
  let* name := get_name (Some self) in
  print "
----------------------
.
.
.
" >>
  print (name +:+ " is running...") >>
  print ".
.
.
----------------------
".
End App.

(** ** [class Single_Page_Container] *)

Module Single_Page_Container.

Definition items (self : loc) : M loc := getattr spcs SPC._items (Some self).

(** the [size] property *)
Definition size (self : loc) : M Z :=
  let* l := items self in get_size l.

(** the [capacity] property *)
Definition capacity (self : loc) : M (option Z) :=
  let* l := items self in get_capacity l.

Definition parent_container (self : loc) : M (option loc) :=
  getattr spcs SPC.parent_container (Some self).

Definition _remove_item (self : loc) (item : loc) : M loc :=
  let* l := items self in
  let* item := DoublyLinkedList.remove l (Some item) in
  set_item_parent item None >>
  the item.

Definition _add_item (self : loc) (item : loc) : M unit :=
  set_item_parent (Some item) (Some self) >>
  let* l := items self in
  DoublyLinkedList.push l item >>
  ret tt.

Definition add_item_at_index (self : loc) (item : loc) (index : Z) : M unit :=
  set_item_parent (Some item) (Some self) >>
  let* l := items self in
  DoublyLinkedList.add_at_index l index item.

Definition add_item (self : loc) (item : loc) (position : option Z) : M unit :=
  match position with
  | None => _add_item self item
  | Some position => add_item_at_index self item position
  end.

Definition add_item_to_end (self : loc) (item : loc) : M unit :=
  set_item_parent (Some item) (Some self) >>
  let* l := items self in
  DoublyLinkedList.push l item >>
  ret tt.

Definition remove_item (self : loc) (item : loc) : M loc :=
  _remove_item self item.

Definition remove_last_item (self : loc) : M loc :=
  let* l := items self in
  let* app := DoublyLinkedList.pop l in
  set_item_parent app None >>
  the app.

(** [for item in items: self._add_item(item)] *)
Fixpoint add_all (self : loc) (items : list loc) : M unit :=
  match items with
  | [] => ret tt
  | item :: rest => _add_item self item >> add_all self rest
  end.

Definition __init__ (self : loc) (items : list loc) (capacity : Z)
    (parent_container : option loc) (container_type : option string) : M unit :=
  let* l := DoublyLinkedList.__init__ (Some capacity) in
  modify (λ s, set_spcs
    (<[self := SPC.mk l parent_container
                 (default "single_page_container" container_type)]> (spcs s)) s) >>
  add_all self items.


Definition _move_item (self : loc) (item : loc) (position : option Z) : M unit :=
  let* l := items self in
  let* _item := DoublyLinkedList.remove l (Some item) in
  match position with
  | None =>
    let* l := items self in
    DoublyLinkedList.push_any l _item >> ret tt
  | Some position =>
    let* l := items self in
    DoublyLinkedList.add_at_index_any l position _item
  end.

Definition move_item (self : loc) (item : loc) (position : option Z) : M unit :=
  _move_item self item position.

End Single_Page_Container.

Module Dock.
Definition __init__ (capacity : Z) (parent_container : option loc) : M loc :=
  let* self := new_object in
  Single_Page_Container.__init__ self [] capacity parent_container (Some "dock") >>
  ret self.
End Dock.

Module Page.
(** [self.id = str(uuid.uuid4())]: a string no other page carries; the
    model derives it from the identity of the new object. *)
Definition uuid4 (self : loc) : string := pretty (Npos self).

Definition __init__ (items : list loc) (capacity : Z) (parent_container : option loc)
    : M loc :=
  let* self := new_object in
  Node__init__ self ("page_" +:+ uuid4 self) >>
  Single_Page_Container.__init__ self items capacity parent_container (Some "page") >>
  ret self.
End Page.

(** The [container_type] property of [Container]. *)
Definition get_container_type (o : option loc) : M string :=
  λ s, match o with
       | None => (Raise AttributeError, s)
       | Some l =>
         match spcs s !! l, mpcs s !! l with
         | Some c, _ => (Ret (SPC.container_type c), s)
         | None, Some c => (Ret (MPC.container_type c), s)
         | None, None => (Raise AttributeError, s)
         end
       end.

(** Python truthiness of an optional integer: [None] and [0] are false. *)
Definition truthy (v : option Z) : bool :=
  match v with
  | None => false
  | Some n => bool_decide (n ≠ 0)
  end.

(** ** [class Multi_Page_Container] *)

Module Multi_Page_Container.

Definition __init__ (self : loc) (page_columns page_rows : Z) (max_pages : option Z)
    (container_type : option string) : M unit :=
  let page_capacity := page_rows * page_columns in
  let* l := DoublyLinkedList.__init__ max_pages in
  let max_apps :=
    if truthy max_pages then (λ m, page_capacity * m) <$> max_pages else None in
  modify (λ s, set_mpcs
    (<[self := MPC.mk page_columns page_rows page_capacity max_pages l max_apps
                 (default "multi_page_container" container_type)]> (mpcs s)) s).

Definition pages (self : loc) : M loc := getattr mpcs MPC._pages (Some self).
Definition page_capacity (self : loc) : M Z := getattr mpcs MPC.page_capacity (Some self).
Definition max_pages (self : loc) : M (option Z) := getattr mpcs MPC.max_pages (Some self).
Definition max_apps (self : loc) : M (option Z) := getattr mpcs MPC.max_apps (Some self).

Definition get_page_at_index (self : loc) (page_idx : Z) : M (option loc) :=
  let* l := pages self in DoublyLinkedList.at_index l page_idx.

(** [self.max_pages is None or self._pages.size < self.max_pages] *)
Definition spare_page (self : loc) : M bool :=
  let* mp := max_pages self in
  match mp with
  | None => ret true
  | Some mp => let* l := pages self in let* sz := get_size l in ret (bool_decide (sz < mp))
  end.

(** [curr_page.size()]: [size] is a property, its value an [int], and
    calling an [int] raises [TypeError]. *)
Definition call_int (f : Z) : M Z := raise TypeError.

(** The backward search of [_add_item] for a page with an opening;
    it yields [true] when the item was placed. *)
Fixpoint scan_loop (fuel : nat) (curr_page : option loc) (item : loc) : M bool :=
  match curr_page with
  | None => ret false
  | Some _ =>
    match fuel with
    | O => diverge
    | S fuel =>
      let* pg := the curr_page in
      let* f := Single_Page_Container.size pg in
      let* sz := call_int f in
      let* cap := Single_Page_Container.capacity pg in
      match cap with
      | None => raise TypeError
      | Some cap =>
        if bool_decide (sz < cap) then
          Single_Page_Container.add_item pg item None >>
          ret true
        else
          let* p := get_prev curr_page in
          scan_loop fuel p item
      end
    end
  end.

Definition msg_no_opening (name : string) : string :=
  "Error: Failed to add the new app '" +:+ name +:+
  "'. Could not find an open position in any of the pages. ".

Definition msg_wrong_container : string :=
  "Invalid request. The page does not belong to this container".

Definition add_item_at_page (self : loc) (item : loc) (page : loc)
    (position_within_page : option Z) : M unit :=
  let* pc := Single_Page_Container.parent_container page in
  if bool_decide (pc ≠ Some self) then print msg_wrong_container
  else
    let* sz := Single_Page_Container.size page in
    let* cap := Single_Page_Container.capacity page in
    let* spare := spare_page self in
    (if bool_decide (Some sz = cap) && spare then
       let* last_item := Single_Page_Container.remove_last_item page in
       let* l := pages self in
       let* c := page_capacity self in
       let* new_page := Page.__init__ [last_item] c (Some self) in
       DoublyLinkedList.add_after l (ByNode (Some page)) new_page
     else ret tt) >>
    Single_Page_Container.add_item page item position_within_page.

Definition _add_item (self : loc) (item : loc) (page : option loc)
    (position_within_page : option Z) : M (option loc) :=
  match page with
  | None =>
    let* l := pages self in
    let* tl := get_tail l in
    let* full :=
      match tl with
      | None => ret true
      | Some t =>
        let* sz := Single_Page_Container.size t in
        let* c := page_capacity self in
        ret (bool_decide (sz = c))
      end in
    if full then
      let* spare := spare_page self in
      if spare then
        let* c := page_capacity self in
        let* new_page := Page.__init__ [item] c (Some self) in
        DoublyLinkedList.push l new_page >>
        ret (Some item)
      else
        let* tl := get_tail l in
        let* curr_page := get_prev tl in
        let* fuel := gets (λ s, S (base.size (nodes s))) in
        let* placed := scan_loop fuel curr_page item in
        if placed then ret (Some item)
        else
          let* name := get_name (Some item) in
          print (msg_no_opening name) >>
          ret None
    else
      let* page := get_tail l in
      let* page := the page in
      Single_Page_Container.add_item page item None >>
      ret None
  | Some page =>
    add_item_at_page self item page position_within_page >>
    ret None
  end.

Definition remove_page (self : loc) (page : loc) : M unit :=
  let* pc := Single_Page_Container.parent_container page in
  if bool_decide (pc ≠ Some self) then ret tt
  else
    let* sz := Single_Page_Container.size page in
    if bool_decide (sz > 0) then ret tt
    else
      let* l := pages self in
      DoublyLinkedList.remove l (Some page) >>
      ret tt.

Definition _remove_item (self : loc) (item : option loc) : M (option loc) :=
  if bool_decide (item ≠ None) then
    let* page := get_parent item in
    let* page := the page in
    let* it := the item in
    let* item := Single_Page_Container.remove_item page it in
    let* sz := Single_Page_Container.size page in
    (if bool_decide (sz = 0) then
       let* l := pages self in
       DoublyLinkedList.remove l (Some page) >> ret tt
     else ret tt) >>
    ret (Some item)
  else ret None.


Definition get_paget_at_index (self : loc) (idx : Z) : M (option loc) :=
  let* l := pages self in DoublyLinkedList.at_index l idx.

(** [page.id]: only a [Page] has one. *)
Definition get_id (o : option loc) : M string :=
  λ s, match o with
       | None => (Raise AttributeError, s)
       | Some l =>
         match nodes s !! l, spcs s !! l with
         | Some _, Some _ => (Ret (Page.uuid4 l), s)
         | _, _ => (Raise AttributeError, s)
         end
       end.

Definition msg_not_same_container (name : string) : string :=
  "Invalid request. '" +:+ name +:+
  " and/or the specified page do not belong to the same container".

Definition msg_cannot_move (name : string) : string :=
  "The specified page is full and the folder has reach its max capacity for pages. Cannot move "
  +:+ name.

Definition _move_item (self : loc) (item : loc) (page : option loc)
    (position : option Z) : M unit :=
  let* p := get_parent (Some item) in
  let* pc := getattr spcs SPC.parent_container p in
  let* foreign :=
    if bool_decide (pc ≠ Some self) then ret true
    else
      let* pc' := getattr spcs SPC.parent_container page in
      ret (bool_decide (pc' ≠ Some self)) in
  if foreign then
    let* name := get_name (Some item) in
    print (msg_not_same_container name)
  else
    let* p := get_parent (Some item) in
    let* id1 := get_id p in
    let* id2 := get_id page in
    if bool_decide (id1 = id2) then
      let* pg := the page in
      Single_Page_Container.move_item pg item position
    else
      let* p := get_parent (Some item) in
      let* p := the p in
      let* _item := Single_Page_Container.remove_item p item in
      let* pg := the page in
      let* sz := Single_Page_Container.size pg in
      let* cap := Single_Page_Container.capacity pg in
      let* stop :=
        if bool_decide (Some sz = cap) then
          let* l := pages self in
          let* psz := get_size l in
          let* mp := max_pages self in
          if bool_decide (Some psz = mp) then
            let* name := get_name (Some _item) in
            print (msg_cannot_move name) >>
            ret true
          else
            let* last_item := Single_Page_Container.remove_last_item pg in
            let* l := pages self in
            let* c := page_capacity self in
            let* new_page := Page.__init__ [last_item] c (Some self) in
            DoublyLinkedList.add_after l (ByNode page) new_page >>
            ret false
        else ret false in
      if stop then ret tt
      else
        match position with
        | None => Single_Page_Container.add_item_to_end pg _item
        | Some position => Single_Page_Container.add_item_at_index pg _item position
        end.

End Multi_Page_Container.

(** ** [try: ... finally: ...] *)

(** The [finally] block runs whether the body returned or raised; an
    exception of its own replaces the outcome of the body. *)
Definition try_finally {A} (body : M A) (final : M unit) : M A :=
  λ s, match body s with
       | (Diverge, s') => (Diverge, s')
       | (o, s') =>
         match final s' with
         | (Ret _, s'') => (o, s'')
         | (Raise e, s'') => (Raise e, s'')
         | (Diverge, s'') => (Diverge, s'')
         end
       end.

(** The [finally] block of the move methods: the page the item came from
    is handed to [remove_page] of its container when it is left empty. *)
Definition prune_original_parent (items_origianl_parent : option loc) : M unit :=
  match items_origianl_parent with
  | None => ret tt
  | Some p =>
    let* sz := Single_Page_Container.size p in
    if bool_decide (sz = 0) then
      let* pc := Single_Page_Container.parent_container p in
      match pc with
      | None => ret tt
      | Some c => Multi_Page_Container.remove_page c p
      end
    else ret tt
  end.

(** ** [class Folder] *)

Module Folder.

Definition add_item (self : loc) (item : loc) (page : option loc)
    (position_within_page : option Z) : M unit :=
  Multi_Page_Container._add_item self item page position_within_page >> ret tt.

Definition remove_item (self : loc) (item : option loc) : M unit :=
  Multi_Page_Container._remove_item self item >> ret tt.

(** [for app in apps: self.add_item(app)] *)
Fixpoint add_all (self : loc) (apps : list loc) : M unit :=
  match apps with
  | [] => ret tt
  | app :: rest => add_item self app None None >> add_all self rest
  end.

Definition __init__ (name : string) (apps : list loc) (page_columns page_rows : Z)
    (max_pages : option Z) (parent : option loc) : M loc :=
  let* self := new_object in
  Item__init__ self name parent >>
  Multi_Page_Container.__init__ self page_columns page_rows max_pages (Some "folder") >>
  add_all self apps >>
  ret self.

Definition msg_not_in_folder (name : string) : string :=
  name +:+ " does is not in the current folder".

Definition move_item (self : loc) (item : loc) (page_idx : Z) (position : option Z)
    : M unit :=
  let* p := get_parent (Some item) in
  let* pc := getattr spcs SPC.parent_container p in
  if bool_decide (pc ≠ Some self) then
    let* name := get_name (Some item) in
    print (msg_not_in_folder name)
  else
    let* items_origianl_parent := get_parent (Some item) in
    try_finally
      (let* l := Multi_Page_Container.pages self in
       let* sz := get_size l in
       if bool_decide (page_idx < sz) && bool_decide (page_idx >= 0) then
         let* page := Multi_Page_Container.get_page_at_index self page_idx in
         Multi_Page_Container._move_item self item page position
       else if bool_decide (page_idx = sz) then
         let* p := get_parent (Some item) in
         let* p := the p in
         let* item := Single_Page_Container.remove_item p item in
         let* c := Multi_Page_Container.page_capacity self in
         let* page := Page.__init__ [item] c (Some self) in
         let* l := Multi_Page_Container.pages self in
         DoublyLinkedList.push l page >>
         ret tt
       else print "Invalid Index")
      (prune_original_parent items_origianl_parent).

End Folder.

(** ** [class Home] *)

(** An argument that is either a name or the object itself
    ([isinstance(item, str)]). *)
Inductive str_or_obj :=
| Str (s : string)
| Obj (o : loc).

(** [deque.remove(x)]: drops the first occurrence of [x]. *)
Fixpoint deque_remove (x : loc) (q : list loc) : list loc :=
  match q with
  | [] => []
  | y :: q => if bool_decide (y = x) then q else y :: deque_remove x q
  end.

Module Home.

Definition default_apps : list string :=
  ["Phone"; "Mail"; "Safari"; "Music"; "Maps"; "Clock"; "Settings"; "Camera"; "Notes"].

Definition _apps (self : loc) : M (gmap string loc) := getattr homes HOME._apps (Some self).
Definition _folders (self : loc) : M (gmap string loc) :=
  getattr homes HOME._folders (Some self).
Definition _dock (self : loc) : M loc := getattr homes HOME._dock (Some self).
Definition _open_apps (self : loc) : M (list loc) :=
  getattr homes HOME._open_apps (Some self).
Definition set__apps (self : loc) (v : gmap string loc) : M unit :=
  setattr homes set_homes (HOME.with_apps v) (Some self).
Definition set__open_apps (self : loc) (v : list loc) : M unit :=
  setattr homes set_homes (HOME.with_open_apps v) (Some self).

(** the [dock_items] property *)
Definition dock_items (self : loc) : M loc :=
  let* d := _dock self in Single_Page_Container.items d.

(** the [running_apps] property *)
Definition running_apps (self : loc) : M (list loc) := _open_apps self.

(** [self._apps[key]] *)
Definition apps_getitem (self : loc) (key : string) : M loc :=
  let* apps := _apps self in
  match apps !! key with
  | Some a => ret a
  | None => raise KeyError
  end.

Definition get_app (self : loc) (app_name : string) : M (option loc) :=
  let* apps := _apps self in
  match apps !! app_name with
  | Some a => ret (Some a)
  | None => print ("App: " +:+ app_name +:+ " was not found") >> ret None
  end.

Definition get_folder (self : loc) (folder_name : string) : M (option loc) :=
  let* folders := _folders self in
  match folders !! folder_name with
  | Some f => ret (Some f)
  | None => print ("Folder: " +:+ folder_name +:+ " was not found") >> ret None
  end.

Definition add_app (self : loc) (app_name : string) : M unit :=
  let* apps := _apps self in
  let* folders := _folders self in
  if bool_decide (is_Some (apps !! app_name)) then
    print (app_name +:+ " already exists")
  else if bool_decide (is_Some (folders !! app_name)) then
    print ("A folder with the name " +:+ app_name +:+
           " already exists. Try a different app")
  else
    let* ma := Multi_Page_Container.max_apps self in
    if truthy ma && bool_decide (Some (Z.of_nat (base.size apps)) = ma) then
      print ("Max capacity reached. Cannot add " +:+ app_name)
    else
      let* new_app := App.__init__ app_name None true in
      let* apps := _apps self in
      set__apps self (<[app_name := new_app]> apps) >>
      Multi_Page_Container._add_item self new_app None None >>
      ret tt.

Definition __find_item (self : loc) (item_name : string) : M (option loc) :=
  let* apps := _apps self in
  let* folders := _folders self in
  match apps !! item_name with
  | Some a => ret (Some a)
  | None =>
    match folders !! item_name with
    | Some f => ret (Some f)
    | None => print (item_name +:+ " was not found") >> ret None
    end
  end.

(** [if isinstance(item, str): item = self.__find_item(item)] *)
Definition resolve_item (self : loc) (item : str_or_obj) : M (option loc) :=
  match item with
  | Str s => __find_item self s
  | Obj o => ret (Some o)
  end.

Definition terminate_app (self : loc) (app_name : string) : M unit :=
  let* app := apps_getitem self app_name in
  let* open := _open_apps self in
  if bool_decide (app ∈ open) then
    let* app := apps_getitem self app_name in
    let* open := _open_apps self in
    set__open_apps self (deque_remove app open)
  else ret tt.

Definition run_app (self : loc) (app_name : string) : M (option bool) :=
  let* apps := _apps self in
  match apps !! app_name with
  | Some app =>
    App.run app >>
    let* open := _open_apps self in
    if bool_decide (app ∉ open) then
      set__open_apps self (open ++ [app]) >>
      ret (Some true)
    else ret None
  | None =>
    print ("Could not find '" +:+ app_name +:+ "'") >>
    ret (Some false)
  end.

Definition msg_dock_full (capacity : option Z) : string :=
  "Dock is full (Capacity: " +:+ from_option pretty "None" capacity +:+
  "). Cannot add any more items.".

Definition move_item_to_dock (self : loc) (item : str_or_obj) (position : option Z)
    : M unit :=
  let* item := resolve_item self item in
  let* d := _dock self in
  let* sz := Single_Page_Container.size d in
  let* cap := Single_Page_Container.capacity d in
  if bool_decide (Some sz = cap) then print (msg_dock_full cap)
  else
    let* p := get_parent item in
    let* p := the p in
    let* it := the item in
    let* item := Single_Page_Container.remove_item p it in
    let* d := _dock self in
    Single_Page_Container.add_item d item position.

Definition msg_not_deletable (name : string) : string :=
  name +:+ " app is not allowed to be deleted and must stay on iPhone".

Definition delete_app (self : loc) (app : str_or_obj) : M unit :=
  let* app :=
    match app with
    | Str s => get_app self s
    | Obj o => ret (Some o)
    end in
  let* cd := get_can_delete app in
  if negb cd then
    let* name := get_name app in
    print (msg_not_deletable name)
  else
    let* name := get_name app in
    terminate_app self name >>
    let* p := get_parent app in
    let* pc := getattr spcs SPC.parent_container p in
    let* ty := get_container_type pc in
    let* app :=
      if bool_decide (ty = "folder") then
        (* [Folder.remove_item] runs [_remove_item] of the folder and
           hands nothing back: [app] keeps its value *)
        let* p := get_parent app in
        let* pc := getattr spcs SPC.parent_container p in
        let* f := the pc in
        Multi_Page_Container._remove_item f app >>
        ret app
      else
        let* p := get_parent app in
        let* ty := get_container_type p in
        if bool_decide (ty = "dock") then
          let* d := _dock self in
          let* a := the app in
          Single_Page_Container.remove_item d a >>
          ret app
        else
          Multi_Page_Container._remove_item self app
    in
    let* name := get_name app in
    let* apps := _apps self in
    match apps !! name with
    | Some _ => set__apps self (delete name apps)
    | None => raise KeyError
    end.

(** [for app in apps: self.add_app(app)] *)
Fixpoint add_apps (self : loc) (apps : list string) : M unit :=
  match apps with
  | [] => ret tt
  | app :: rest => add_app self app >> add_apps self rest
  end.

(** [for idx in range(dock_capacity):
       self.move_item_to_dock(self._apps[apps[idx]])] *)
Fixpoint fill_dock (self : loc) (apps : list string) (idxs : list nat) : M unit :=
  match idxs with
  | [] => ret tt
  | idx :: rest =>
    let* name :=
      match apps !! idx with
      | Some name => ret name
      | None => raise IndexError
      end in
    let* app := apps_getitem self name in
    move_item_to_dock self (Obj app) None >>
    fill_dock self apps rest
  end.

(** [for app in ["Phone", "Settings", "Clock", "Camera"]:
       if app in self._apps.keys(): self._apps[app].can_delete = False] *)
Fixpoint protect (self : loc) (names : list string) : M unit :=
  match names with
  | [] => ret tt
  | app :: rest =>
    let* apps := _apps self in
    (if bool_decide (is_Some (apps !! app)) then
       let* a := apps_getitem self app in
       set_app_can_delete (Some a) false
     else ret tt) >>
    protect self rest
  end.

Definition __init__ (apps : list string) (page_columns page_rows : Z)
    (max_pages : option Z) (dock_capacity : Z) : M loc :=
  let* self := new_object in
  Multi_Page_Container.__init__ self page_columns page_rows max_pages (Some "home") >>
  let* dock := Dock.__init__ dock_capacity (Some self) in
  modify (λ s, set_homes (<[self := HOME.mk ∅ dock ∅ []]> (homes s)) s) >>
  add_apps self apps >>
  fill_dock self apps (seq 0 (Z.to_nat dock_capacity)) >>
  protect self ["Phone"; "Settings"; "Clock"; "Camera"] >>
  ret self.

(** [Home()] *)
Definition default : M loc := __init__ default_apps 3 4 (Some 5) 4.


Definition set__folders (self : loc) (v : gmap string loc) : M unit :=
  setattr homes set_homes (HOME.with_folders v) (Some self).

(** [isinstance(app, App)]: the object carries the attributes of an app. *)
Definition is_app (o : loc) : M bool :=
  gets (λ s, bool_decide (is_Some (can_delete s !! o))).

(** [app.name not in self._apps.keys]: [keys] is not called, and
    membership in a bound method raises [TypeError]. *)
Definition in_method {A} (name : string) : M A := raise TypeError.

Definition __verify_app (self : loc) (app : str_or_obj) : M (option loc) :=
  match app with
  | Str s => get_app self s
  | Obj o =>
    let* app_class := is_app o in
    if app_class then
      let* name := get_name (Some o) in
      let* known := in_method name in
      if negb known then
        print (name +:+ " was not found.") >> ret None
      else ret (Some o)
    else
      print "Invalid request. 'app' must be either App or str" >> ret None
  end.

(** [dest.move_item(item, position=...)]: a page or the dock has this
    method; [Folder.move_item] needs a [page_idx] that is not passed;
    [Home] has no such method. *)
Definition dest_move_item (dest : option loc) (item : loc) (position : option Z)
    : M unit :=
  let* d := the dest in
  let* page_or_dock := gets (λ s, bool_decide (is_Some (spcs s !! d))) in
  if page_or_dock then Single_Page_Container.move_item d item position
  else
    let* ty := get_container_type dest in
    if bool_decide (ty = "folder") then raise TypeError else raise AttributeError.

(** [_move_item] once [item] is an object (or [None]). *)
Definition _move_item_object (self : loc) (item : option loc) (dest : option loc)
    (page_idx : option Z) (position_within_page : option Z) : M unit :=
  let* items_origianl_parent := get_parent item in
  try_finally
    (if bool_decide (items_origianl_parent = dest) then
       let* it := the item in
       dest_move_item dest it position_within_page
     else
       let* p := the items_origianl_parent in
       let* it := the item in
       let* item := Single_Page_Container.remove_item p it in
       let* ty := get_container_type dest in
       if bool_decide (ty = "folder") then
         let* d := the dest in
         let* l := Multi_Page_Container.pages d in
         let* sz := get_size l in
         if bool_decide (sz > 0) then
           let* page :=
             match page_idx with
             | None => ret None
             | Some idx => Multi_Page_Container.get_paget_at_index d idx
             end in
           Folder.add_item d item page position_within_page
         else Folder.add_item d item None None
       else
         let* container := getattr spcs SPC.parent_container dest in
         let* cty := get_container_type container in
         if bool_decide (cty = "home") then
           let* dty := get_container_type dest in
           if bool_decide (dty = "dock") then
             let* d := _dock self in
             Single_Page_Container.add_item d item position_within_page
           else
             Multi_Page_Container._add_item self item dest position_within_page >>
             ret tt
         else if bool_decide (cty = "folder") then
           let* c := the container in
           if truthy page_idx then
             let* page :=
               match page_idx with
               | None => ret None
               | Some idx => Multi_Page_Container.get_page_at_index c idx
               end in
             let* pg := the page in
             Multi_Page_Container.add_item_at_page c item pg position_within_page
           else Folder.add_item c item None position_within_page
         else ret tt)
    (prune_original_parent items_origianl_parent).

Definition _move_item (self : loc) (item : str_or_obj) (dest : option loc)
    (page_idx : option Z) (position_within_page : option Z) : M unit :=
  let* item := resolve_item self item in
  _move_item_object self item dest page_idx position_within_page.

Definition msg_folder_name_taken (name : string) : string :=
  "Cannot create a folder with name " +:+ name +:+ ". Name already exists.".

(** The first loop of [create_folder]: the list [_apps] it builds, or
    [None] when the operation is given up. *)
Fixpoint collect_apps (self : loc) (apps : list str_or_obj)
    : M (option (list (option loc))) :=
  match apps with
  | [] => ret (Some [])
  | app :: rest =>
    let* found :=
      match app with
      | Str s =>
        let* _app := get_app self s in
        match _app with
        | Some a => ret (Some (Some a))
        | None => print ("Invalid app " +:+ s +:+ ". Operation Failed.") >> ret None
        end
      | Obj o =>
        let* app_class := is_app o in
        if app_class then
          let* _app := __verify_app self app in
          ret (Some _app)
        else print "Invalid request. Operation Failed." >> ret None
      end in
    match found with
    | None => ret None
    | Some a =>
      let* more := collect_apps self rest in
      ret ((a ::.) <$> more)
    end
  end.

(** [for application in _apps: self._move_item(application, new_folder)] *)
Fixpoint move_all (self : loc) (apps : list (option loc)) (folder : loc) : M unit :=
  match apps with
  | [] => ret tt
  | application :: rest =>
    _move_item_object self application (Some folder) None None >>
    move_all self rest folder
  end.

Definition create_folder (self : loc) (folder_name : string) (apps : list str_or_obj)
    (page : option loc) (position_within_page : option Z) : M (option loc) :=
  let* known_apps := _apps self in
  let* folders := _folders self in
  if bool_decide (is_Some (known_apps !! folder_name)) ||
     bool_decide (is_Some (folders !! folder_name)) then
    print (msg_folder_name_taken folder_name) >> ret None
  else
    let* collected := collect_apps self apps in
    match collected with
    | None => ret None
    | Some _apps =>
      let* new_folder := Folder.__init__ folder_name [] 3 3 (Some 3) page in
      match page with
      | Some pg => Single_Page_Container.add_item pg new_folder position_within_page
      | None =>
        Multi_Page_Container._add_item self new_folder None position_within_page >>
        ret tt
      end >>
      move_all self _apps new_folder >>
      let* folders := _folders self in
      set__folders self (<[folder_name := new_folder]> folders) >>
      ret (Some new_folder)
    end.

Definition remove_folder (self : loc) (folder : str_or_obj) : M (option loc) :=
  let* folder :=
    match folder with
    | Str s => get_folder self s
    | Obj o => ret (Some o)
    end in
  let* f := the folder in
  let* l := Multi_Page_Container.pages f in
  let* sz := get_size l in
  if bool_decide (sz > 0) then
    print "Cannot remove a folder that contains app(s)." >> ret None
  else
    let* name := get_name folder in
    let* folders := _folders self in
    match folders !! name with
    | Some _ =>
      set__folders self (delete name folders) >>
      Multi_Page_Container._remove_item self folder
    | None => raise KeyError
    end.

Definition move_item_between_pages (self : loc) (item : str_or_obj) (page_idx : Z)
    (position : option Z) : M unit :=
  let* item := resolve_item self item in
  let* l := Multi_Page_Container.pages self in
  let* sz := get_size l in
  if bool_decide (page_idx < sz) && bool_decide (page_idx >= 0) then
    let* page := Multi_Page_Container.get_page_at_index self page_idx in
    _move_item_object self item page None position
  else if bool_decide (page_idx = sz) then
    let* p := get_parent item in
    let* p := the p in
    let* it := the item in
    let* item := Single_Page_Container.remove_item p it in
    let* c := Multi_Page_Container.page_capacity self in
    let* page := Page.__init__ [item] c (Some self) in
    let* l := Multi_Page_Container.pages self in
    DoublyLinkedList.push l page >>
    ret tt
  else print "Invalid Index".

(** [move_item_to_folder], called with the names of the app and of the
    folder. *)
Definition move_item_to_folder (self : loc) (app : string) (folder : string)
    (page_idx : option Z) (position : option Z) : M unit :=
  let* _app := get_app self app in
  if bool_decide (_app = None) then ret tt
  else
    let* _folder := get_folder self folder in
    if bool_decide (_folder = None) then ret tt
    else _move_item_object self _app _folder page_idx position.

End Home.

(** * Specifications *)

(** ** A weakest precondition for methods

    [wp m s Q]: running [m] from store [s] ends in an outcome and a store
    that satisfy [Q]. *)
Definition wp {A} (m : M A) (s : Store) (Q : outcome A → Store → Prop) : Prop :=
  Q (m s).1 (m s).2.

(** [m] returns [a] from [s] and leaves the store [s']. *)
Definition returns {A} (m : M A) (s : Store) (a : A) (s' : Store) : Prop :=
  m s = (Ret a, s').

(** ** The shape of a doubly linked list in the store *)

Definition hd_or (ls : list loc) (d : option loc) : option loc :=
  match ls with
  | [] => d
  | x :: _ => Some x
  end.

Definition last_or (ls : list loc) (d : option loc) : option loc :=
  match last ls with
  | Some x => Some x
  | None => d
  end.

(** [dseg h pp ls qn]: the nodes [ls] are chained in this order, the first
    one pointing back to [pp] and the last one forward to [qn]. *)
Fixpoint dseg (h : gmap loc Node.t) (pp : option loc) (ls : list loc)
    (qn : option loc) : Prop :=
  match ls with
  | [] => True
  | x :: xs =>
    ∃ nd, h !! x = Some nd ∧ Node.prev nd = pp ∧ Node.next nd = hd_or xs qn ∧
          dseg h (Some x) xs qn
  end.

(** The list object [self] holds exactly the nodes [ls], in this order. *)
Definition dll_inv (s : Store) (self : loc) (ls : list loc) : Prop :=
  ∃ l, lists s !! self = Some l ∧ NoDup ls ∧
       DLL.head l = head ls ∧ DLL.tail l = last ls ∧
       DLL.size l = Z.of_nat (length ls) ∧
       dseg (nodes s) None ls None.

(** What a method of the list [self] may change: link fields of nodes and
    the list object itself, never its capacity, a node's name, another
    list or any other object. *)
Definition dll_frame (self : loc) (s s' : Store) : Prop :=
  parent s' = parent s ∧ can_delete s' = can_delete s ∧ spcs s' = spcs s ∧
  mpcs s' = mpcs s ∧ homes s' = homes s ∧ next_loc s' = next_loc s ∧
  stdout s' = stdout s ∧
  (∀ o, o ≠ self → lists s' !! o = lists s !! o) ∧
  DLL.capacity <$> lists s' !! self = DLL.capacity <$> lists s !! self ∧
  (∀ x, Node.name <$> nodes s' !! x = Node.name <$> nodes s !! x).

(** The nodes outside [touched] keep their links. *)
Definition nodes_kept (touched : list loc) (s s' : Store) : Prop :=
  ∀ x, x ∉ touched → nodes s' !! x = nodes s !! x.

(** [print(msg)] as a store update. *)
Definition printed (msgs : list string) (s : Store) : Store :=
  set_stdout (stdout s ++ msgs) s.

(** ** Sequences of list operations *)

Inductive op :=
| Push (n : loc)
| PushFront (n : loc)
| Pop
| PopFront
| Remove (n : loc)
| AddAfter (a : node_or_name) (n : loc)
| AddBefore (a : node_or_name) (n : loc)
| AddAtIndex (i : Z) (n : loc).

Definition run_op (self : loc) (o : op) : M unit :=
  match o with
  | Push n => DoublyLinkedList.push self n >> ret tt
  | PushFront n => DoublyLinkedList.push_front self n >> ret tt
  | Pop => DoublyLinkedList.pop self >> ret tt
  | PopFront => DoublyLinkedList.pop_front self >> ret tt
  | Remove n => DoublyLinkedList.remove self (Some n) >> ret tt
  | AddAfter a n => DoublyLinkedList.add_after self a n
  | AddBefore a n => DoublyLinkedList.add_before self a n
  | AddAtIndex i n => DoublyLinkedList.add_at_index self i n
  end.

(** The store an operation leaves, whether it returned or raised. *)
Definition exec (self : loc) (o : op) (s : Store) : Store := (run_op self o s).2.

Definition run_ops (self : loc) (ops : list op) (s : Store) : Store :=
  foldl (λ s o, exec self o s) s ops.

(** The nodes currently in the list, as [__iter__] yields them. *)
Definition contents (s : Store) (self : loc) : list loc :=
  match (DoublyLinkedList.__iter__ self s).1 with
  | Ret ls => ls
  | _ => []
  end.

Definition is_node (s : Store) (n : loc) : Prop := is_Some (nodes s !! n).

(** The anchor of an insertion, when given as a node, is in the list. *)
Definition anchor_ok (s : Store) (self : loc) (a : node_or_name) : Prop :=
  match a with
  | ByNode (Some x) => x ∈ contents s self
  | _ => True
  end.

(** The conditions the operations are used under: [remove] and the
    anchors are applied to nodes of the list ([claimed]); in addition
    ([detached = true]) an inserted node is not already in the list. *)
Definition op_ok (detached : bool) (s : Store) (self : loc) (o : op) : Prop :=
  let new n := is_node s n ∧ (detached = true → n ∉ contents s self) in
  match o with
  | Push n | PushFront n | AddAtIndex _ n => new n
  | Pop | PopFront => True
  | Remove n => n ∈ contents s self
  | AddAfter a n | AddBefore a n => new n ∧ anchor_ok s self a
  end.

Fixpoint run_ok (detached : bool) (s : Store) (self : loc) (ops : list op) : Prop :=
  match ops with
  | [] => True
  | o :: ops => op_ok detached s self o ∧ run_ok detached (exec self o s) self ops
  end.

(** List integrity: the names met walking forward from [head] are the
    reverse of the names met walking backward from [tail], [size] counts
    them, [head.prev] and [tail.next] are [None]. *)
Definition integrity (s : Store) (self : loc) : Prop :=
  ∃ l names,
    lists s !! self = Some l ∧
    DoublyLinkedList.nodesLTR self s = (Ret names, s) ∧
    DoublyLinkedList.nodesRTL self s = (Ret (reverse names), s) ∧
    DLL.size l = Z.of_nat (length names) ∧
    (∀ h, DLL.head l = Some h → ∃ nd, nodes s !! h = Some nd ∧ Node.prev nd = None) ∧
    (∀ t, DLL.tail l = Some t → ∃ nd, nodes s !! t = Some nd ∧ Node.next nd = None).

Definition node_name (s : Store) (x : loc) : string :=
  from_option Node.name "" (nodes s !! x).

(** ** Concrete stores used as examples *)

(** [a = App("a"); b = App("b")] in a fresh interpreter: two detached
    nodes, [a] at identity 1 and [b] at identity 2. *)
Definition two_nodes : Store :=
  (App.__init__ "b" None true (App.__init__ "a" None true empty_store).2).2.

(** [l = DoublyLinkedList(capacity=capacity)] after [two_nodes]; the list
    is object 3. *)
Definition two_nodes_and_list (capacity : option Z) : Store :=
  (DoublyLinkedList.__init__ capacity two_nodes).2.

(** ** Observing a home screen *)

Fixpoint mapM {A B} (f : A → M B) (l : list A) : M (list B) :=
  match l with
  | [] => ret []
  | x :: l => let* y := f x in let* ys := mapM f l in ret (y :: ys)
  end.

(** The names on the dock, in order. *)
Definition dock_names (self : loc) : M (list string) :=
  let* d := Home.dock_items self in
  DoublyLinkedList.nodesLTR d.

(** The pages of a container, in order. *)
Definition page_list (self : loc) : M (list loc) :=
  let* l := Multi_Page_Container.pages self in
  DoublyLinkedList.__iter__ l.

(** The names on one page, in order. *)
Definition names_on (page : loc) : M (list string) :=
  let* l := Single_Page_Container.items page in
  DoublyLinkedList.nodesLTR l.

(** The names on every page of a container. *)
Definition page_names (self : loc) : M (list (list string)) :=
  let* pgs := page_list self in
  mapM names_on pgs.

(** The value a query returns, [None] when it does not return. *)
Definition value {A} (r : outcome A * Store) : option A :=
  match r.1 with
  | Ret a => Some a
  | _ => None
  end.

(** Running a script in a fresh interpreter. *)
Definition fresh {A} (m : M A) : Store := (m empty_store).2.

(** [home = Home()]; the home screen is object 1, its list of pages
    object 2, the dock object 3. *)
Definition default_home : Store := fresh Home.default.

(** Scenario B: a home screen with a dock of capacity 2, emptied by
    deleting the two apps the constructor docked; then A and B are moved to
    the dock. *)
Definition scenario_B : Store :=
  fresh (let* home := Home.__init__ ["X"; "Y"; "A"; "B"; "C"] 3 4 (Some 5) 2 in
         Home.delete_app home (Str "X") >>
         Home.delete_app home (Str "Y") >>
         Home.move_item_to_dock home (Str "A") None >>
         Home.move_item_to_dock home (Str "B") None).

(** Two pages of capacity 3, the last one full, the first one with
    openings, and no page left to create. *)
Definition last_page_full : Store :=
  fresh (let* home := Home.__init__ ["A"; "B"; "C"; "D"] 3 1 (Some 2) 1 in
         Home.add_app home "E" >>
         Home.add_app home "F" >>
         Home.delete_app home (Str "B")).

(** One page of capacity 1 holding A, no page left to create, and a
    detached app B (object 8). *)
Definition one_full_page : Store :=
  fresh (Home.__init__ ["A"] 1 1 (Some 1) 0 >>
         App.__init__ "B" None true).

(** A home screen whose first page holds exactly B, and an empty dock. *)
Definition page_with_one_item : Store :=
  fresh (let* home := Home.__init__ ["A"; "B"] 3 4 (Some 5) 1 in
         Home.delete_app home (Str "A")).

(** The default home screen with one free place on the dock. *)
Definition dock_with_room : Store :=
  fresh (let* home := Home.default in Home.delete_app home (Str "Mail")).

(** ** Adding to a page *)

(** Objects in use were created before the next one. *)
Definition allocated (s : Store) (x : loc) : Prop := (x < next_loc s)%positive.

(** Where [add_item(item, position)] puts the item on a page holding
    [its]: at the end, or before the item at index [position]. *)
Definition insert_at (position : option Z) (item : loc) (its : list loc) : list loc :=
  match position with
  | None => its ++ [item]
  | Some i => take (Z.to_nat i) its ++ item :: drop (Z.to_nat i) its
  end.

Definition valid_position (position : option Z) (its : list loc) : Prop :=
  match position with
  | None => True
  | Some i => 0 ≤ i ≤ Z.of_nat (length its)
  end.

(** A check of [dseg] and of [dll_inv] that computes. *)
Fixpoint dseg_check (h : gmap loc Node.t) (pp : option loc) (ls : list loc)
    (qn : option loc) : bool :=
  match ls with
  | [] => true
  | x :: xs =>
    match h !! x with
    | Some nd =>
      bool_decide (Node.prev nd = pp) && bool_decide (Node.next nd = hd_or xs qn) &&
      dseg_check h (Some x) xs qn
    | None => false
    end
  end.

Definition dll_check (s : Store) (self : loc) (ls : list loc) : bool :=
  match lists s !! self with
  | Some l =>
    bool_decide (NoDup ls) && bool_decide (DLL.head l = head ls) &&
    bool_decide (DLL.tail l = last ls) &&
    bool_decide (DLL.size l = Z.of_nat (length ls)) &&
    dseg_check (nodes s) None ls None
  | None => false
  end.

(** A page of capacity 2 full with A and B, room for more pages, and a
    detached app C (object 9).  The home screen is object 1, its list of
    pages object 2, the page object 6 and its list object 7; A is object
    5 and B object 8. *)
Definition full_page_with_room : Store :=
  fresh (Home.__init__ ["A"; "B"] 2 1 (Some 5) 0 >>
         App.__init__ "C" None true).

(** ** Further notions used by the properties of the rest of the code *)

(** The list is at its capacity / has room for one more node. *)
Definition is_full (s : Store) (self : loc) : Prop :=
  ∃ l, lists s !! self = Some l ∧ DLL.capacity l = Some (DLL.size l).

Definition has_room (s : Store) (self : loc) : Prop :=
  ∃ l, lists s !! self = Some l ∧ DLL.capacity l ≠ Some (DLL.size l).

(** [size <= capacity] when a capacity is set. *)
Definition within_capacity (s : Store) (self : loc) : Prop :=
  ∃ l, lists s !! self = Some l ∧ ∀ c, DLL.capacity l = Some c → DLL.size l ≤ c.

(** The first node of [ls] named [name], with its index. *)
Definition first_named (s : Store) (name : string) (ls : list loc) : option (nat * loc) :=
  list_find (λ x, node_name s x = name) ls.

(** The node's links are cleared. *)
Definition detached (s : Store) (x : loc) : Prop :=
  ∃ nd, nodes s !! x = Some nd ∧ Node.next nd = None ∧ Node.prev nd = None.

(** Three apps a, b, c (objects 1, 2, 3) in a list (object 5) of capacity
    [capacity], in this order, and a detached app d (object 4). *)
Definition three_in_list (capacity : option Z) : Store :=
  fresh (let* a := App.__init__ "a" None true in
         let* b := App.__init__ "b" None true in
         let* c := App.__init__ "c" None true in
         App.__init__ "d" None true >>
         let* l := DoublyLinkedList.__init__ capacity in
         DoublyLinkedList.push l a >>
         DoublyLinkedList.push l b >>
         DoublyLinkedList.push l c).

(** The name [get_index] looks for: the string itself, or the name of the
    node it is given. *)
Definition sought_name (s : Store) (node : node_or_name) : option string :=
  match node with
  | ByName name => Some name
  | ByNode n => n ≫= λ n, Node.name <$> nodes s !! n
  end.

(** The nodes of [ls] have pairwise different names. *)
Definition distinct_names (s : Store) (ls : list loc) : Prop :=
  NoDup (node_name s <$> ls).

(** A home screen (object 1) with pages of capacity 3 and at most 5 pages.
    Its list of pages (object 2) holds page 6, whose list (object 7) holds
    B (object 8) and C (object 9), and page 11, whose list (object 12)
    holds D (object 10).  The dock (object 3, list 4, capacity 1) holds A
    (object 5).  E (object 13) is a detached app. *)
Definition two_pages : Store :=
  fresh (Home.__init__ ["A"; "B"; "C"; "D"] 3 1 (Some 5) 1 >>
         App.__init__ "E" None true).

(** A home screen (object 1) whose only page (object 6, in the list of
    pages 2) has been emptied by taking B (object 8) off it. *)
Definition empty_page : Store :=
  (Single_Page_Container.remove_item 6%positive 8%positive page_with_one_item).2.

(** What an argument of the [Home] methods that is either a name or an
    object stands for: the object itself, or the app registered under the
    name, or else the folder registered under it. *)
Definition refers_to (h : HOME.t) (item : str_or_obj) (it : loc) : Prop :=
  match item with
  | Obj o => o = it
  | Str name =>
    HOME._apps h !! name = Some it ∨
    (HOME._apps h !! name = None ∧ HOME._folders h !! name = Some it)
  end.

(** The apps of [apps] that are given by a registered name. *)
Definition known_names (h : HOME.t) (apps : list str_or_obj) : Prop :=
  Forall (λ a, match a with
               | Str name => is_Some (HOME._apps h !! name)
               | Obj _ => False
               end) apps.

(** The app an argument stands for where only apps are looked up. *)
Definition app_named (h : HOME.t) (app : str_or_obj) (a : loc) : Prop :=
  match app with
  | Obj o => o = a
  | Str name => HOME._apps h !! name = Some a
  end.

(** A home screen (object 1) holding a folder: the dock (object 3) holds A
    (object 5); page 6 holds B (object 8) and the folder Social (object
    11); the folder's list of pages (object 12) holds page 13, whose list
    (object 14) holds X (object 9) and Y (object 10). *)
Definition home_with_folder : Store :=
  fresh (let* home := Home.__init__ ["A"; "B"; "X"; "Y"] 3 4 (Some 5) 1 in
         Home.create_folder home "Social" [Str "X"; Str "Y"] None None).

(** * Proofs *)

#[local] Set Warnings "-clear-no-such-hyp,-level-tolerance".

(** ** Rules of the weakest precondition *)

Lemma wp_bind {A B} (m : M A) (k : A → M B) s Q :
  wp m s (λ o s', match o with
                  | Ret a => wp (k a) s' Q
                  | Raise e => Q (Raise e) s'
                  | Diverge => Q Diverge s'
                  end) →
  wp (bind m k) s Q.
Proof. unfold wp, bind. destruct (m s) as [[a| |] s']; auto. Qed.

Lemma wp_ret {A} (a : A) s (Q : outcome A → Store → Prop) : Q (Ret a) s → wp (ret a) s Q.
Proof. auto. Qed.

Lemma wp_raise {A} e s (Q : outcome A → Store → Prop) : Q (Raise e) s → wp (raise e) s Q.
Proof. auto. Qed.

Lemma wp_getattr {V A} (field : Store → gmap loc V) (proj : V → A) l v s Q :
  field s !! l = Some v → Q (Ret (proj v)) s → wp (getattr field proj (Some l)) s Q.
Proof. intros H HQ. unfold wp, getattr. by rewrite H. Qed.

Lemma wp_setattr {V} (field : Store → gmap loc V) put upd l v s Q :
  field s !! l = Some v → Q (Ret tt) (put (<[l := upd v]> (field s)) s) →
  wp (setattr field put upd (Some l)) s Q.
Proof. intros H HQ. unfold wp, setattr. by rewrite H. Qed.

Lemma wp_modify f s (Q : outcome unit → Store → Prop) : Q (Ret tt) (f s) → wp (modify f) s Q.
Proof. auto. Qed.

Lemma wp_gets {A} (f : Store → A) s Q : Q (Ret (f s)) s → wp (gets f) s Q.
Proof. auto. Qed.

Lemma wp_new_object s (Q : outcome loc → Store → Prop) :
  Q (Ret (next_loc s)) (set_next_loc (Pos.succ (next_loc s)) s) → wp new_object s Q.
Proof. auto. Qed.

Lemma wp_mono {A} (m : M A) s (Q Q' : outcome A → Store → Prop) :
  wp m s Q → (∀ o s', Q o s' → Q' o s') → wp m s Q'.
Proof. unfold wp. auto. Qed.

Lemma wp_eq {A} (m : M A) s r : wp m s (λ o s', (o, s') = r) → m s = r.
Proof. unfold wp. by destruct (m s). Qed.

Lemma wp_returns {A} (m : M A) s a s' (Q : outcome A → Store → Prop) :
  returns m s a s' → Q (Ret a) s' → wp m s Q.
Proof. unfold wp, returns. by intros ->. Qed.

Ltac store_simpl :=
  unfold printed, set_nodes, set_parent, set_can_delete, set_lists, set_spcs, set_mpcs,
    set_homes, set_next_loc, set_stdout in *;
  cbn [nodes parent can_delete lists spcs mpcs homes next_loc stdout
       Node.name Node.next Node.prev Node.with_next Node.with_prev
       DLL.head DLL.tail DLL.size DLL.capacity DLL.with_head DLL.with_tail
       DLL.with_size SPC._items SPC.parent_container SPC.container_type
       MPC.page_columns MPC.page_rows MPC.page_capacity MPC.max_pages MPC._pages
       MPC.max_apps MPC.container_type HOME._apps HOME._dock HOME._folders
       HOME._open_apps HOME.with_apps HOME.with_open_apps default from_option] in *.

Ltac frame_rw :=
  repeat match goal with
  | H : parent _ = _ |- _ => rewrite H
  | H : can_delete _ = _ |- _ => rewrite H
  | H : spcs _ = _ |- _ => rewrite H
  | H : mpcs _ = _ |- _ => rewrite H
  | H : homes _ = _ |- _ => rewrite H
  | H : next_loc _ = _ |- _ => rewrite H
  | H : stdout _ = _ |- _ => rewrite H
  end.

Ltac solve_lookup :=
  store_simpl; frame_rw;
  repeat first
    [ rewrite lookup_insert_eq
    | rewrite lookup_insert_ne by (first [assumption | congruence | done]) ];
  first [reflexivity | eassumption].

Ltac wp_unfold :=
  unfold get_name, get_next, get_prev, set_next, set_prev,
    get_head, get_tail, get_size, get_capacity, set_head, set_tail, set_size,
    get_parent, get_can_delete, print.

Ltac wp_step :=
  lazymatch goal with
  | |- match _ with Ret _ => _ | Raise _ => _ | Diverge => _ end => cbv beta match
  | |- wp (bind _ _) _ _ => apply wp_bind
  | |- wp (ret _) _ _ => apply wp_ret; cbv beta match
  | |- wp (raise _) _ _ => apply wp_raise; cbv beta match
  | |- wp (getattr _ _ (Some _)) _ _ =>
      eapply wp_getattr; [solve_lookup | cbv beta match; store_simpl]
  | |- wp (setattr _ _ _ (Some _)) _ _ =>
      eapply wp_setattr; [solve_lookup | cbv beta match; store_simpl]
  | |- wp new_object _ _ => apply wp_new_object; cbv beta match; store_simpl
  | |- wp (modify _) _ _ => apply wp_modify; cbv beta match; store_simpl
  | |- wp (gets _) _ _ => apply wp_gets; cbv beta match; store_simpl
  | |- wp (if bool_decide ?P then _ else _) _ _ =>
      first [ rewrite (bool_decide_eq_true_2 P) by (first [done | lia | congruence])
            | rewrite (bool_decide_eq_false_2 P) by (first [done | lia | congruence]) ]
  end.

Ltac wp_steps := wp_unfold; repeat wp_step.

(** Applying the specification [H] of a called method. *)
Ltac wp_apply H :=
  lazymatch goal with
  | |- wp (bind _ _) _ _ => apply wp_bind; eapply wp_mono; [eapply H | cbv beta]
  | |- wp _ _ _ => eapply wp_mono; [eapply H | cbv beta]
  end.

(** ** Segments *)

Lemma dseg_frame h h' pp ls qn :
  (∀ x, x ∈ ls → h' !! x = h !! x) → dseg h pp ls qn → dseg h' pp ls qn.
Proof.
  revert pp. induction ls as [|x xs IH]; intros pp Hf; simpl; [done|].
  intros (nd & Hx & Hp & Hn & Hs). exists nd. rewrite Hf by set_solver.
  split_and!; try done. apply IH; [|done]. intros y Hy. apply Hf. set_solver.
Qed.

Lemma last_or_cons x xs d : last_or (x :: xs) d = last_or xs (Some x).
Proof.
  unfold last_or. destruct xs as [|y ys]; [done|]. rewrite last_cons_cons.
  destruct (last (y :: ys)) eqn:E; [done|]. by apply last_None in E.
Qed.

Lemma last_or_snoc l x d : last_or (l ++ [x]) d = Some x.
Proof. unfold last_or. by rewrite last_snoc. Qed.

Lemma hd_or_app l1 l2 d : hd_or (l1 ++ l2) d = hd_or l1 (hd_or l2 d).
Proof. by destruct l1. Qed.

Lemma dseg_app h pp l1 l2 qn :
  dseg h pp (l1 ++ l2) qn ↔ dseg h pp l1 (hd_or l2 qn) ∧ dseg h (last_or l1 pp) l2 qn.
Proof.
  revert pp. induction l1 as [|x xs IH]; intros pp; simpl.
  - unfold last_or. simpl. tauto.
  - setoid_rewrite IH. rewrite last_or_cons, hd_or_app.
    split; [intros (nd & ? & ? & ? & ? & ?)|intros ((nd & ? & ? & ? & ?) & ?)]; eauto 10.
Qed.

Lemma dseg_cons h pp x xs qn :
  dseg h pp (x :: xs) qn ↔
  (∃ nd, h !! x = Some nd ∧ Node.prev nd = pp ∧ Node.next nd = hd_or xs qn) ∧
  dseg h (Some x) xs qn.
Proof.
  simpl. split; [intros (nd & ? & ? & ? & ?)|intros ((nd & ? & ? & ?) & ?)]; eauto 10.
Qed.

Lemma dseg_singleton h pp x qn :
  dseg h pp [x] qn ↔ ∃ nd, h !! x = Some nd ∧ Node.prev nd = pp ∧ Node.next nd = qn.
Proof. rewrite dseg_cons. simpl. tauto. Qed.

Lemma dseg_snoc h pp l y qn :
  dseg h pp (l ++ [y]) qn ↔
  dseg h pp l (Some y) ∧
  ∃ nd, h !! y = Some nd ∧ Node.prev nd = last_or l pp ∧ Node.next nd = qn.
Proof. by rewrite dseg_app, dseg_singleton. Qed.

Lemma dseg_lookup h pp ls qn x :
  dseg h pp ls qn → x ∈ ls → is_Some (h !! x).
Proof.
  revert pp. induction ls as [|y ys IH]; intros pp; [set_solver|].
  intros (nd & Hy & _ & _ & Hs) [->|Hx]%elem_of_cons; eauto.
Qed.

Lemma list_snoc_cases {A} (l : list A) : l = [] ∨ ∃ l' x, l = l' ++ [x].
Proof. destruct l using rev_ind; eauto. Qed.

(** ** The frame of a list method *)


Lemma name_lookup_insert (h : gmap loc Node.t) n nd nd' x :
  h !! n = Some nd → Node.name nd' = Node.name nd →
  Node.name <$> <[n := nd']> h !! x = Node.name <$> h !! x.
Proof.
  intros Hn Hnm. destruct (decide (n = x)) as [->|].
  - rewrite lookup_insert_eq, Hn. simpl. by rewrite Hnm.
  - by rewrite lookup_insert_ne.
Qed.

Ltac solve_names :=
  store_simpl;
  repeat (etrans; [eapply name_lookup_insert; [solve_lookup | reflexivity] | ]);
  reflexivity.

Ltac solve_frame Hl :=
  unfold dll_frame; store_simpl; split_and!;
  [ reflexivity .. 
  | let o := fresh in let Ho := fresh in
    intros o Ho; rewrite ?lookup_insert_ne by done; reflexivity
  | rewrite ?lookup_insert_eq, ?Hl; reflexivity
  | let x := fresh in intros x; solve_names ].

Lemma dll_inv_ext s s' self ls :
  dll_inv s self ls →
  lists s' !! self = lists s !! self →
  (∀ x, x ∈ ls → nodes s' !! x = nodes s !! x) →
  dll_inv s' self ls.
Proof.
  intros (l & Hl & ? & ? & ? & ? & Hseg) Hls Hn. exists l.
  rewrite Hls. split_and!; try done. by eapply dseg_frame.
Qed.

(** A method of another list that touches none of [ls] keeps [self]. *)
Lemma dll_inv_frame other touched s s' self ls :
  dll_inv s self ls → dll_frame other s s' → nodes_kept touched s s' →
  other ≠ self → (∀ x, x ∈ ls → x ∉ touched) →
  dll_inv s' self ls.
Proof.
  intros Hinv (_&_&_&_&_&_&_&Hl&_&_) Hk Hne Hdisj.
  eapply dll_inv_ext; [done|by apply Hl|]. intros x Hx. apply Hk. auto.
Qed.

Lemma dll_inv_printed s self ls msgs :
  dll_inv s self ls → dll_inv (printed msgs s) self ls.
Proof. intros H. by eapply dll_inv_ext. Qed.

(** ** [capacity_reached] *)

Lemma wp_capacity_reached self l s Q :
  lists s !! self = Some l →
  Q (Ret (bool_decide (DLL.capacity l = Some (DLL.size l)))) s →
  wp (capacity_reached self) s Q.
Proof.
  intros Hl HQ. unfold capacity_reached. wp_unfold.
  wp_step. wp_step. destruct (DLL.capacity l) as [c|] eqn:Hc.
  - wp_step. wp_step. wp_step.
    replace (bool_decide (DLL.size l = c))
      with (bool_decide (Some c = Some (DLL.size l))); [done|].
    apply bool_decide_ext. split; congruence.
  - wp_step. by rewrite bool_decide_eq_false_2 in HQ.
Qed.

(** ** [push] *)

Lemma NoDup_mid {A} (l1 : list A) x l2 :
  NoDup (l1 ++ x :: l2) ↔
  NoDup l1 ∧ NoDup l2 ∧ x ∉ l1 ∧ x ∉ l2 ∧ (∀ y, y ∈ l1 → y ∉ l2).
Proof.
  rewrite NoDup_app, NoDup_cons. split.
  - intros (? & Hd & ? & ?). split_and!; try done.
    + intros Hx. apply (Hd x Hx). by left.
    + intros y Hy Hy2. apply (Hd y Hy). by right.
  - intros (? & ? & ? & ? & Hd). split_and!; try done.
    intros y Hy [->|Hy2]%elem_of_cons; [done|]. by apply (Hd y).
Qed.

Lemma NoDup_snoc {A} (l : list A) x : NoDup (l ++ [x]) ↔ NoDup l ∧ x ∉ l.
Proof.
  rewrite NoDup_mid. split; [naive_solver|]. intros [? ?].
  split_and!; try done; [apply NoDup_nil_2|set_solver..].
Qed.

Ltac len := rewrite ?length_app in *; simpl in *; lia.

Ltac frame_seg H :=
  eapply dseg_frame; [|exact H];
  let y := fresh "y" in let Hy := fresh "Hy" in
  intros y Hy; store_simpl; rewrite ?lookup_insert_ne; [done | set_solver ..].

Lemma push_full s self l n :
  lists s !! self = Some l → DLL.capacity l = Some (DLL.size l) →
  DoublyLinkedList.push self n s = (Ret false, printed [msg_capacity] s).
Proof.
  intros Hl Hc. apply wp_eq. unfold DoublyLinkedList.push.
  wp_step. eapply wp_capacity_reached; [done|].
  rewrite bool_decide_eq_true_2 by done. by wp_steps.
Qed.

Lemma push_ok s self ls l n :
  dll_inv s self ls → lists s !! self = Some l →
  DLL.capacity l ≠ Some (DLL.size l) →
  n ∉ ls → is_Some (nodes s !! n) →
  wp (DoublyLinkedList.push self n) s (λ o s',
    o = Ret true ∧ dll_inv s' self (ls ++ [n]) ∧ dll_frame self s s' ∧
    nodes_kept (n :: ls) s s').
Proof.
  intros (l0 & Hl & Hnd & Hh & Ht & Hsz & Hseg) Hl' Hcap Hn [nd Hnn].
  assert (l0 = l) by congruence. subst l0.
  unfold DoublyLinkedList.push. wp_unfold.
  wp_step. eapply wp_capacity_reached; [done|].
  rewrite bool_decide_eq_false_2 by done.
  do 6 wp_step.
  destruct (list_snoc_cases ls) as [->|(ls' & t & ->)].
  - simpl in *. rewrite Hh, Ht.
    rewrite !bool_decide_eq_true_2 by (done || lia). simpl.
    repeat wp_step.
    split_and!; [done| |solve_frame Hl|].
    + unfold dll_inv. eexists. split; [solve_lookup|]. store_simpl.
      split_and!; try done; [apply NoDup_singleton|simpl; lia|].
      simpl. eexists. split; [solve_lookup|]. done.
    + intros x Hx. store_simpl. rewrite !lookup_insert_ne; [done|set_solver..].
  - rewrite last_snoc in Ht. rewrite length_app in Hsz. simpl in Hsz.
    rewrite Ht. rewrite (bool_decide_eq_false_2 (Some t = None)) by done.
    rewrite andb_false_r.
    apply NoDup_snoc in Hnd as Hnd'. destruct Hnd' as (Hnd1 & Hnd2).
    apply dseg_snoc in Hseg as (Hseg1 & ndt & Hndt & Hpt & Hnt).
    assert (t ≠ n) by set_solver.
    repeat first [wp_step | rewrite Ht].
    split_and!; [done| |solve_frame Hl|].
    + unfold dll_inv. eexists. split; [solve_lookup|]. store_simpl. split_and!.
      * apply NoDup_snoc. split; [by apply NoDup_snoc|set_solver].
      * rewrite Hh. by destruct ls'.
      * by rewrite last_snoc.
      * len.
      * apply dseg_snoc. split.
        -- apply dseg_snoc. split; [frame_seg Hseg1|].
           eexists. split; [solve_lookup|]. done.
        -- eexists. split; [solve_lookup|]. simpl. by rewrite last_or_snoc.
    + intros x Hx. store_simpl. rewrite !lookup_insert_ne; [done|set_solver..].
Qed.

(** ** [remove] *)

Lemma remove_empty s self l node :
  lists s !! self = Some l → DLL.size l = 0 →
  DoublyLinkedList.remove self node s = (Ret None, s).
Proof.
  intros Hl Hsz. unfold DoublyLinkedList.remove, bind, get_size, getattr.
  rewrite Hl, Hsz. done.
Qed.

Lemma remove_ok s self l1 x l2 :
  dll_inv s self (l1 ++ x :: l2) →
  wp (DoublyLinkedList.remove self (Some x)) s (λ o s',
    o = Ret (Some x) ∧ dll_inv s' self (l1 ++ l2) ∧ dll_frame self s s' ∧
    nodes_kept (l1 ++ x :: l2) s s' ∧
    ∃ nd, nodes s' !! x = Some nd ∧ Node.next nd = None ∧ Node.prev nd = None).
Proof.
  intros (l & Hl & Hnd & Hh & Ht & Hsz & Hseg).
  apply NoDup_mid in Hnd as (Hnd1 & Hnd2 & Hx1 & Hx2 & Hd).
  apply dseg_app in Hseg as (Hseg1 & Hseg2). simpl in Hseg1.
  apply dseg_cons in Hseg2 as ((ndx & Hndx & Hpx & Hnx) & Hseg2).
  rewrite length_app in Hsz. simpl in Hsz.
  unfold DoublyLinkedList.remove. wp_unfold.
  do 2 wp_step. rewrite bool_decide_eq_false_2 by lia.
  do 2 wp_step.
  destruct (list_snoc_cases l1) as [->|(l1' & p & ->)];
    destruct l2 as [|q l2'].
  - (* the only node *)
    simpl in *. unfold last_or in Hpx; simpl in Hpx. rewrite ?Hpx, ?Hnx.
    repeat first [wp_step | rewrite Hnx | rewrite Hpx].
    split_and!; [done| |solve_frame Hl| |].
    + unfold dll_inv. eexists. split; [solve_lookup|]. store_simpl.
      split_and!; try done. len.
    + intros y Hy. store_simpl. rewrite !lookup_insert_ne; [done|set_solver..].
    + eexists. split; [solve_lookup|]. done.
  - (* the first node *)
    simpl in *. unfold last_or in Hpx; simpl in Hpx. rewrite ?Hpx, ?Hnx.
    apply dseg_cons in Hseg2 as Hq. destruct Hq as ((ndq & Hndq & Hpq & Hnq) & Hseg3).
    assert (x ≠ q) by set_solver.
    apply NoDup_cons in Hnd2 as (Hq2 & Hnd2).
    repeat first [wp_step | rewrite Hnx | rewrite Hpx].
    split_and!; [done| |solve_frame Hl| |].
    + unfold dll_inv. eexists. split; [solve_lookup|]. store_simpl.
      split_and!.
      * by apply NoDup_cons.
      * done.
      * exact Ht.
      * len.
      * apply dseg_cons. split; [|frame_seg Hseg3].
        eexists. split; [solve_lookup|]. done.
    + intros y Hy. store_simpl. rewrite !lookup_insert_ne; [done|set_solver..].
    + eexists. split; [solve_lookup|]. done.
  - (* the last node *)
    rewrite last_or_snoc in Hpx. simpl in Hnx. rewrite ?Hpx, ?Hnx.
    apply dseg_snoc in Hseg1 as (Hseg0 & ndp & Hndp & Hpp & Hnp).
    assert (p ≠ x) by set_solver.
    apply NoDup_snoc in Hnd1 as (Hnd1 & Hp1).
    repeat first [wp_step | rewrite Hnx | rewrite Hpx].
    split_and!; [done| |solve_frame Hl| |].
    + unfold dll_inv. eexists. split; [solve_lookup|]. store_simpl.
      rewrite app_nil_r. split_and!; try done.
      * by apply NoDup_snoc.
      * rewrite Hh. by destruct l1'.
      * by rewrite last_snoc.
      * len.
      * apply dseg_snoc. split; [frame_seg Hseg0|].
        eexists. split; [solve_lookup|]. done.
    + intros y Hy. store_simpl. rewrite !lookup_insert_ne; [done|set_solver..].
    + eexists. split; [solve_lookup|]. done.
  - (* a node in the middle *)
    rewrite last_or_snoc in Hpx. simpl in Hnx. rewrite ?Hpx, ?Hnx.
    apply dseg_snoc in Hseg1 as (Hseg0 & ndp & Hndp & Hpp & Hnp).
    apply dseg_cons in Hseg2 as Hq. destruct Hq as ((ndq & Hndq & Hpq & Hnq) & Hseg3).
    assert (p ≠ x) by set_solver.
    assert (x ≠ q) by set_solver.
    assert (p ≠ q) by set_solver.
    apply NoDup_snoc in Hnd1 as (Hnd1 & Hp1).
    apply NoDup_cons in Hnd2 as (Hq2 & Hnd2).
    repeat first [wp_step | rewrite Hnx | rewrite Hpx].
    split_and!; [done| |solve_frame Hl| |].
    + unfold dll_inv. eexists. split; [solve_lookup|]. store_simpl.
      split_and!.
      * apply NoDup_mid. split_and!; try done; [by apply NoDup_snoc|set_solver..].
      * rewrite Hh. by destruct l1'.
      * rewrite Ht. rewrite !last_app. simpl. done.
      * len.
      * apply dseg_app. simpl. rewrite last_or_snoc. split.
        -- apply dseg_snoc. split; [frame_seg Hseg0|].
           eexists. split; [solve_lookup|]. done.
        -- apply dseg_cons. split; [|frame_seg Hseg3].
           eexists. split; [solve_lookup|]. done.
    + intros y Hy. store_simpl. rewrite !lookup_insert_ne; [done|set_solver..].
    + eexists. split; [solve_lookup|]. done.
Qed.

Lemma last_app_cons {A} (l1 : list A) x l2 : last (l1 ++ x :: l2) = last (x :: l2).
Proof.
  rewrite last_app. destruct (last (x :: l2)) eqn:E; [done|].
  by apply last_None in E.
Qed.

(** ** [pop], [pop_front] *)

Lemma pop_empty s self l :
  lists s !! self = Some l → DLL.size l = 0 →
  DoublyLinkedList.pop self s = (Ret None, s).
Proof.
  intros Hl Hsz. apply wp_eq. unfold DoublyLinkedList.pop. by wp_steps.
Qed.

Lemma pop_ok s self ls t :
  dll_inv s self (ls ++ [t]) →
  wp (DoublyLinkedList.pop self) s (λ o s',
    o = Ret (Some t) ∧ dll_inv s' self ls ∧ dll_frame self s s' ∧
    nodes_kept (ls ++ [t]) s s' ∧
    ∃ nd, nodes s' !! t = Some nd ∧ Node.next nd = None ∧ Node.prev nd = None).
Proof.
  intros Hinv. pose proof Hinv as (l & Hl & Hnd & Hh & Ht & Hsz & Hseg).
  rewrite last_snoc in Ht. unfold DoublyLinkedList.pop. wp_unfold.
  do 2 wp_step. rewrite bool_decide_eq_false_2 by len.
  do 2 wp_step. rewrite Ht.
  eapply wp_mono; [by apply remove_ok|]. cbv beta.
  intros o s'. by rewrite app_nil_r.
Qed.

Lemma pop_front_empty s self l :
  lists s !! self = Some l → DLL.size l = 0 →
  DoublyLinkedList.pop_front self s = (Ret None, s).
Proof.
  intros Hl Hsz. apply wp_eq. unfold DoublyLinkedList.pop_front. by wp_steps.
Qed.

Lemma pop_front_ok s self x ls :
  dll_inv s self (x :: ls) →
  wp (DoublyLinkedList.pop_front self) s (λ o s',
    o = Ret (Some x) ∧ dll_inv s' self ls ∧ dll_frame self s s' ∧
    nodes_kept (x :: ls) s s' ∧
    ∃ nd, nodes s' !! x = Some nd ∧ Node.next nd = None ∧ Node.prev nd = None).
Proof.
  intros Hinv. pose proof Hinv as (l & Hl & Hnd & Hh & Ht & Hsz & Hseg).
  simpl in Hh. unfold DoublyLinkedList.pop_front. wp_unfold.
  do 2 wp_step. rewrite bool_decide_eq_false_2 by len.
  do 2 wp_step. rewrite Hh.
  eapply wp_mono; [by apply (remove_ok s self [] x ls)|]. done.
Qed.

(** ** [push_front] *)

Lemma push_front_full s self l n :
  lists s !! self = Some l → DLL.capacity l = Some (DLL.size l) →
  DoublyLinkedList.push_front self n s = (Ret false, printed [msg_capacity] s).
Proof.
  intros Hl Hc. apply wp_eq. unfold DoublyLinkedList.push_front.
  wp_step. eapply wp_capacity_reached; [done|].
  rewrite bool_decide_eq_true_2 by done. by wp_steps.
Qed.

Lemma push_front_ok s self ls l n :
  dll_inv s self ls → lists s !! self = Some l →
  DLL.capacity l ≠ Some (DLL.size l) →
  n ∉ ls → is_Some (nodes s !! n) →
  wp (DoublyLinkedList.push_front self n) s (λ o s',
    o = Ret true ∧ dll_inv s' self (n :: ls) ∧ dll_frame self s s' ∧
    nodes_kept (n :: ls) s s').
Proof.
  intros Hinv Hl' Hcap Hn Hnn.
  pose proof Hinv as (l0 & Hl & Hnd & Hh & Ht & Hsz & Hseg).
  assert (l0 = l) by congruence. subst l0.
  unfold DoublyLinkedList.push_front. wp_unfold.
  wp_step. eapply wp_capacity_reached; [done|].
  rewrite bool_decide_eq_false_2 by done.
  do 6 wp_step.
  destruct ls as [|x ls'].
  - simpl in *. rewrite Hh, Ht.
    rewrite !bool_decide_eq_true_2 by (done || lia). simpl.
    eapply wp_mono; [by apply (push_ok s self [] l n)|]. done.
  - simpl in Hh. rewrite Hh.
    rewrite (bool_decide_eq_false_2 (Some x = None)) by done.
    rewrite andb_false_r. simpl.
    destruct Hnn as [nd Hnn].
    apply NoDup_cons in Hnd as Hnd'. destruct Hnd' as (Hx & Hnd').
    apply dseg_cons in Hseg as ((ndx & Hndx & Hpx & Hnx) & Hseg1).
    assert (x ≠ n) by set_solver.
    repeat first [wp_step | rewrite Hh].
    split_and!; [done| |solve_frame Hl|].
    + unfold dll_inv. eexists. split; [solve_lookup|]. store_simpl. split_and!.
      * apply NoDup_cons. split; [set_solver|done].
      * done.
      * rewrite Ht. by rewrite last_cons_cons.
      * len.
      * apply dseg_cons. split; [eexists; split; [solve_lookup|done]|].
        apply dseg_cons. split; [eexists; split; [solve_lookup|done]|].
        frame_seg Hseg1.
    + intros y Hy. store_simpl. rewrite !lookup_insert_ne; [done|set_solver..].
Qed.

(** ** [add_after], [add_before] at a node of the list *)

Lemma add_full s self l f :
  lists s !! self = Some l → DLL.capacity l = Some (DLL.size l) →
  (let* full := capacity_reached self in
   if full then print msg_capacity else f) s = (Ret tt, printed [msg_capacity] s).
Proof.
  intros Hl Hc. apply wp_eq.
  wp_step. eapply wp_capacity_reached; [done|].
  rewrite bool_decide_eq_true_2 by done. by wp_steps.
Qed.

Lemma add_after_ok s self l1 a l2 l n :
  dll_inv s self (l1 ++ a :: l2) → lists s !! self = Some l →
  DLL.capacity l ≠ Some (DLL.size l) →
  n ∉ l1 ++ a :: l2 → is_Some (nodes s !! n) →
  wp (DoublyLinkedList.add_after self (ByNode (Some a)) n) s (λ o s',
    o = Ret tt ∧ dll_inv s' self (l1 ++ a :: n :: l2) ∧ dll_frame self s s' ∧
    nodes_kept (n :: l1 ++ a :: l2) s s').
Proof.
  intros Hinv Hl' Hcap Hn [nd Hnn].
  pose proof Hinv as (l0 & Hl & Hnd & Hh & Ht & Hsz & Hseg).
  assert (l0 = l) by congruence. subst l0.
  apply NoDup_mid in Hnd as (Hnd1 & Hnd2 & Ha1 & Ha2 & Hd).
  apply dseg_app in Hseg as (Hseg1 & Hseg2). simpl in Hseg1.
  apply dseg_cons in Hseg2 as ((nda & Hnda & Hpa & Hna) & Hseg2).
  assert (a ≠ n) by set_solver.
  unfold DoublyLinkedList.add_after, DoublyLinkedList.resolve. wp_unfold.
  wp_step. eapply wp_capacity_reached; [done|].
  rewrite bool_decide_eq_false_2 by done.
  do 4 wp_step.
  rewrite (bool_decide_eq_false_2 (DLL.size l = 0)) by len.
  rewrite (bool_decide_eq_false_2 (Some a = None)) by done. simpl.
  do 2 wp_step.
  destruct l2 as [|q l2'].
  - simpl in Hna. rewrite Hna.
    repeat first [wp_step | rewrite Hna].
    split_and!; [done| |solve_frame Hl|].
    + unfold dll_inv. eexists. split; [solve_lookup|]. store_simpl. split_and!.
      * apply NoDup_mid. split_and!; try done; [apply NoDup_singleton|set_solver..].
      * rewrite Hh. by destruct l1.
      * rewrite last_app. simpl. done.
      * len.
      * apply dseg_app. simpl. split; [frame_seg Hseg1|].
        eexists. split; [solve_lookup|]. split_and!; try done.
        eexists. split; [solve_lookup|]. done.
    + intros y Hy. store_simpl. rewrite !lookup_insert_ne; [done|set_solver..].
  - simpl in Hna. rewrite Hna.
    apply dseg_cons in Hseg2 as Hq. destruct Hq as ((ndq & Hndq & Hpq & Hnq) & Hseg3).
    apply NoDup_cons in Hnd2 as Hnd2'. destruct Hnd2' as (Hq2 & Hnd2').
    assert (a ≠ q) by set_solver.
    assert (q ≠ n) by set_solver.
    repeat first [wp_step | rewrite Hna].
    split_and!; [done| |solve_frame Hl|].
    + unfold dll_inv. eexists. split; [solve_lookup|]. store_simpl. split_and!.
      * apply NoDup_mid. split_and!; try done; [|set_solver..].
        apply NoDup_cons. split; [set_solver|done].
      * rewrite Hh. by destruct l1.
      * rewrite Ht. rewrite !last_app_cons. by rewrite !last_cons_cons.
      * len.
      * apply dseg_app. simpl. split; [frame_seg Hseg1|].
        eexists. split; [solve_lookup|]. split_and!; try done.
        eexists. split; [solve_lookup|]. split_and!; try done.
        eexists. split; [solve_lookup|]. split_and!; try done.
        frame_seg Hseg3.
    + intros y Hy. store_simpl. rewrite !lookup_insert_ne; [done|set_solver..].
Qed.

Lemma add_before_ok s self l1 a l2 l n :
  dll_inv s self (l1 ++ a :: l2) → lists s !! self = Some l →
  DLL.capacity l ≠ Some (DLL.size l) →
  n ∉ l1 ++ a :: l2 → is_Some (nodes s !! n) →
  wp (DoublyLinkedList.add_before self (ByNode (Some a)) n) s (λ o s',
    o = Ret tt ∧ dll_inv s' self (l1 ++ n :: a :: l2) ∧ dll_frame self s s' ∧
    nodes_kept (n :: l1 ++ a :: l2) s s').
Proof.
  intros Hinv Hl' Hcap Hn [nd Hnn].
  pose proof Hinv as (l0 & Hl & Hnd & Hh & Ht & Hsz & Hseg).
  assert (l0 = l) by congruence. subst l0.
  apply NoDup_mid in Hnd as (Hnd1 & Hnd2 & Ha1 & Ha2 & Hd).
  apply dseg_app in Hseg as (Hseg1 & Hseg2). simpl in Hseg1.
  apply dseg_cons in Hseg2 as ((nda & Hnda & Hpa & Hna) & Hseg2).
  assert (a ≠ n) by set_solver.
  unfold DoublyLinkedList.add_before, DoublyLinkedList.resolve. wp_unfold.
  wp_step. eapply wp_capacity_reached; [done|].
  rewrite bool_decide_eq_false_2 by done.
  do 4 wp_step.
  rewrite (bool_decide_eq_false_2 (DLL.size l = 0)) by len.
  rewrite (bool_decide_eq_false_2 (Some a = None)) by done. simpl.
  do 2 wp_step.
  destruct (list_snoc_cases l1) as [->|(l1' & p & ->)].
  - unfold last_or in Hpa. simpl in Hpa. rewrite Hpa.
    repeat first [wp_step | rewrite Hpa].
    split_and!; [done| |solve_frame Hl|].
    + unfold dll_inv. eexists. split; [solve_lookup|]. store_simpl. simpl. split_and!.
      * apply NoDup_cons. split; [set_solver|]. apply NoDup_cons. done.
      * done.
      * rewrite Ht. simpl. done.
      * len.
      * eexists. split; [solve_lookup|]. split_and!; try done.
        eexists. split; [solve_lookup|]. split_and!; try done.
        frame_seg Hseg2.
    + intros y Hy. store_simpl. rewrite !lookup_insert_ne; [done|set_solver..].
  - rewrite last_or_snoc in Hpa. rewrite Hpa.
    apply dseg_snoc in Hseg1 as (Hseg0 & ndp & Hndp & Hpp & Hnp).
    apply NoDup_snoc in Hnd1 as Hnd1'. destruct Hnd1' as (Hnd1' & Hp1).
    assert (p ≠ a) by set_solver.
    assert (p ≠ n) by set_solver.
    repeat first [wp_step | rewrite Hpa].
    split_and!; [done| |solve_frame Hl|].
    + unfold dll_inv. eexists. split; [solve_lookup|]. store_simpl. split_and!.
      * apply NoDup_mid. split_and!; try done; [|set_solver..].
        apply NoDup_cons. split; [set_solver|done].
      * rewrite Hh. by destruct l1'.
      * rewrite Ht. rewrite !last_app_cons. by rewrite !last_cons_cons.
      * len.
      * apply dseg_app. simpl. rewrite last_or_snoc. split.
        -- apply dseg_snoc. split; [frame_seg Hseg0|].
           eexists. split; [solve_lookup|]. done.
        -- eexists. split; [solve_lookup|]. split_and!; try done.
           eexists. split; [solve_lookup|]. split_and!; try done.
           frame_seg Hseg2.
    + intros y Hy. store_simpl. rewrite !lookup_insert_ne; [done|set_solver..].
Qed.

(** ** Walks *)

Lemma dseg_length h pp ls qn :
  NoDup ls → dseg h pp ls qn → (length ls ≤ base.size h)%nat.
Proof.
  intros Hnd Hseg.
  rewrite <- (size_list_to_set (C := gset loc) ls) by done.
  rewrite <- size_dom. apply subseteq_size.
  intros x Hx%elem_of_list_to_set. apply elem_of_dom. by eapply dseg_lookup.
Qed.

Lemma iter_loop_ok s pp ls fuel :
  dseg (nodes s) pp ls None → (length ls < fuel)%nat →
  DoublyLinkedList.iter_loop fuel (hd_or ls None) s = (Ret ls, s).
Proof.
  revert pp fuel. induction ls as [|x xs IH]; intros pp fuel Hseg Hf.
  - by destruct fuel.
  - destruct fuel as [|fuel]; [simpl in Hf; lia|].
    apply dseg_cons in Hseg as ((nd & Hx & Hp & Hn) & Hseg).
    apply wp_eq. cbn [DoublyLinkedList.iter_loop hd_or]. wp_unfold.
    do 2 wp_step. rewrite Hn. wp_step.
    eapply wp_returns; [eapply IH; [done|simpl in Hf; lia]|].
    by wp_step.
Qed.

Lemma contents_ok s self ls : dll_inv s self ls → contents s self = ls.
Proof.
  intros (l & Hl & Hnd & Hh & Ht & Hsz & Hseg).
  unfold contents, DoublyLinkedList.__iter__, bind, get_head, getattr, gets.
  rewrite Hl, Hh.
  replace (head ls) with (hd_or ls None) by (by destruct ls).
  erewrite iter_loop_ok; [done..|].
  apply dseg_length in Hseg; [lia|done].
Qed.

Lemma walk_next_ok s pp ls fuel :
  dseg (nodes s) pp ls None → (length ls < fuel)%nat →
  DoublyLinkedList.walk_names fuel get_next (hd_or ls None) s
  = (Ret (node_name s <$> ls), s).
Proof.
  revert pp fuel. induction ls as [|x xs IH]; intros pp fuel Hseg Hf.
  - by destruct fuel.
  - destruct fuel as [|fuel]; [simpl in Hf; lia|].
    apply dseg_cons in Hseg as ((nd & Hx & Hp & Hn) & Hseg).
    apply wp_eq. cbn [DoublyLinkedList.walk_names hd_or]. wp_unfold.
    do 4 wp_step. rewrite Hn. wp_step.
    eapply wp_returns; [eapply IH; [done|simpl in Hf; lia]|].
    wp_step. rewrite fmap_cons. unfold node_name. by rewrite Hx.
Qed.

Lemma walk_prev_ok s ls qn fuel :
  dseg (nodes s) None ls qn → (length ls < fuel)%nat →
  DoublyLinkedList.walk_names fuel get_prev (last ls) s
  = (Ret (reverse (node_name s <$> ls)), s).
Proof.
  revert qn fuel. induction ls as [|t ls IH] using rev_ind; intros qn fuel Hseg Hf.
  - by destruct fuel.
  - destruct fuel as [|fuel]; [rewrite length_app in Hf; simpl in Hf; lia|].
    apply dseg_snoc in Hseg as (Hseg & nd & Ht & Hp & Hn).
    rewrite last_snoc. apply wp_eq. cbn [DoublyLinkedList.walk_names]. wp_unfold.
    do 4 wp_step. rewrite Hp.
    replace (last_or ls None) with (last ls) by (unfold last_or; by destruct (last ls)).
    wp_step.
    eapply wp_returns;
      [eapply IH; [done|rewrite length_app in Hf; simpl in Hf; lia]|].
    wp_step. rewrite fmap_app, reverse_app. cbn [fmap list_fmap].
    unfold node_name. by rewrite Ht.
Qed.

(** The invariant yields the integrity the walks observe. *)
Lemma dll_inv_integrity s self ls : dll_inv s self ls → integrity s self.
Proof.
  intros (l & Hl & Hnd & Hh & Ht & Hsz & Hseg).
  pose proof (dseg_length _ _ _ _ Hnd Hseg) as Hlen.
  exists l, (node_name s <$> ls). split_and!; try done.
  - unfold DoublyLinkedList.nodesLTR, bind, get_head, getattr, gets.
    rewrite Hl, Hh.
    replace (head ls) with (hd_or ls None) by (by destruct ls).
    erewrite walk_next_ok; [done..|lia].
  - unfold DoublyLinkedList.nodesRTL, bind, get_tail, getattr, gets.
    rewrite Hl, Ht. erewrite walk_prev_ok; [done..|lia].
  - by rewrite length_fmap.
  - intros x Hx. rewrite Hh in Hx. destruct ls as [|y ys]; [done|].
    injection Hx as ->. apply dseg_cons in Hseg as ((nd & ? & ? & ?) & _). eauto.
  - intros x Hx. rewrite Ht in Hx.
    destruct (list_snoc_cases ls) as [->|(ls' & y & ->)]; [done|].
    rewrite last_snoc in Hx. injection Hx as ->.
    apply dseg_snoc in Hseg as (_ & nd & ? & ? & ?). eauto.
Qed.

(** ** [at_index] and [find] *)

Lemma at_index_loop_ok s pp ls fuel i index :
  dseg (nodes s) pp ls None →
  0 ≤ index - i < Z.of_nat (length ls) → (Z.to_nat (index - i) ≤ fuel)%nat →
  DoublyLinkedList.at_index_loop fuel (hd_or ls None) i index s
  = (Ret (ls !! Z.to_nat (index - i)), s).
Proof.
  revert pp fuel i. induction ls as [|x xs IH]; intros pp fuel i Hseg Hi Hf.
  - simpl in Hi. lia.
  - apply dseg_cons in Hseg as ((nd & Hx & Hp & Hn) & Hseg).
    destruct (decide (i = index)) as [->|Hne].
    + destruct fuel; cbn [DoublyLinkedList.at_index_loop hd_or];
        rewrite bool_decide_eq_true_2 by done;
        by replace (index - index) with 0 by lia.
    + destruct fuel as [|fuel]; [lia|].
      apply wp_eq. cbn [DoublyLinkedList.at_index_loop hd_or].
      rewrite bool_decide_eq_false_2 by done. wp_unfold.
      do 2 wp_step. rewrite Hn.
      eapply wp_returns; [eapply (IH _ _ (i + 1)); [done|simpl in Hi; lia|lia]|].
      replace (Z.to_nat (index - i)) with (S (Z.to_nat (index - (i + 1)))) by lia.
      done.
Qed.

Lemma at_index_ok s self ls index :
  dll_inv s self ls → 0 ≤ index < Z.of_nat (length ls) →
  DoublyLinkedList.at_index self index s = (Ret (ls !! Z.to_nat index), s).
Proof.
  intros (l & Hl & Hnd & Hh & Ht & Hsz & Hseg) Hi.
  unfold DoublyLinkedList.at_index, bind, get_size, get_head, getattr.
  rewrite Hl. rewrite !bool_decide_eq_false_2 by lia. simpl. rewrite Hl, Hh.
  replace (head ls) with (hd_or ls None) by (by destruct ls).
  erewrite at_index_loop_ok; [|done|lia|lia].
  by replace (index - 0) with index by lia.
Qed.

Lemma find_loop_ok s pp ls fuel name :
  dseg (nodes s) pp ls None → (length ls < fuel)%nat →
  ∃ r, DoublyLinkedList.find_loop fuel (hd_or ls None) name s = (Ret r, s) ∧
       (r = None ∨ ∃ x, r = Some x ∧ x ∈ ls).
Proof.
  revert pp fuel. induction ls as [|x xs IH]; intros pp fuel Hseg Hf.
  - exists None. by destruct fuel; eauto.
  - destruct fuel as [|fuel]; [simpl in Hf; lia|].
    apply dseg_cons in Hseg as ((nd & Hx & Hp & Hn) & Hseg).
    destruct (IH (Some x) fuel Hseg) as (r & Hr & Hin); [simpl in Hf; lia|].
    destruct (decide (Node.name nd = name)) as [Hnm|Hnm].
    + exists (Some x). split; [|right; exists x; split; [done|by left]].
      apply wp_eq. cbn [DoublyLinkedList.find_loop hd_or]. wp_unfold.
      by repeat wp_step.
    + exists r. split.
      * apply wp_eq. cbn [DoublyLinkedList.find_loop hd_or]. wp_unfold.
        repeat wp_step. rewrite Hn. by eapply wp_returns.
      * destruct Hin as [->|(y & -> & Hy)]; [by left|].
        right. exists y. split; [done|]. by right.
Qed.

Lemma find_ok s self ls name :
  dll_inv s self ls →
  ∃ r, DoublyLinkedList.find self name s = (Ret r, s) ∧
       (r = None ∨ ∃ x, r = Some x ∧ x ∈ ls).
Proof.
  intros (l & Hl & Hnd & Hh & Ht & Hsz & Hseg).
  unfold DoublyLinkedList.find, bind, get_head, getattr, gets.
  rewrite Hl, Hh.
  replace (head ls) with (hd_or ls None) by (by destruct ls).
  eapply find_loop_ok; [done|].
  apply dseg_length in Hseg; [lia|done].
Qed.

(** ** [add_at_index] *)

Lemma add_at_index_ok s self ls l i n :
  dll_inv s self ls → lists s !! self = Some l →
  DLL.capacity l ≠ Some (DLL.size l) →
  n ∉ ls → is_Some (nodes s !! n) →
  0 ≤ i ≤ Z.of_nat (length ls) →
  wp (DoublyLinkedList.add_at_index self i n) s (λ o s',
    o = Ret tt ∧
    dll_inv s' self (take (Z.to_nat i) ls ++ n :: drop (Z.to_nat i) ls) ∧
    dll_frame self s s' ∧ nodes_kept (n :: ls) s s').
Proof.
  intros Hinv Hl Hcap Hn Hnn Hi.
  pose proof Hinv as (l0 & Hl0 & Hnd & Hh & Ht & Hsz & Hseg).
  assert (l0 = l) by congruence. subst l0.
  unfold DoublyLinkedList.add_at_index. wp_unfold.
  wp_step. eapply wp_capacity_reached; [done|].
  rewrite bool_decide_eq_false_2 by done.
  do 2 wp_step.
  rewrite !bool_decide_eq_false_2 by lia. cbn [orb].
  destruct (decide (i = Z.of_nat (length ls))) as [->|Hne].
  - rewrite (bool_decide_eq_true_2 (Z.of_nat (length ls) = DLL.size l)) by lia.
    rewrite orb_true_r.
    wp_apply push_ok; [eassumption..|]. intros o s' (-> & Hinv' & ? & ?).
    wp_step. rewrite Nat2Z.id, take_ge, drop_ge by lia. done.
  - rewrite (bool_decide_eq_false_2 (i = DLL.size l)) by lia.
    rewrite (bool_decide_eq_false_2 (DLL.size l = 0)) by lia. cbn [orb].
    destruct (decide (i = 0)) as [->|Hne0].
    + rewrite bool_decide_eq_true_2 by done.
      wp_apply push_front_ok; [eassumption..|]. intros o s' (-> & Hinv' & ? & ?).
      wp_step. done.
    + rewrite bool_decide_eq_false_2 by done.
      assert (Z.to_nat i < length ls)%nat as Hlt by lia.
      apply lookup_lt_is_Some in Hlt as [a Ha].
      wp_step. eapply wp_returns; [by apply (at_index_ok s self ls); [done|lia]|].
      cbv beta match. rewrite Ha.
      pose proof (take_drop_middle _ _ _ Ha) as Hmid.
      rewrite <- Hmid in Hinv, Hn.
      eapply wp_mono; [by eapply add_before_ok|]. cbv beta.
      intros o s' (-> & Hinv' & ? & Hk). split_and!; try done.
      * rewrite <- Hmid at 2. rewrite drop_app_length'; [done|].
        rewrite length_take. lia.
      * by rewrite Hmid in Hk.
Qed.

Lemma add_at_index_invalid s self l i n :
  lists s !! self = Some l → DLL.capacity l ≠ Some (DLL.size l) →
  i < 0 ∨ i > DLL.size l →
  DoublyLinkedList.add_at_index self i n s = (Raise (Exception "Invalid index"), s).
Proof.
  intros Hl Hcap Hi. apply wp_eq. unfold DoublyLinkedList.add_at_index. wp_unfold.
  wp_step. eapply wp_capacity_reached; [done|].
  rewrite bool_decide_eq_false_2 by done.
  do 2 wp_step.
  destruct Hi.
  - rewrite (bool_decide_eq_true_2 (i < 0)) by done. cbn [orb]. by wp_step.
  - rewrite (bool_decide_eq_true_2 (i > DLL.size l)) by done.
    rewrite orb_true_r. by wp_step.
Qed.

(** ** Anchors given by name *)

Lemma capacity_reached_state self s : (capacity_reached self s).2 = s.
Proof.
  unfold capacity_reached, bind, get_capacity, get_size, getattr.
  destruct (lists s !! self) as [l|] eqn:Hl; [|done]. cbv beta match.
  destruct (DLL.capacity l); [|done]. by rewrite Hl.
Qed.

Lemma resolve_ok s self ls a :
  dll_inv s self ls → anchor_ok s self a →
  (∃ e, DoublyLinkedList.resolve self a s = (Raise e, s)) ∨
  DoublyLinkedList.resolve self a s = (Ret None, s) ∨
  (∃ x, x ∈ ls ∧ DoublyLinkedList.resolve self a s = (Ret (Some x), s)).
Proof.
  intros Hinv Ha. destruct a as [[x|]|name]; simpl.
  - right. right. exists x. split; [|done].
    simpl in Ha. by rewrite (contents_ok _ _ _ Hinv) in Ha.
  - right. by left.
  - destruct (find_ok s self ls name Hinv) as (r & Hr & Hin).
    unfold bind. rewrite Hr. destruct Hin as [->|(x & -> & Hx)].
    + left. rewrite bool_decide_eq_true_2 by done. by eexists.
    + right. right. exists x. split; [done|].
      by rewrite bool_decide_eq_false_2 by done.
Qed.

Lemma bind_resolved {A} self a r s (k : option loc → M A) :
  DoublyLinkedList.resolve self a s = (Ret r, s) →
  bind (DoublyLinkedList.resolve self a) k s
  = bind (DoublyLinkedList.resolve self (ByNode r)) k s.
Proof. intros H. unfold bind. by rewrite H. Qed.

Lemma bind_cong {A B} (m : M A) (k k' : A → M B) s :
  (∀ a, k a (m s).2 = k' a (m s).2) → bind m k s = bind m k' s.
Proof. intros H. unfold bind. destruct (m s) as [[a| |] s']; simpl in *; auto. Qed.

Lemma add_after_resolved self a r n s :
  DoublyLinkedList.resolve self a s = (Ret r, s) →
  DoublyLinkedList.add_after self a n s
  = DoublyLinkedList.add_after self (ByNode r) n s.
Proof.
  intros H. unfold DoublyLinkedList.add_after. apply bind_cong. intros full.
  rewrite capacity_reached_state. destruct full; [done|]. by apply bind_resolved.
Qed.

Lemma add_before_resolved self a r n s :
  DoublyLinkedList.resolve self a s = (Ret r, s) →
  DoublyLinkedList.add_before self a n s
  = DoublyLinkedList.add_before self (ByNode r) n s.
Proof.
  intros H. unfold DoublyLinkedList.add_before. apply bind_cong. intros full.
  rewrite capacity_reached_state. destruct full; [done|]. by apply bind_resolved.
Qed.

Lemma add_after_unresolved self a e n s l :
  lists s !! self = Some l → DLL.capacity l ≠ Some (DLL.size l) →
  DoublyLinkedList.resolve self a s = (Raise e, s) →
  DoublyLinkedList.add_after self a n s = (Raise e, s).
Proof.
  intros Hl Hc H. apply wp_eq. unfold DoublyLinkedList.add_after.
  wp_step. eapply wp_capacity_reached; [done|].
  rewrite bool_decide_eq_false_2 by done.
  unfold wp, bind. by rewrite H.
Qed.

Lemma add_before_unresolved self a e n s l :
  lists s !! self = Some l → DLL.capacity l ≠ Some (DLL.size l) →
  DoublyLinkedList.resolve self a s = (Raise e, s) →
  DoublyLinkedList.add_before self a n s = (Raise e, s).
Proof.
  intros Hl Hc H. apply wp_eq. unfold DoublyLinkedList.add_before.
  wp_step. eapply wp_capacity_reached; [done|].
  rewrite bool_decide_eq_false_2 by done.
  unfold wp, bind. by rewrite H.
Qed.

Lemma add_after_none self n s l :
  lists s !! self = Some l → DLL.capacity l ≠ Some (DLL.size l) →
  DoublyLinkedList.add_after self (ByNode None) n s
  = (Raise (Exception DoublyLinkedList.msg_empty), s).
Proof.
  intros Hl Hc. apply wp_eq. unfold DoublyLinkedList.add_after, DoublyLinkedList.resolve.
  wp_step. eapply wp_capacity_reached; [done|].
  rewrite bool_decide_eq_false_2 by done. wp_unfold. do 4 wp_step.
  rewrite (bool_decide_eq_true_2 (None = None)) by done. rewrite orb_true_r.
  by wp_step.
Qed.

Lemma add_before_none self n s l :
  lists s !! self = Some l → DLL.capacity l ≠ Some (DLL.size l) →
  DoublyLinkedList.add_before self (ByNode None) n s
  = (Raise (Exception DoublyLinkedList.msg_empty), s).
Proof.
  intros Hl Hc. apply wp_eq. unfold DoublyLinkedList.add_before, DoublyLinkedList.resolve.
  wp_step. eapply wp_capacity_reached; [done|].
  rewrite bool_decide_eq_false_2 by done. wp_unfold. do 4 wp_step.
  rewrite (bool_decide_eq_true_2 (None = None)) by done. rewrite orb_true_r.
  by wp_step.
Qed.

(** ** Every operation keeps the list well formed *)

Lemma snd_bind_ret {A} (m : M A) s : (bind m (λ _, ret tt) s).2 = (m s).2.
Proof. unfold bind. by destruct (m s) as [[| |] ?]. Qed.

Lemma exec_inv s self ls o :
  dll_inv s self ls → op_ok true s self o → ∃ ls', dll_inv (exec self o s) self ls'.
Proof.
  intros Hinv Hok. pose proof Hinv as (l & Hl & _).
  pose proof (contents_ok _ _ _ Hinv) as Hc.
  unfold exec. destruct o as [n|n| | |n|a n|a n|i n]; cbn [op_ok] in Hok;
    rewrite ?Hc in Hok; cbn [run_op]; rewrite ?snd_bind_ret.
  - (* push *)
    destruct Hok as [Hnode Hnew].
    destruct (decide (DLL.capacity l = Some (DLL.size l))) as [Hfull|Hfree].
    + rewrite (push_full _ _ _ _ Hl Hfull). eexists. by apply dll_inv_printed.
    + destruct (push_ok s self ls l n) as (_ & ? & _); eauto.
  - (* push_front *)
    destruct Hok as [Hnode Hnew].
    destruct (decide (DLL.capacity l = Some (DLL.size l))) as [Hfull|Hfree].
    + rewrite (push_front_full _ _ _ _ Hl Hfull). eexists. by apply dll_inv_printed.
    + destruct (push_front_ok s self ls l n) as (_ & ? & _); eauto.
  - (* pop *)
    destruct (list_snoc_cases ls) as [->|(ls' & t & ->)].
    + rewrite (pop_empty _ _ l); eauto. by destruct Hinv as (? & ? & ? & ? & ? & ? & ?);
        simplify_eq.
    + destruct (pop_ok s self ls' t) as (_ & ? & _); eauto.
  - (* pop_front *)
    destruct ls as [|x ls'].
    + rewrite (pop_front_empty _ _ l); eauto.
      by destruct Hinv as (? & ? & ? & ? & ? & ? & ?); simplify_eq.
    + destruct (pop_front_ok s self x ls') as (_ & ? & _); eauto.
  - (* remove *)
    apply list_elem_of_split in Hok as (l1 & l2 & ->).
    destruct (remove_ok s self l1 n l2) as (_ & ? & _); eauto.
  - (* add_after *)
    destruct Hok as [[Hnode Hnew] Ha].
    destruct (decide (DLL.capacity l = Some (DLL.size l))) as [Hfull|Hfree].
    { unfold DoublyLinkedList.add_after. rewrite (add_full _ _ _ _ Hl Hfull).
      eexists. by apply dll_inv_printed. }
    destruct (resolve_ok s self ls a Hinv) as [(e & Hr)|[Hr|(x & Hx & Hr)]];
      [done| | |].
    + rewrite (add_after_unresolved _ _ _ _ _ _ Hl Hfree Hr). eauto.
    + rewrite (add_after_resolved _ _ _ _ _ Hr).
      rewrite (add_after_none _ _ _ _ Hl Hfree). eauto.
    + rewrite (add_after_resolved _ _ _ _ _ Hr).
      apply list_elem_of_split in Hx as (l1 & l2 & ->).
      destruct (add_after_ok s self l1 x l2 l n) as (_ & ? & _); eauto.
  - (* add_before *)
    destruct Hok as [[Hnode Hnew] Ha].
    destruct (decide (DLL.capacity l = Some (DLL.size l))) as [Hfull|Hfree].
    { unfold DoublyLinkedList.add_before. rewrite (add_full _ _ _ _ Hl Hfull).
      eexists. by apply dll_inv_printed. }
    destruct (resolve_ok s self ls a Hinv) as [(e & Hr)|[Hr|(x & Hx & Hr)]];
      [done| | |].
    + rewrite (add_before_unresolved _ _ _ _ _ _ Hl Hfree Hr). eauto.
    + rewrite (add_before_resolved _ _ _ _ _ Hr).
      rewrite (add_before_none _ _ _ _ Hl Hfree). eauto.
    + rewrite (add_before_resolved _ _ _ _ _ Hr).
      apply list_elem_of_split in Hx as (l1 & l2 & ->).
      destruct (add_before_ok s self l1 x l2 l n) as (_ & ? & _); eauto.
  - (* add_at_index *)
    destruct Hok as [Hnode Hnew].
    destruct (decide (DLL.capacity l = Some (DLL.size l))) as [Hfull|Hfree].
    { unfold DoublyLinkedList.add_at_index. rewrite (add_full _ _ _ _ Hl Hfull).
      eexists. by apply dll_inv_printed. }
    assert (DLL.size l = Z.of_nat (length ls)) as Hsz
      by (by destruct Hinv as (? & ? & ? & ? & ? & ? & ?); simplify_eq).
    destruct (decide (0 ≤ i ≤ Z.of_nat (length ls))) as [Hi|Hi].
    + destruct (add_at_index_ok s self ls l i n) as (_ & ? & _); eauto.
    + rewrite (add_at_index_invalid _ _ l); eauto. lia.
Qed.

Lemma run_ops_inv s self ls ops :
  dll_inv s self ls → run_ok true s self ops →
  ∃ ls', dll_inv (run_ops self ops s) self ls'.
Proof.
  revert s ls. induction ops as [|o ops IH]; intros s ls Hinv Hok; [by exists ls|].
  destruct Hok as [Ho Hok]. destruct (exec_inv _ _ _ _ Hinv Ho) as (ls' & Hinv').
  by apply (IH _ ls').
Qed.

Lemma init_inv capacity s :
  ∃ self s0, DoublyLinkedList.__init__ capacity s = (Ret self, s0) ∧
             dll_inv s0 self [] ∧ nodes s0 = nodes s.
Proof.
  eexists _, _. split; [reflexivity|]. split; [|done].
  eexists. split; [solve_lookup|]. split_and!; try done. apply NoDup_nil_2.
Qed.

(** [__iter__] reads the list object and the nodes, nothing else. *)
Lemma iter_loop_nodes fuel cur s1 s2 :
  nodes s1 = nodes s2 →
  (DoublyLinkedList.iter_loop fuel cur s1).1 = (DoublyLinkedList.iter_loop fuel cur s2).1.
Proof.
  intros Hn. revert cur. induction fuel as [|fuel IH]; intros [c|]; try done.
  cbn [DoublyLinkedList.iter_loop]. unfold bind, get_next, getattr. rewrite Hn.
  destruct (nodes s2 !! c) as [nd|]; [|done]. cbv beta match.
  specialize (IH (Node.next nd)).
  destruct (DoublyLinkedList.iter_loop fuel (Node.next nd) s1) as [[r1| |] ?],
           (DoublyLinkedList.iter_loop fuel (Node.next nd) s2) as [[r2| |] ?];
    simpl in *; congruence.
Qed.

Lemma contents_printed msgs s self : contents (printed msgs s) self = contents s self.
Proof.
  unfold contents, DoublyLinkedList.__iter__, bind, get_head, getattr, gets.
  store_simpl. destruct (lists s !! self) as [l|]; [|done]. cbv beta match.
  store_simpl.
  by rewrite (iter_loop_nodes _ _ _ s).
Qed.

(** ** Pages *)

Ltac wp_spc :=
  unfold Single_Page_Container.size,
    Single_Page_Container.capacity, Single_Page_Container.parent_container,
    Single_Page_Container.items,
    Multi_Page_Container.pages, Multi_Page_Container.page_capacity,
    Multi_Page_Container.max_pages, Multi_Page_Container.max_apps,
    set_item_parent, the.

(** [Page(items=[item], capacity=c, parent_container=pc)]: a new page
    [np], with a new list [nl] holding exactly [item]. *)
Lemma page_init_ok s item c pc :
  is_node s item → item ≠ next_loc s → 0 < c →
  let np := next_loc s in
  let nl := Pos.succ np in
  wp (Page.__init__ [item] c pc) s (λ o s',
    o = Ret np ∧ dll_inv s' nl [item] ∧
    spcs s' = <[np := SPC.mk nl pc "page"]> (spcs s) ∧
    parent s' = <[item := Some np]> (parent s) ∧
    next_loc s' = Pos.succ nl ∧
    can_delete s' = can_delete s ∧ mpcs s' = mpcs s ∧ homes s' = homes s ∧
    stdout s' = stdout s ∧
    (∀ o, o ≠ nl → lists s' !! o = lists s !! o) ∧
    (∀ x, x ≠ np → x ≠ item → nodes s' !! x = nodes s !! x) ∧
    is_node s' np).
Proof.
  intros [nd Hnd] Hne Hc np nl.
  unfold Page.__init__, Node__init__, Single_Page_Container.__init__,
    DoublyLinkedList.__init__, Single_Page_Container.add_all,
    Single_Page_Container._add_item, DoublyLinkedList.push, capacity_reached.
  wp_spc. wp_unfold.
  assert (np ≠ nl) by (unfold nl; lia).
  repeat wp_step. fold np. fold nl.
  rewrite !bool_decide_eq_true_2 by done. cbn [andb].
  repeat wp_step.
  split_and!; try done.
  - eexists. split; [solve_lookup|]. store_simpl. split_and!; try done.
    + apply NoDup_singleton.
    + apply dseg_singleton. eexists. split; [solve_lookup|]. done.
  - intros o Ho. store_simpl. by rewrite !lookup_insert_ne.
  - intros x Hx Hxi. store_simpl. by rewrite !lookup_insert_ne.
  - eexists. solve_lookup.
Qed.

Lemma is_node_frame self s s' x : dll_frame self s s' → is_node s x → is_node s' x.
Proof.
  intros (_&_&_&_&_&_&_&_&_&Hnm) [nd Hx]. specialize (Hnm x).
  rewrite Hx in Hnm. unfold is_node. destruct (nodes s' !! x); [by eexists|done].
Qed.


Lemma spare_page_true s self m lp :
  mpcs s !! self = Some m → lists s !! MPC._pages m = Some lp →
  (∀ mp, MPC.max_pages m = Some mp → DLL.size lp < mp) →
  Multi_Page_Container.spare_page self s = (Ret true, s).
Proof.
  intros Hm Hlp Hsp. apply wp_eq. unfold Multi_Page_Container.spare_page.
  wp_spc. wp_unfold. do 2 wp_step.
  destruct (MPC.max_pages m) as [mp|] eqn:Hmp; [|by wp_step].
  repeat wp_step. by rewrite bool_decide_eq_true_2 by auto.
Qed.

(** [page.remove_last_item()] on a page that is not empty. *)
Lemma remove_last_item_ok s page pg its t :
  spcs s !! page = Some pg → dll_inv s (SPC._items pg) (its ++ [t]) →
  wp (Single_Page_Container.remove_last_item page) s (λ o s',
    o = Ret t ∧ dll_inv s' (SPC._items pg) its ∧
    dll_frame (SPC._items pg) (set_parent (<[t := None]> (parent s)) s) s' ∧
    nodes_kept (its ++ [t]) s s' ∧ is_node s' t).
Proof.
  intros Hpg Hinv. unfold Single_Page_Container.remove_last_item.
  wp_spc. wp_unfold. do 2 wp_step.
  wp_apply pop_ok; [done|]. intros o s1 (-> & Hinv1 & Hfr & Hk & nd & Hnd & _).
  repeat wp_step.
  split; [done|]. split; [by eapply dll_inv_ext|]. split; [|split].
  - destruct Hfr as (?&?&?&?&?&?&?&?&?&?).
    unfold dll_frame. store_simpl. split_and!; try done. congruence.
  - done.
  - by eexists.
Qed.

Lemma dseg_check_sound h pp ls qn : dseg_check h pp ls qn = true → dseg h pp ls qn.
Proof.
  revert pp. induction ls as [|x xs IH]; intros pp; simpl; [done|].
  destruct (h !! x) as [nd|]; [|done].
  intros [[Hp%bool_decide_eq_true_1 Hn%bool_decide_eq_true_1]%andb_true_iff
            Hs]%andb_true_iff.
  exists nd. split_and!; try done. by apply IH.
Qed.

Lemma dll_check_sound s self ls : dll_check s self ls = true → dll_inv s self ls.
Proof.
  unfold dll_check, dll_inv. destruct (lists s !! self) as [l|]; [|done].
  intros [[[[?%bool_decide_eq_true_1 ?%bool_decide_eq_true_1]%andb_true_iff
              ?%bool_decide_eq_true_1]%andb_true_iff
             ?%bool_decide_eq_true_1]%andb_true_iff
            ?%dseg_check_sound]%andb_true_iff.
  by exists l.
Qed.

(** ** More on the list methods *)

Lemma find_loop_first s pp ls fuel name :
  dseg (nodes s) pp ls None → (length ls < fuel)%nat →
  DoublyLinkedList.find_loop fuel (hd_or ls None) name s
  = (Ret (snd <$> first_named s name ls), s).
Proof.
  revert pp fuel. induction ls as [|x xs IH]; intros pp fuel Hseg Hf.
  - by destruct fuel.
  - destruct fuel as [|fuel]; [simpl in Hf; lia|].
    apply dseg_cons in Hseg as ((nd & Hx & Hp & Hn) & Hseg).
    unfold first_named. cbn [list_find]. fold (first_named s name xs).
    assert (node_name s x = Node.name nd) as Hnm by (unfold node_name; by rewrite Hx).
    apply wp_eq. cbn [DoublyLinkedList.find_loop hd_or]. wp_unfold.
    do 2 wp_step. rewrite Hnm. destruct (decide (Node.name nd = name)) as [Heq|Hne].
    + rewrite bool_decide_eq_true_2 by done. by wp_step.
    + rewrite bool_decide_eq_false_2 by done. do 2 wp_step. rewrite Hn.
      eapply wp_returns; [eapply IH; [done|simpl in Hf; lia]|].
      by destruct (first_named s name xs) as [[??]|].
Qed.

Lemma find_first s self ls name :
  dll_inv s self ls →
  DoublyLinkedList.find self name s = (Ret (snd <$> first_named s name ls), s).
Proof.
  intros (l & Hl & Hnd & Hh & Ht & Hsz & Hseg).
  apply wp_eq. unfold DoublyLinkedList.find. wp_unfold. do 4 wp_step.
  rewrite Hh. replace (head ls) with (hd_or ls None) by (by destruct ls).
  eapply wp_returns; [eapply find_loop_first; [done|]|done].
  apply dseg_length in Hseg; [lia|done].
Qed.

Lemma get_index_loop_first s pp ls fuel node name i :
  sought_name s node = Some name →
  dseg (nodes s) pp ls None → (length ls < fuel)%nat →
  DoublyLinkedList.get_index_loop fuel (hd_or ls None) node i s
  = (Ret ((λ p, i + Z.of_nat p.1) <$> first_named s name ls), s).
Proof.
  intros Hname. revert pp fuel i.
  induction ls as [|x xs IH]; intros pp fuel i Hseg Hf.
  - by destruct fuel.
  - destruct fuel as [|fuel]; [simpl in Hf; lia|].
    apply dseg_cons in Hseg as ((nd & Hx & Hp & Hn) & Hseg).
    unfold first_named. cbn [list_find]. fold (first_named s name xs).
    assert (node_name s x = Node.name nd) as Hnm by (unfold node_name; by rewrite Hx).
    assert (wp (match node with
                | ByName name =>
                  let* nm := get_name (Some x) in ret (bool_decide (nm = name))
                | ByNode n =>
                  let* is_node :=
                    gets (λ s, bool_decide (is_Some (n ≫= (nodes s !!.)))) in
                  if is_node then
                    let* nm := get_name (Some x) in
                    let* nm' := get_name n in
                    ret (bool_decide (nm = nm'))
                  else raise (Exception "the input must be either str or Node")
                end) s
              (λ o s', o = Ret (bool_decide (Node.name nd = name)) ∧ s' = s))
      as Hfound.
    { destruct node as [[n|]|nm]; simpl in Hname; try done.
      - destruct (nodes s !! n) as [ndn|] eqn:Hndn; [|done].
        injection Hname as <-. wp_unfold. do 2 wp_step.
        rewrite bool_decide_eq_true_2 by (simpl; rewrite Hndn; by eexists).
        by repeat wp_step.
      - injection Hname as ->. wp_unfold. by repeat wp_step. }
    apply wp_eq. cbn [DoublyLinkedList.get_index_loop hd_or].
    wp_step. eapply wp_mono; [exact Hfound|]. cbv beta. intros o s' [-> ->].
    rewrite Hnm. destruct (decide (Node.name nd = name)) as [Heq|Hne].
    + rewrite bool_decide_eq_true_2 by done. wp_step. simpl. do 3 f_equal. lia.
    + rewrite bool_decide_eq_false_2 by done. wp_unfold. do 2 wp_step. rewrite Hn.
      eapply wp_returns; [eapply (IH _ _ (i + 1)); [done|simpl in Hf; lia]|].
      destruct (first_named s name xs) as [[k y]|]; [|done]. simpl.
      do 3 f_equal. lia.
Qed.

Lemma first_named_distinct s ls i n :
  NoDup (node_name s <$> ls) → ls !! i = Some n →
  first_named s (node_name s n) ls = Some (i, n).
Proof.
  intros Hnd Hi. apply list_find_Some. split_and!; try done.
  intros j y Hj Hlt Heq.
  assert (i = j); [|lia].
  eapply NoDup_lookup; [exact Hnd| |];
    rewrite list_lookup_fmap; [by rewrite Hi|by rewrite Hj, <- Heq].
Qed.

(** ** Sizes and capacity along a sequence of operations *)

Lemma dll_inv_size s self ls l :
  dll_inv s self ls → lists s !! self = Some l → DLL.size l = Z.of_nat (length ls).
Proof. intros (l' & ? & _ & _ & _ & ? & _) ?. by simplify_eq. Qed.

Lemma dll_frame_lookup self s s' l :
  dll_frame self s s' → lists s !! self = Some l →
  ∃ l', lists s' !! self = Some l' ∧ DLL.capacity l' = DLL.capacity l.
Proof.
  intros (_&_&_&_&_&_&_&_&Hc&_) Hl. rewrite Hl in Hc.
  destruct (lists s' !! self) as [l'|]; [|done]. exists l'. split; [done|].
  by injection Hc.
Qed.

Lemma exec_bounded s self ls l o :
  dll_inv s self ls → lists s !! self = Some l → op_ok true s self o →
  ∃ ls' l', dll_inv (exec self o s) self ls' ∧
            lists (exec self o s) !! self = Some l' ∧
            DLL.capacity l' = DLL.capacity l ∧
            ((length ls' ≤ length ls)%nat ∨
             (length ls' = S (length ls) ∧ DLL.capacity l ≠ Some (DLL.size l))).
Proof.
  intros Hinv Hl Hok.
  pose proof (contents_ok _ _ _ Hinv) as Hc.
  assert (∀ msgs, ∃ ls' l', dll_inv (printed msgs s) self ls' ∧
            lists (printed msgs s) !! self = Some l' ∧
            DLL.capacity l' = DLL.capacity l ∧
            ((length ls' ≤ length ls)%nat ∨
             (length ls' = S (length ls) ∧ DLL.capacity l ≠ Some (DLL.size l))))
    as Hprinted.
  { intros msgs. exists ls, l. split_and!; try done. by left. }
  assert (∃ ls' l', dll_inv s self ls' ∧ lists s !! self = Some l' ∧
            DLL.capacity l' = DLL.capacity l ∧
            ((length ls' ≤ length ls)%nat ∨
             (length ls' = S (length ls) ∧ DLL.capacity l ≠ Some (DLL.size l))))
    as Hsame.
  { exists ls, l. split_and!; try done. by left. }
  assert (∀ s' ls', dll_inv s' self ls' → dll_frame self s s' →
            (length ls' ≤ length ls)%nat ∨
            (length ls' = S (length ls) ∧ DLL.capacity l ≠ Some (DLL.size l)) →
            ∃ ls'' l', dll_inv s' self ls'' ∧ lists s' !! self = Some l' ∧
              DLL.capacity l' = DLL.capacity l ∧
              ((length ls'' ≤ length ls)%nat ∨
               (length ls'' = S (length ls) ∧ DLL.capacity l ≠ Some (DLL.size l))))
    as Hstep.
  { intros s' ls' Hinv' Hfr Hlen.
    destruct (dll_frame_lookup _ _ _ _ Hfr Hl) as (l' & Hl' & Hcap).
    by exists ls', l'. }
  unfold exec. destruct o as [n|n| | |n|a n|a n|i n]; cbn [op_ok] in Hok;
    rewrite ?Hc in Hok; cbn [run_op]; rewrite ?snd_bind_ret.
  - destruct Hok as [Hnode Hnew].
    destruct (decide (DLL.capacity l = Some (DLL.size l))) as [Hfull|Hfree].
    + rewrite (push_full _ _ _ _ Hl Hfull). apply Hprinted.
    + destruct (push_ok s self ls l n) as (_ & ? & ? & _); eauto.
      eapply Hstep; eauto. right. rewrite length_app. simpl. split; [lia|done].
  - destruct Hok as [Hnode Hnew].
    destruct (decide (DLL.capacity l = Some (DLL.size l))) as [Hfull|Hfree].
    + rewrite (push_front_full _ _ _ _ Hl Hfull). apply Hprinted.
    + destruct (push_front_ok s self ls l n) as (_ & ? & ? & _); eauto.
  - destruct (list_snoc_cases ls) as [->|(ls' & t & ->)].
    + rewrite (pop_empty _ _ l); eauto. by rewrite (dll_inv_size _ _ _ _ Hinv Hl).
    + destruct (pop_ok s self ls' t) as (_ & ? & ? & _); eauto.
      eapply Hstep; eauto. left. rewrite length_app. lia.
  - destruct ls as [|x ls'].
    + rewrite (pop_front_empty _ _ l); eauto. by rewrite (dll_inv_size _ _ _ _ Hinv Hl).
    + destruct (pop_front_ok s self x ls') as (_ & ? & ? & _); eauto.
      eapply Hstep; eauto. left. simpl. lia.
  - apply list_elem_of_split in Hok as (l1 & l2 & ->).
    destruct (remove_ok s self l1 n l2) as (_ & ? & ? & _); eauto.
    eapply Hstep; eauto. left. rewrite !length_app. simpl. lia.
  - destruct Hok as [[Hnode Hnew] Ha].
    destruct (decide (DLL.capacity l = Some (DLL.size l))) as [Hfull|Hfree].
    { unfold DoublyLinkedList.add_after. rewrite (add_full _ _ _ _ Hl Hfull).
      apply Hprinted. }
    destruct (resolve_ok s self ls a Hinv) as [(e & Hr)|[Hr|(x & Hx & Hr)]];
      [done| | |].
    + by rewrite (add_after_unresolved _ _ _ _ _ _ Hl Hfree Hr).
    + rewrite (add_after_resolved _ _ _ _ _ Hr).
      by rewrite (add_after_none _ _ _ _ Hl Hfree).
    + rewrite (add_after_resolved _ _ _ _ _ Hr).
      apply list_elem_of_split in Hx as (l1 & l2 & ->).
      destruct (add_after_ok s self l1 x l2 l n) as (_ & ? & ? & _); eauto.
      eapply Hstep; eauto. right. rewrite !length_app. simpl. split; [lia|done].
  - destruct Hok as [[Hnode Hnew] Ha].
    destruct (decide (DLL.capacity l = Some (DLL.size l))) as [Hfull|Hfree].
    { unfold DoublyLinkedList.add_before. rewrite (add_full _ _ _ _ Hl Hfull).
      apply Hprinted. }
    destruct (resolve_ok s self ls a Hinv) as [(e & Hr)|[Hr|(x & Hx & Hr)]];
      [done| | |].
    + by rewrite (add_before_unresolved _ _ _ _ _ _ Hl Hfree Hr).
    + rewrite (add_before_resolved _ _ _ _ _ Hr).
      by rewrite (add_before_none _ _ _ _ Hl Hfree).
    + rewrite (add_before_resolved _ _ _ _ _ Hr).
      apply list_elem_of_split in Hx as (l1 & l2 & ->).
      destruct (add_before_ok s self l1 x l2 l n) as (_ & ? & ? & _); eauto.
      eapply Hstep; eauto. right. rewrite !length_app. simpl. split; [lia|done].
  - destruct Hok as [Hnode Hnew].
    destruct (decide (DLL.capacity l = Some (DLL.size l))) as [Hfull|Hfree].
    { unfold DoublyLinkedList.add_at_index. rewrite (add_full _ _ _ _ Hl Hfull).
      apply Hprinted. }
    pose proof (dll_inv_size _ _ _ _ Hinv Hl) as Hsz.
    destruct (decide (0 ≤ i ≤ Z.of_nat (length ls))) as [Hi|Hi].
    + destruct (add_at_index_ok s self ls l i n) as (_ & ? & ? & _); eauto.
      eapply Hstep; eauto. right. rewrite length_app, length_take. simpl.
      rewrite length_drop. split; [lia|done].
    + rewrite (add_at_index_invalid _ _ l); eauto. lia.
Qed.

Lemma exec_within s self ls o :
  dll_inv s self ls → within_capacity s self → op_ok true s self o →
  ∃ ls', dll_inv (exec self o s) self ls' ∧ within_capacity (exec self o s) self.
Proof.
  intros Hinv (l & Hl & Hcap) Hok.
  destruct (exec_bounded s self ls l o Hinv Hl Hok) as (ls' & l' & Hinv' & Hl' & Hc & Hlen).
  exists ls'. split; [done|]. exists l'. split; [done|].
  intros c Hc'. rewrite Hc in Hc'. specialize (Hcap c Hc').
  rewrite (dll_inv_size _ _ _ _ Hinv Hl) in *.
  rewrite (dll_inv_size _ _ _ _ Hinv' Hl').
  destruct Hlen as [Hlen|[Hlen Hfree]]; [lia|].
  rewrite Hc' in Hfree. assert (Z.of_nat (length ls) ≠ c) by congruence. lia.
Qed.

Lemma run_ops_within s self ls ops :
  dll_inv s self ls → within_capacity s self → run_ok true s self ops →
  ∃ ls', dll_inv (run_ops self ops s) self ls' ∧
         within_capacity (run_ops self ops s) self.
Proof.
  revert s ls. induction ops as [|o ops IH]; intros s ls Hinv Hcap Hok.
  - by exists ls.
  - destruct Hok as [Ho Hok].
    destruct (exec_within s self ls o Hinv Hcap Ho) as (ls' & Hinv' & Hcap').
    by eapply IH.
Qed.

Lemma at_index_lookup s self ls index :
  dll_inv s self ls →
  DoublyLinkedList.at_index self index s
  = (Ret (if bool_decide (0 ≤ index) then ls !! Z.to_nat index else None), s).
Proof.
  intros Hinv.
  destruct (decide (0 ≤ index < Z.of_nat (length ls))) as [Hi|Hi].
  - rewrite bool_decide_eq_true_2 by lia. by apply at_index_ok.
  - destruct Hinv as (l & Hl & Hnd & Hh & Ht & Hsz & Hseg).
    apply wp_eq. unfold DoublyLinkedList.at_index. wp_unfold. do 2 wp_step.
    destruct (decide (0 ≤ index)) as [Hpos|Hneg].
    + rewrite (bool_decide_eq_true_2 (index >= _)) by lia. cbn [orb]. wp_step.
      rewrite bool_decide_eq_true_2 by done.
      rewrite lookup_ge_None_2 by lia. done.
    + rewrite (bool_decide_eq_true_2 (index < 0)) by lia. rewrite orb_true_r.
      wp_step. by rewrite bool_decide_eq_false_2 by done.
Qed.

Lemma resolve_first s self ls name :
  dll_inv s self ls →
  DoublyLinkedList.resolve self (ByName name) s
  = match first_named s name ls with
    | Some (_, x) => (Ret (Some x), s)
    | None => (Raise (Exception ("'" +:+ name +:+ "' is not in the list")), s)
    end.
Proof.
  intros Hinv. unfold DoublyLinkedList.resolve, bind.
  rewrite (find_first _ _ _ _ Hinv).
  by destruct (first_named s name ls) as [[i x]|].
Qed.

Lemma first_named_split s name ls i a :
  first_named s name ls = Some (i, a) →
  ls = take i ls ++ a :: drop (S i) ls ∧ take (S i) ls = take i ls ++ [a].
Proof.
  intros (Hi & _)%list_find_Some. split.
  - by rewrite take_drop_middle.
  - by apply take_S_r.
Qed.

Lemma dll_frame_trans self s1 s2 s3 :
  dll_frame self s1 s2 → dll_frame self s2 s3 → dll_frame self s1 s3.
Proof.
  intros (?&?&?&?&?&?&?&Ho&Hc&Hn) (?&?&?&?&?&?&?&Ho'&Hc'&Hn').
  split_and!; try congruence.
  intros o Hne. by rewrite Ho', Ho.
Qed.



Lemma dll_frame_refl self s : dll_frame self s s.
Proof. by split_and!. Qed.

Lemma get_index_first s self ls node name :
  dll_inv s self ls → sought_name s node = Some name →
  DoublyLinkedList.get_index self node s
  = (Ret ((λ p, Z.of_nat p.1) <$> first_named s name ls), s).
Proof.
  intros (l & Hl & Hnd & Hh & Ht & Hsz & Hseg) Hname.
  assert ((let* curr_node := get_head self in
           let* fuel := gets (λ s, S (base.size (nodes s))) in
           DoublyLinkedList.get_index_loop fuel curr_node node 0) s
          = (Ret ((λ p, Z.of_nat p.1) <$> first_named s name ls), s)) as Hrun.
  { apply wp_eq. wp_unfold. do 4 wp_step.
    rewrite Hh. replace (head ls) with (hd_or ls None) by (by destruct ls).
    eapply wp_returns; [eapply (get_index_loop_first _ _ _ _ _ _ 0); [done..|]|done].
    apply dseg_length in Hseg; [lia|done]. }
  destruct node as [[n|]|nm]; [exact Hrun|done|exact Hrun].
Qed.

(** Discharging the shape of a concrete store by evaluation. *)
Ltac by_check := apply dll_check_sound; vm_compute; reflexivity.

(** ** Items of a page or of the dock *)

Lemma spc_add_item_ok s page pg its item position :
  spcs s !! page = Some pg → dll_inv s (SPC._items pg) its →
  has_room s (SPC._items pg) → is_node s item → item ∉ its →
  valid_position position its →
  wp (Single_Page_Container.add_item page item position) s (λ o s',
    o = Ret tt ∧ dll_inv s' (SPC._items pg) (insert_at position item its) ∧
    dll_frame (SPC._items pg) (set_parent (<[item := Some page]> (parent s)) s) s' ∧
    nodes_kept (item :: its) s s').
Proof.
  intros Hpg Hinv (l & Hl & Hc) Hn Hnew Hpos.
  set (s1 := set_parent (<[item := Some page]> (parent s)) s).
  assert (dll_inv s1 (SPC._items pg) its) as Hinv1 by (by eapply dll_inv_ext).
  unfold Single_Page_Container.add_item, Single_Page_Container._add_item,
    Single_Page_Container.add_item_at_index.
  destruct position as [i|]; wp_spc; wp_unfold.
  - do 4 wp_step. fold s1. eapply wp_mono; [by eapply add_at_index_ok|]. cbv beta.
    intros o s2 (-> & ? & ? & Hk). by split_and!.
  - do 5 wp_step. fold s1. wp_apply push_ok; try done.
    intros o s2 (-> & ? & ? & Hk). wp_step. by split_and!.
Qed.

Lemma spc_remove_item_ok s page pg l1 x l2 :
  spcs s !! page = Some pg → dll_inv s (SPC._items pg) (l1 ++ x :: l2) →
  wp (Single_Page_Container.remove_item page x) s (λ o s',
    o = Ret x ∧ dll_inv s' (SPC._items pg) (l1 ++ l2) ∧ detached s' x ∧
    (∃ s1, dll_frame (SPC._items pg) s s1 ∧
           s' = set_parent (<[x := None]> (parent s1)) s1) ∧
    nodes_kept (l1 ++ x :: l2) s s').
Proof.
  intros Hpg Hinv.
  unfold Single_Page_Container.remove_item, Single_Page_Container._remove_item.
  wp_spc. wp_unfold. do 2 wp_step.
  wp_apply remove_ok; [done|]. intros o s1 (-> & Hinv1 & Hfr & Hk & Hd).
  repeat wp_step.
  split; [done|]. split; [by eapply dll_inv_ext|]. split; [done|]. split; [|done].
  exists s1. split; [done|]. by store_simpl.
Qed.

Lemma spc_remove_empty s page pg item :
  spcs s !! page = Some pg → dll_inv s (SPC._items pg) [] →
  Single_Page_Container.remove_item page item s = (Raise AttributeError, s) ∧
  Single_Page_Container.remove_last_item page s = (Raise AttributeError, s).
Proof.
  intros Hpg (l & Hl & _ & _ & _ & Hsz & _). simpl in Hsz.
  unfold Single_Page_Container.remove_item, Single_Page_Container._remove_item,
    Single_Page_Container.remove_last_item.
  split; apply wp_eq; wp_spc; wp_unfold; do 3 wp_step.
  - eapply wp_returns; [by eapply remove_empty|]. by repeat wp_step.
  - eapply wp_returns; [by eapply pop_empty|]. by repeat wp_step.
Qed.



(** ** The home screen *)

Ltac wp_home :=
  unfold Home.apps_getitem, Home.running_apps, Home.dock_items;
  unfold Home._apps, Home._folders, Home._dock, Home._open_apps, Home.set__apps,
    Home.set__open_apps, Home.set__folders.

Lemma printed_nil s : printed [] s = s.
Proof. unfold printed, set_stdout. rewrite app_nil_r. by destruct s. Qed.

Lemma resolve_item_refers s self h item it :
  homes s !! self = Some h → refers_to h item it →
  Home.resolve_item self item s = (Ret (Some it), s).
Proof.
  intros Hh Href. destruct item as [name|o]; simpl in *; [|by subst].
  apply wp_eq. unfold Home.__find_item. wp_home. do 4 wp_step.
  destruct Href as [->|[-> ->]]; by wp_step.
Qed.

Lemma resolve_item_state s self h item :
  homes s !! self = Some h →
  ∃ r msgs, Home.resolve_item self item s = (Ret r, printed msgs s).
Proof.
  intros Hh. destruct item as [name|o]; simpl.
  - unfold Home.__find_item, Home._apps, Home._folders, bind, getattr.
    rewrite Hh. cbv beta match. rewrite Hh. cbv beta match.
    destruct (HOME._apps h !! name) as [a|].
    { exists (Some a), []. by rewrite printed_nil. }
    destruct (HOME._folders h !! name) as [f|].
    { exists (Some f), []. by rewrite printed_nil. }
    by eexists None, [_].
  - exists (Some o), []. by rewrite printed_nil.
Qed.

Lemma get_app_known s self h name a :
  homes s !! self = Some h → HOME._apps h !! name = Some a →
  Home.get_app self name s = (Ret (Some a), s).
Proof.
  intros Hh Ha. apply wp_eq. unfold Home.get_app. wp_home. do 2 wp_step.
  rewrite Ha. by wp_step.
Qed.

Lemma get_app_unknown s self h name :
  homes s !! self = Some h → HOME._apps h !! name = None →
  Home.get_app self name s
  = (Ret None, printed ["App: " +:+ name +:+ " was not found"] s).
Proof.
  intros Hh Ha. apply wp_eq. unfold Home.get_app. wp_home. wp_unfold. do 2 wp_step.
  rewrite Ha. by repeat wp_step.
Qed.

Lemma get_folder_known s self h name f :
  homes s !! self = Some h → HOME._folders h !! name = Some f →
  Home.get_folder self name s = (Ret (Some f), s).
Proof.
  intros Hh Hf. apply wp_eq. unfold Home.get_folder. wp_home. do 2 wp_step.
  rewrite Hf. by wp_step.
Qed.

Lemma collect_apps_unknown s self h known bad rest :
  homes s !! self = Some h → known_names h known →
  HOME._apps h !! bad = None →
  Home.collect_apps self (known ++ Str bad :: rest) s
  = (Ret None, printed ["App: " +:+ bad +:+ " was not found";
                        "Invalid app " +:+ bad +:+ ". Operation Failed."] s).
Proof.
  intros Hh Hknown Hbad. induction Hknown as [|a known Ha Hknown IH].
  - apply wp_eq. cbn [app Home.collect_apps]. do 2 wp_step.
    eapply wp_returns; [by eapply get_app_unknown|]. cbv beta match.
    wp_unfold. repeat wp_step. by rewrite <- app_assoc.
  - destruct a as [name|]; [|done]. destruct Ha as [a Ha].
    apply wp_eq. cbn [app Home.collect_apps]. do 2 wp_step.
    eapply wp_returns; [by eapply get_app_known|]. cbv beta match.
    do 2 wp_step. eapply wp_returns; [exact IH|]. cbv beta match.
    by wp_step.
Qed.


Lemma wp_try_finally {A} (body : M A) (final : M unit) s
    (Q : outcome A → Store → Prop) :
  wp body s (λ o s1,
    match o with
    | Diverge => Q Diverge s1
    | _ => wp final s1 (λ o' s2,
             match o' with
             | Ret _ => Q o s2
             | Raise e => Q (Raise e) s2
             | Diverge => Q Diverge s2
             end)
    end) →
  wp (try_finally body final) s Q.
Proof.
  unfold wp, try_finally. destruct (body s) as [[a|e|] s1]; simpl; [| |done].
  - by destruct (final s1) as [[[]|e'|] s2].
  - by destruct (final s1) as [[[]|e'|] s2].
Qed.

Lemma wp_container_type_spc l c s (Q : outcome string → Store → Prop) :
  spcs s !! l = Some c → Q (Ret (SPC.container_type c)) s →
  wp (get_container_type (Some l)) s Q.
Proof. intros Hc HQ. unfold wp, get_container_type. by rewrite Hc. Qed.

Lemma wp_container_type_mpc l c s (Q : outcome string → Store → Prop) :
  spcs s !! l = None → mpcs s !! l = Some c → Q (Ret (MPC.container_type c)) s →
  wp (get_container_type (Some l)) s Q.
Proof. intros Hn Hc HQ. unfold wp, get_container_type. by rewrite Hn, Hc. Qed.

Lemma spare_page_state s self m lp :
  mpcs s !! self = Some m → lists s !! MPC._pages m = Some lp →
  ∃ b, Multi_Page_Container.spare_page self s = (Ret b, s).
Proof.
  intros Hm Hlp. unfold Multi_Page_Container.spare_page.
  destruct (MPC.max_pages m) as [mp|] eqn:Hmp.
  - exists (bool_decide (DLL.size lp < mp)). apply wp_eq. wp_spc. wp_unfold.
    do 2 wp_step. rewrite Hmp. by repeat wp_step.
  - exists true. apply wp_eq. wp_spc. wp_unfold.
    do 2 wp_step. rewrite Hmp. by repeat wp_step.
Qed.

(** Taking an item off one page and putting it on another page, or on the
    dock, that has room. *)
Lemma transfer_ok s src spg l1 it l2 dest dpg dits position :
  spcs s !! src = Some spg → dll_inv s (SPC._items spg) (l1 ++ it :: l2) →
  spcs s !! dest = Some dpg → dll_inv s (SPC._items dpg) dits →
  has_room s (SPC._items dpg) →
  SPC._items spg ≠ SPC._items dpg →
  (∀ x, x ∈ l1 ++ it :: l2 → x ∉ dits) →
  valid_position position dits →
  wp (Single_Page_Container.remove_item src it) s (λ o s2,
    o = Ret it ∧ spcs s2 = spcs s ∧ mpcs s2 = mpcs s ∧ homes s2 = homes s ∧
    (∀ o, o ≠ SPC._items spg → lists s2 !! o = lists s !! o) ∧
    wp (Single_Page_Container.add_item dest it position) s2 (λ o s',
      o = Ret tt ∧ dll_inv s' (SPC._items spg) (l1 ++ l2) ∧
      dll_inv s' (SPC._items dpg) (insert_at position it dits) ∧
      parent s' = <[it := Some dest]> (parent s) ∧
      spcs s' = spcs s ∧ mpcs s' = mpcs s ∧ homes s' = homes s ∧
      next_loc s' = next_loc s ∧ stdout s' = stdout s ∧
      (∀ o, o ≠ SPC._items spg → o ≠ SPC._items dpg → lists s' !! o = lists s !! o) ∧
      nodes_kept (dits ++ l1 ++ it :: l2) s s')).
Proof.
  intros Hspg Hsrc Hdpg Hdst (ld & Hld & Hroom) Hne Hdisj Hpos.
  pose proof Hsrc as (_ & _ & Hnd & _).
  apply NoDup_app in Hnd as (Hnd1 & Hx1 & [Hx2 Hnd2]%NoDup_cons).
  assert (it ∉ l1 ++ l2) as Hit.
  { intros [?|?]%elem_of_app; [|done]. apply (Hx1 it); [done|]. set_solver. }
  eapply wp_mono; [by eapply spc_remove_item_ok|]. cbv beta.
  intros o s2 (-> & Hsrc2 & Hd2 & (s1 & Hfr1 & Es2) & Hk2). split; [done|].
  pose proof Hfr1 as (Ep1&Ec1&Es1&Em1&Eh1&En1&Eo1&Hl1&Hcap1&Hnm1).
  split; [by subst s2|]. split; [by subst s2|]. split; [by subst s2|].
  split; [by subst s2|].
  assert (lists s2 = lists s1) as El2 by (by subst s2).
  assert (spcs s2 = spcs s) as Esp2 by (by subst s2).
  assert (mpcs s2 = mpcs s) as Emp2 by (by subst s2).
  assert (homes s2 = homes s) as Eho2 by (by subst s2).
  assert (next_loc s2 = next_loc s) as Enl2 by (by subst s2).
  assert (stdout s2 = stdout s) as Eso2 by (by subst s2).
  assert (parent s2 = <[it := None]> (parent s)) as Epa2
    by (subst s2; simpl; by rewrite Ep1).
  clear Es2.
  assert (lists s2 !! SPC._items dpg = Some ld) as Hld2.
  { rewrite El2, Hl1; [done|]. congruence. }
  assert (dll_inv s2 (SPC._items dpg) dits) as Hdst2.
  { eapply dll_inv_ext; [exact Hdst|by rewrite Hld2|].
    intros x Hx. apply Hk2. intros Hx'. by apply (Hdisj x). }
  assert (is_node s2 it) as Hnode2 by (destruct Hd2 as (nd & ? & _); by eexists).
  eapply wp_mono.
  { eapply (spc_add_item_ok s2 dest dpg dits it position); try done.
    - by rewrite Esp2.
    - by exists ld.
    - apply Hdisj. set_solver. }
  cbv beta. intros o s3 (-> & Hdst3 & Hfr3 & Hk3).
  pose proof Hfr3 as (Ep3&Ec3&Es3&Em3&Eh3&En3&Eo3&Hl3&Hcap3&Hnm3). store_simpl.
  split_and!; try done; try congruence.
  - eapply dll_inv_ext; [exact Hsrc2|by apply Hl3|].
    intros x Hx. apply Hk3. intros [->|Hx']%elem_of_cons; [done|].
    apply (Hdisj x); [|done]. set_solver.
  - rewrite Ep3, Epa2. by rewrite insert_insert_eq.
  - intros o Ho1 Ho2. rewrite Hl3, El2, Hl1 by done. done.
  - intros x Hx. rewrite Hk3, Hk2; [done|set_solver|set_solver].
Qed.

Lemma elem_of_insert_at position (item : loc) its x :
  x ∈ insert_at position item its → x = item ∨ x ∈ its.
Proof.
  destruct position as [i|]; simpl.
  - intros [Hx|[->|Hx]%elem_of_cons]%elem_of_app; [|by left|].
    + right. by apply (subseteq_take (Z.to_nat i) its).
    + right. by apply (subseteq_drop (Z.to_nat i) its).
  - intros [Hx|Hx%list_elem_of_singleton]%elem_of_app; [by right|by left].
Qed.

(** * The claims *)

(** ** C5: list integrity *)

(** C5, as amended.  Start from a list built by the constructor and apply
    any sequence of push / push_front / pop / pop_front / remove /
    add_after / add_before / add_at_index in which [remove] and node
    anchors are applied to nodes of the list and every inserted node is a
    node that is not already in the list.  Then the names met walking
    forward from [head] are the reverse of the names met walking backward
    from [tail], [size] is their number, [head.prev] is [None] and
    [tail.next] is [None]. *)
Theorem list_integrity_after_operations capacity s self s0 ops :
  DoublyLinkedList.__init__ capacity s = (Ret self, s0) →
  run_ok true s0 self ops →
  integrity (run_ops self ops s0) self.
Proof.
  intros Hinit Hok.
  destruct (init_inv capacity s) as (self' & s0' & Hinit' & Hinv & _).
  rewrite Hinit in Hinit'. injection Hinit' as <- <-.
  destruct (run_ops_inv _ _ _ _ Hinv Hok) as (ls & Hls).
  by eapply dll_inv_integrity.
Qed.

Lemma list_integrity_after_operations_witness :
  integrity
    (run_ops 3%positive
       [Push 1%positive; PushFront 2%positive; Remove 1%positive;
        AddAfter (ByName "b") 1%positive; Pop; AddAtIndex 0 1%positive; PopFront]
       (two_nodes_and_list (Some 2)))
    3%positive.
Proof.
  apply (list_integrity_after_operations (Some 2) two_nodes).
  - reflexivity.
  - vm_compute. repeat split; try (by eexists); try (by repeat constructor);
      intros _ H; repeat (inversion H as [|? ? ? H']; clear H; try rename H' into H).
Defined.

(** C5, as stated, fails: the claim restricts [remove] and the anchors but
    not the inserted node.  Pushing [a], [b] and then [a] again keeps to
    the stated conditions, and leaves a list whose forward walk meets one
    node while [size] is 3. *)
Lemma list_integrity_fails_on_repeated_push :
  let ops := [Push 1%positive; Push 2%positive; Push 1%positive] in
  let s0 := two_nodes_and_list None in
  DoublyLinkedList.__init__ None two_nodes = (Ret 3%positive, s0) ∧
  run_ok false s0 3%positive ops ∧
  ¬ integrity (run_ops 3%positive ops s0) 3%positive.
Proof.
  split; [reflexivity|]. split.
  - vm_compute. repeat split; try (by eexists); intros; discriminate.
  - intros (l & names & Hl & Hltr & _ & Hsz & _).
    vm_compute in Hl. injection Hl as <-.
    vm_compute in Hltr. injection Hltr as <-.
    vm_compute in Hsz. discriminate.
Qed.

(** ** C6: capacity *)

(** C6.  On a list whose [size] equals its [capacity], [push] and
    [push_front] return [False] after printing that the capacity is
    reached; the store is otherwise unchanged, so the list object (its
    [head], [tail] and [size]) and every node's links are as before. *)
Theorem push_rejected_at_capacity s self l n :
  lists s !! self = Some l →
  DLL.capacity l = Some (DLL.size l) →
  let s' := printed [msg_capacity] s in
  DoublyLinkedList.push self n s = (Ret false, s') ∧
  DoublyLinkedList.push_front self n s = (Ret false, s') ∧
  lists s' !! self = Some l ∧ nodes s' = nodes s ∧ contents s' self = contents s self.
Proof.
  intros Hl Hc s'. split_and!; [by eapply push_full|by eapply push_front_full|done..|].
  apply contents_printed.
Qed.

Lemma push_rejected_at_capacity_witness :
  let s := (DoublyLinkedList.push 3%positive 1%positive (two_nodes_and_list (Some 1))).2 in
  DoublyLinkedList.push 3%positive 2%positive s
  = (Ret false, printed [msg_capacity] s) ∧
  contents (printed [msg_capacity] s) 3%positive = [1%positive].
Proof.
  intros s.
  destruct (push_rejected_at_capacity s 3%positive
              (DLL.mk (Some 1%positive) (Some 1%positive) 1 (Some 1)) 2%positive)
    as (H1 & _ & _ & _ & H2); [reflexivity..|].
  split; [exact H1|]. rewrite H2. reflexivity.
Defined.

(** ** C9: the default dock *)

(** C9.  After [Home()] the dock holds Phone, Mail, Safari, Music in this
    order, the only page holds the five other default apps, and the
    parent of each of the four docked apps is the dock. *)
Theorem default_home_dock :
  let home := 1%positive in
  let dock := 3%positive in
  Home.default empty_store = (Ret home, default_home) ∧
  Home._dock home default_home = (Ret dock, default_home) ∧
  value (dock_names home default_home) = Some ["Phone"; "Mail"; "Safari"; "Music"] ∧
  value (page_names home default_home)
    = Some [["Maps"; "Clock"; "Settings"; "Camera"; "Notes"]] ∧
  Forall (λ name, ∃ app,
            value (Home.get_app home name default_home) = Some (Some app) ∧
            parent default_home !! app = Some (Some dock))
         (take 4 Home.default_apps).
Proof.
  split_and!; try (vm_compute; reflexivity).
  repeat constructor; eexists; split; vm_compute; reflexivity.
Qed.

(** ** C10: the protected apps *)

(** C10.  After [Home()] the apps Phone, Settings, Clock and Camera have
    [can_delete == False] and every other default app has
    [can_delete == True]; [delete_app] on a protected app prints the
    refusal and changes nothing else, so the app stays registered and in
    place. *)
Theorem default_home_protected_apps :
  let home := 1%positive in
  let protected := ["Phone"; "Settings"; "Clock"; "Camera"] in
  Forall (λ name, ∃ app,
            value (Home.get_app home name default_home) = Some (Some app) ∧
            can_delete default_home !! app = Some (bool_decide (name ∉ protected)))
         Home.default_apps ∧
  Forall (λ name,
            Home.delete_app home (Str name) default_home
            = (Ret tt, printed [Home.msg_not_deletable name] default_home))
         protected.
Proof.
  split.
  - repeat constructor; eexists; split; vm_compute; reflexivity.
  - repeat constructor; vm_compute; reflexivity.
Qed.

(** ** C7: a full dock *)


Lemma find_item_state self name s h :
  homes s !! self = Some h →
  ∃ r msgs, Home.__find_item self name s = (Ret r, printed msgs s).
Proof.
  intros Hh. unfold Home.__find_item, Home._apps, Home._folders, bind, getattr.
  rewrite Hh. cbv beta match. rewrite Hh. cbv beta match.
  destruct (HOME._apps h !! name) as [a|].
  { exists (Some a), []. unfold printed. rewrite app_nil_r. by destruct s. }
  destruct (HOME._folders h !! name) as [f|].
  { exists (Some f), []. unfold printed. rewrite app_nil_r. by destruct s. }
  by eexists None, [_].
Qed.

(** C7.  When the dock holds as many items as its capacity,
    [move_item_to_dock] prints that the dock is full and returns; apart
    from what was printed the store is unchanged, so the dock, the item's
    container and the item's parent are as before.  In scenario B (dock
    capacity 2, A then B moved to the dock) moving C fails in this way and
    the dock holds exactly A and B. *)
Theorem move_to_dock_rejected_when_full s self h d l item position :
  homes s !! self = Some h →
  spcs s !! HOME._dock h = Some d →
  lists s !! SPC._items d = Some l →
  DLL.capacity l = Some (DLL.size l) →
  (∃ msgs,
     Home.move_item_to_dock self item position s
     = (Ret tt, printed (msgs ++ [Home.msg_dock_full (DLL.capacity l)]) s)) ∧
  (let home := 1%positive in
   value (dock_names home scenario_B) = Some ["A"; "B"] ∧
   Home.move_item_to_dock home (Str "C") None scenario_B
   = (Ret tt, printed ["Dock is full (Capacity: 2). Cannot add any more items."]
                scenario_B)).
Proof.
  intros Hh Hd Hl Hfull. split; [|split; vm_compute; reflexivity].
  assert (∃ r msgs, Home.resolve_item self item s = (Ret r, printed msgs s))
    as (r & msgs & Hr).
  { destruct item as [name|o]; [by eapply find_item_state|].
    exists (Some o), []. unfold printed. rewrite app_nil_r. by destruct s. }
  exists msgs. apply wp_eq. unfold Home.move_item_to_dock.
  wp_step. eapply wp_returns; [exact Hr|]. cbv beta match.
  unfold Home._dock, Single_Page_Container.size, Single_Page_Container.capacity,
    Single_Page_Container.items.
  wp_unfold. repeat wp_step. by rewrite <- app_assoc.
Qed.

Lemma move_to_dock_rejected_when_full_witness :
  ∃ msgs,
    Home.move_item_to_dock 1%positive (Str "Maps") None default_home
    = (Ret tt, printed (msgs ++ ["Dock is full (Capacity: 4). Cannot add any more items."])
                 default_home).
Proof.
  destruct (move_to_dock_rejected_when_full default_home 1%positive
              (default (HOME.mk ∅ 1%positive ∅ []) (homes default_home !! 1%positive))
              (default (SPC.mk 1%positive None "") (spcs default_home !! 3%positive))
              (default (DLL.mk None None 0 None) (lists default_home !! 4%positive))
              (Str "Maps") None) as [H _]; [vm_compute; reflexivity..|].
  exact H.
Defined.

(** ** C8: unknown names *)

(** C8, as amended.  For a name that is not registered, [run_app] prints
    that it could not find the app and returns [False], raising nothing
    and changing nothing else; [terminate_app] on such a name leaves the
    whole store, the queue of running apps included, as it was. *)
Theorem unknown_app_run_and_terminate s self h name :
  homes s !! self = Some h →
  HOME._apps h !! name = None →
  Home.run_app self name s
  = (Ret (Some false), printed ["Could not find '" +:+ name +:+ "'"] s) ∧
  (Home.terminate_app self name s).2 = s.
Proof.
  intros Hh Hname. split.
  - apply wp_eq. unfold Home.run_app, Home._apps. wp_unfold. do 2 wp_step.
    rewrite Hname. by repeat wp_step.
  - unfold Home.terminate_app, Home.apps_getitem, Home._apps, bind, getattr.
    rewrite Hh. cbv beta match. by rewrite Hname.
Qed.

Lemma unknown_app_run_and_terminate_witness :
  Home.run_app 1%positive "Nope" default_home
  = (Ret (Some false), printed ["Could not find 'Nope'"] default_home) ∧
  (Home.terminate_app 1%positive "Nope" default_home).2 = default_home.
Proof.
  apply (unknown_app_run_and_terminate default_home 1%positive
           (default (HOME.mk ∅ 1%positive ∅ []) (homes default_home !! 1%positive)));
    vm_compute; reflexivity.
Defined.

(** C8, as stated, fails: public operations of [Home] do raise to the
    caller.  [terminate_app] on an unregistered name raises [KeyError];
    [move_item_to_dock] with a position beyond the dock raises the
    exception of [add_at_index]. *)
Lemma home_operations_raise :
  let home := 1%positive in
  (Home.terminate_app home "Nope" default_home).1 = Raise KeyError ∧
  (Home.move_item_to_dock home (Str "Maps") (Some 99) dock_with_room).1
  = Raise (Exception "Invalid index").
Proof. split; vm_compute; reflexivity. Qed.

(** ** C1: adding without a target page *)

(** C1 at a failing input.  The home screen has two pages of capacity 3
    and may have no more; page 2 is full and page 1 holds only C.  Adding
    G reaches the backward search, which raises [TypeError] at the first
    page it inspects: G is registered but placed on no page.  The other
    branches do what the claim says: with pages of capacity 4, adding A to
    E fills page 1 and opens page 2 for E (scenario A); and with a single
    full page and no page to spare, [_add_item] finds no page to search,
    prints the error and returns [None] without placing the item. *)
Theorem add_item_backward_search_raises :
  let home := 1%positive in
  value (page_names home last_page_full) = Some [["C"]; ["D"; "E"; "F"]] ∧
  (Home.add_app home "G" last_page_full).1 = Raise TypeError ∧
  value (page_names home (Home.add_app home "G" last_page_full).2)
  = Some [["C"]; ["D"; "E"; "F"]] ∧
  is_Some (value (Home.get_app home "G" (Home.add_app home "G" last_page_full).2)
           ≫= id) ∧
  value (page_names home
           (fresh (Home.__init__ ["A"; "B"; "C"; "D"; "E"] 2 2 (Some 5) 0)))
  = Some [["A"; "B"; "C"; "D"]; ["E"]] ∧
  (let b := 8%positive in
   let r := Multi_Page_Container._add_item home b None None one_full_page in
   r.1 = Ret None ∧
   stdout r.2 = stdout one_full_page ++ [Multi_Page_Container.msg_no_opening "B"] ∧
   value (page_names home r.2) = Some [["A"]] ∧
   parent r.2 !! b = Some None).
Proof.
  split_and!; try (vm_compute; reflexivity).
  - vm_compute. by eexists.
  - intros b r. split_and!; vm_compute; reflexivity.
Qed.

(** ** C3: a full page and no page to spare *)

(** C3 at a failing input.  The container has its one allowed page, full
    with A.  Adding the detached app B to that page returns normally
    after the list printed that its capacity is reached; the page and the
    list of pages are unchanged, but B's parent, [None] before, now is
    the page although B is not on it. *)
Theorem add_to_full_page_reparents_item :
  let home := 1%positive in
  let page := 6%positive in
  let b := 8%positive in
  let s := one_full_page in
  let r := Multi_Page_Container.add_item_at_page home b page None s in
  value (page_list home s) = Some [page] ∧
  value (names_on page s) = Some ["A"] ∧
  parent s !! b = Some None ∧
  r.1 = Ret tt ∧
  stdout r.2 = stdout s ++ [msg_capacity] ∧
  value (page_list home r.2) = Some [page] ∧
  value (names_on page r.2) = Some ["A"] ∧
  parent r.2 !! b = Some (Some page).
Proof. split_and!; vm_compute; reflexivity. Qed.

(** ** C4: empty pages *)

(** C4 at a failing input.  Page 1 holds exactly B and the dock is empty.
    Moving B to the dock leaves page 1, now without items, in the list of
    pages.  Deleting B instead, which removes it through [_remove_item],
    does take page 1 out of the list of pages. *)
Theorem move_to_dock_leaves_empty_page :
  let home := 1%positive in
  let s := page_with_one_item in
  let r := Home.move_item_to_dock home (Str "B") None s in
  value (page_names home s) = Some [["B"]] ∧
  value (dock_names home s) = Some [] ∧
  r.1 = Ret tt ∧
  value (dock_names home r.2) = Some ["B"] ∧
  value (page_names home r.2) = Some [[]] ∧
  value (page_names home (Home.delete_app home (Str "B") s).2) = Some [].
Proof. split_and!; vm_compute; reflexivity. Qed.

(** ** C2: the overflow split *)

(** C2.  Let [page] be a full page of the container [self], holding the
    items [its] followed by [last], and let the container have room for
    one more page.  Adding [item] (a node that is on neither this page nor
    the list of pages) to [page] creates exactly one page, placed right
    after [page] in the list of pages and holding exactly [last]; [item]
    is then put on [page] at the given position, or at its end when no
    position is given. *)
Theorem overflow_split s self m lp page pg li before after its last item position :
  mpcs s !! self = Some m →
  lists s !! MPC._pages m = Some lp →
  DLL.capacity lp = MPC.max_pages m →
  dll_inv s (MPC._pages m) (before ++ page :: after) →
  (∀ mp, MPC.max_pages m = Some mp → DLL.size lp < mp) →
  0 < MPC.page_capacity m →
  spcs s !! page = Some pg →
  SPC.parent_container pg = Some self →
  lists s !! SPC._items pg = Some li →
  DLL.capacity li = Some (DLL.size li) →
  dll_inv s (SPC._items pg) (its ++ [last]) →
  is_node s item →
  item ∉ its ++ [last] →
  (∀ x, x ∈ item :: its ++ [last] → x ∉ before ++ page :: after) →
  SPC._items pg ≠ MPC._pages m →
  Forall (allocated s)
    (item :: SPC._items pg :: MPC._pages m :: (its ++ [last]) ++ before ++ page :: after) →
  valid_position position its →
  wp (Multi_Page_Container.add_item_at_page self item page position) s (λ o s',
    let new_page := next_loc s in
    o = Ret tt ∧
    dll_inv s' (MPC._pages m) (before ++ page :: new_page :: after) ∧
    (∃ npg, spcs s' !! new_page = Some npg ∧ SPC.parent_container npg = Some self ∧
            dll_inv s' (SPC._items npg) [last]) ∧
    spcs s' !! page = Some pg ∧
    dll_inv s' (SPC._items pg) (insert_at position item its) ∧
    parent s' !! item = Some (Some page) ∧
    parent s' !! last = Some (Some new_page)).
Proof.
  intros Hm Hlp Hcapp Hpages Hspare Hpc Hpg Hpar Hli Hfull Hitems Hnode Hitem Hdisj
    Hlists Halloc Hpos.
  destruct pg as [il ppc pty]. destruct m as [cols rows pcap maxp pl maxa mty].
  store_simpl. subst ppc.
  set (np := next_loc s). set (nl := Pos.succ np).
  (* what the hypotheses say about identities *)
  apply Forall_cons in Halloc as [Ha_item Halloc].
  apply Forall_cons in Halloc as [Ha_il Halloc].
  apply Forall_cons in Halloc as [Ha_pl Halloc].
  apply Forall_app in Halloc as [Ha_items Ha_pages].
  rewrite Forall_forall in Ha_items, Ha_pages.
  unfold allocated in *. fold np in Ha_item, Ha_il, Ha_pl, Ha_items, Ha_pages.
  assert (np ∉ before ++ page :: after) as Hnp_pages
    by (intros Hx%Ha_pages; lia).
  assert (np ∉ its ++ [last]) as Hnp_items by (intros Hx%Ha_items; lia).
  assert (page ≠ np) as Hpage_np by (intros ->; apply Hnp_pages; set_solver).
  assert (last ≠ np) as Hlast_np by (intros ->; apply Hnp_items; set_solver).
  assert (item ≠ np) by lia. assert (il ≠ nl) by (unfold nl; lia).
  assert (pl ≠ nl) by (unfold nl; lia).
  assert (item ≠ last) as Hitem_last by set_solver.
  pose proof Hitems as (li0 & _ & [Hnd_its Hlast_its]%NoDup_snoc & _).
  assert (∀ x, x ∈ before ++ page :: after → x ∉ its ++ [last]) as Hdisj'
    by (intros x Hx Hx'; apply (Hdisj x); set_solver).
  assert (item ∉ before ++ page :: after) as Hitem_pages
    by (apply Hdisj; set_solver).
  assert (DLL.capacity lp ≠ Some (DLL.size lp)) as Hroom.
  { rewrite Hcapp. intros Hmp. specialize (Hspare _ Hmp). lia. }
  unfold Multi_Page_Container.add_item_at_page.
  wp_spc. wp_unfold.
  do 2 wp_step. rewrite bool_decide_eq_false_2 by (intros ?; done).
  do 9 wp_step.
  eapply wp_returns; [by eapply spare_page_true|]. cbv beta match.
  rewrite bool_decide_eq_true_2 by done. cbn [andb].
  (* the last item leaves the page *)
  wp_step. wp_apply remove_last_item_ok; [done..|].
  intros o s1 (-> & Hil1 & Hfr1 & Hk1 & Hlast1).
  pose proof Hfr1 as (Ep1&Ec1&Es1&Em1&Eh1&En1&Eo1&Hl1&Hcap1&Hnm1). store_simpl.
  assert (dll_inv s1 pl (before ++ page :: after)) as Hpl1.
  { eapply dll_inv_ext; [done|by apply Hl1|]. intros x Hx. apply Hk1. auto. }
  (* the new page is built around it *)
  do 4 wp_step.
  wp_apply page_init_ok; [done|lia|done|]. rewrite En1. fold np. fold nl.
  intros o s2 (-> & Hnl2 & Es2 & Ep2 & En2 & Ec2 & Em2 & Eh2 & Eo2 & Hl2 & Hn2 & Hnp2).
  assert (dll_inv s2 pl (before ++ page :: after)) as Hpl2.
  { eapply dll_inv_ext; [done|by apply Hl2|]. intros x Hx. apply Hn2.
    - intros ->. done.
    - intros ->. apply (Hdisj' _ Hx). set_solver. }
  assert (dll_inv s2 il its) as Hil2.
  { eapply dll_inv_ext; [done|by apply Hl2|]. intros x Hx. apply Hn2.
    - intros ->. apply Hnp_items. set_solver.
    - intros ->. done. }
  (* and linked after the target page *)
  assert (lists s2 !! pl = Some lp) as Hlp2 by (by rewrite Hl2, Hl1).
  cbv beta match.
  eapply wp_mono; [by eapply (add_after_ok s2 pl before page after lp np)|].
  cbv beta. intros o s3 (-> & Hpl3 & Hfr3 & Hk3).
  pose proof Hfr3 as (Ep3&Ec3&Es3&Em3&Eh3&En3&Eo3&Hl3&Hcap3&Hnm3).
  assert (dll_inv s3 il its) as Hil3.
  { eapply dll_inv_frame; [exact Hil2|exact Hfr3|exact Hk3|done|].
    intros x Hx [->|Hx']%elem_of_cons.
    - apply Hnp_items. set_solver.
    - apply (Hdisj' _ Hx'). set_solver. }
  assert (dll_inv s3 nl [last]) as Hnl3.
  { eapply dll_inv_frame; [exact Hnl2|exact Hfr3|exact Hk3|done|].
    intros x ->%list_elem_of_singleton [->|Hx']%elem_of_cons; [done|].
    apply (Hdisj' _ Hx'). set_solver. }
  (* the item goes on the target page *)
  set (s3' := set_parent (<[item := Some page]> (parent s3)) s3).
  assert (dll_inv s3' pl (before ++ page :: np :: after)) as Hpl3'
    by (by eapply dll_inv_ext).
  assert (dll_inv s3' il its) as Hil3' by (by eapply dll_inv_ext).
  assert (dll_inv s3' nl [last]) as Hnl3' by (by eapply dll_inv_ext).
  assert (is_node s3' item) as Hnode3.
  { assert (is_node s3 item) as Hn3; [|exact Hn3].
    eapply (is_node_frame pl s2); [done|]. unfold is_node. rewrite Hn2 by done.
    eapply is_node_frame; [exact Hfr1|done]. }
  assert (∃ li3, lists s3' !! il = Some li3 ∧
                 DLL.capacity li3 ≠ Some (DLL.size li3)) as (li3 & Hli3 & Hroom3).
  { destruct Hil3' as (li3 & Hli3 & _ & _ & _ & Hsz3 & _). exists li3.
    split; [done|]. destruct Hitems as (li' & Hli' & _ & _ & _ & Hsz & _).
    assert (li' = li) as -> by congruence.
    assert (DLL.capacity li3 = DLL.capacity li) as ->.
    { unfold s3' in Hli3. store_simpl.
      rewrite Hl3, Hl2 in Hli3 by done. unfold loc in *.
      rewrite Hli3, Hli in Hcap1.
      by injection Hcap1. }
    rewrite Hfull, Hsz, Hsz3, length_app. simpl. intros [=]. lia. }
  assert (∀ x, x ∈ before ++ page :: np :: after → x ∉ item :: its) as Hsep.
  { intros x Hx Hx'.
    assert (x = np ∨ x ∈ before ++ page :: after) as [->|Hxp] by set_solver.
    - apply elem_of_cons in Hx' as [?|?]; [done|]. apply Hnp_items. set_solver.
    - apply (Hdisj x); [|done]. set_solver. }
  assert (wp (Single_Page_Container.add_item page item position) s3 (λ o s4,
            o = Ret tt ∧ dll_inv s4 il (insert_at position item its) ∧
            dll_frame il s3' s4 ∧ nodes_kept (item :: its) s3' s4)) as Hadd.
  { unfold Single_Page_Container.add_item, Single_Page_Container._add_item,
      Single_Page_Container.add_item_at_index.
    destruct position as [i|]; wp_spc; wp_unfold.
    - do 4 wp_step. fold s3'. eapply add_at_index_ok; try done. set_solver.
    - do 5 wp_step. fold s3'. wp_apply push_ok; try done; [set_solver|].
      intros o s4 (-> & ? & ? & ?). by wp_step. }
  eapply wp_mono; [exact Hadd|]. cbv beta.
  intros o s4 (-> & Hil4 & Hfr4 & Hk4).
  pose proof Hfr4 as (Ep4&Ec4&Es4&Em4&Eh4&En4&Eo4&Hl4&Hcap4&Hnm4).
  unfold s3' in Ep4, Es4. store_simpl.
  split; [done|]. split; [|split; [|split; [|split; [done|split]]]].
  - eapply dll_inv_frame; [exact Hpl3'|exact Hfr4|exact Hk4|done|exact Hsep].
  - eexists. split; [rewrite Es4, Es3, Es2; apply lookup_insert_eq|].
    split; [done|]. simpl.
    eapply dll_inv_frame; [exact Hnl3'|exact Hfr4|exact Hk4|done|].
    intros x ->%list_elem_of_singleton. set_solver.
  - rewrite Es4, Es3, Es2, lookup_insert_ne, Es1 by done. done.
  - rewrite Ep4. apply lookup_insert_eq.
  - rewrite Ep4, lookup_insert_ne, Ep3, Ep2 by done. apply lookup_insert_eq.
Qed.

Lemma overflow_split_witness :
  let s := full_page_with_room in
  let home := 1%positive in
  let page := 6%positive in
  let a := 5%positive in
  let b := 8%positive in
  let c := 9%positive in
  wp (Multi_Page_Container.add_item_at_page home c page (Some 0)) s (λ o s',
    let new_page := next_loc s in
    o = Ret tt ∧
    dll_inv s' 2%positive ([] ++ page :: new_page :: []) ∧
    (∃ npg, spcs s' !! new_page = Some npg ∧ SPC.parent_container npg = Some home ∧
            dll_inv s' (SPC._items npg) [b]) ∧
    spcs s' !! page = Some (SPC.mk 7%positive (Some home) "page") ∧
    dll_inv s' 7%positive (insert_at (Some 0) c [a]) ∧
    parent s' !! c = Some (Some page) ∧
    parent s' !! b = Some (Some new_page)).
Proof.
  intros s home page a b c.
  apply (overflow_split s home
           (MPC.mk 2 1 2 (Some 5) 2%positive (Some 10) "home")
           (DLL.mk (Some page) (Some page) 1 (Some 5))
           page (SPC.mk 7%positive (Some home) "page")
           (DLL.mk (Some a) (Some b) 2 (Some 2))
           [] [] [a] b c (Some 0)).
  - vm_compute; reflexivity.
  - vm_compute; reflexivity.
  - reflexivity.
  - apply dll_check_sound. vm_compute; reflexivity.
  - intros mp [= <-]. reflexivity.
  - reflexivity.
  - vm_compute; reflexivity.
  - reflexivity.
  - vm_compute; reflexivity.
  - reflexivity.
  - apply dll_check_sound. vm_compute; reflexivity.
  - vm_compute. by eexists.
  - apply (bool_decide_eq_true_1 _). vm_compute; reflexivity.
  - apply Forall_forall. apply (bool_decide_eq_true_1 _). vm_compute; reflexivity.
  - discriminate.
  - unfold allocated. apply (bool_decide_eq_true_1 _). vm_compute; reflexivity.
  - split; discriminate.
Defined.

(** * Further properties of the code *)

(** ** [DoublyLinkedList] *)

(** X1.  [push] on a list with room left puts the node at the end: it
    returns [True], the list holds the former nodes in their order
    followed by the new node, and nothing but the links of the nodes of
    the list and of the new node, and the list object, is changed. *)
Theorem push_appends s self ls n :
  dll_inv s self ls → has_room s self → is_node s n → n ∉ ls →
  wp (DoublyLinkedList.push self n) s (λ o s',
    o = Ret true ∧ dll_inv s' self (ls ++ [n]) ∧ contents s' self = ls ++ [n] ∧
    dll_frame self s s' ∧ nodes_kept (n :: ls) s s').
Proof.
  intros Hinv (l & Hl & Hc) Hn Hnew.
  eapply wp_mono; [by eapply push_ok|]. cbv beta.
  intros o s' (-> & Hinv' & Hfr & Hk). split_and!; try done. by apply contents_ok.
Qed.

Lemma push_appends_witness :
  wp (DoublyLinkedList.push 5%positive 4%positive) (three_in_list None) (λ o s',
    o = Ret true ∧ dll_inv s' 5%positive ([1; 2; 3]%positive ++ [4%positive]) ∧
    contents s' 5%positive = ([1; 2; 3]%positive ++ [4%positive]) ∧
    dll_frame 5%positive (three_in_list None) s' ∧
    nodes_kept (4 :: [1; 2; 3])%positive (three_in_list None) s').
Proof.
  apply (push_appends (three_in_list None) 5%positive [1; 2; 3]%positive 4%positive).
  - apply dll_check_sound. vm_compute. reflexivity.
  - exists (DLL.mk (Some 1%positive) (Some 3%positive) 3 None). split; [reflexivity|discriminate].
  - vm_compute. by eexists.
  - compute_done.
Defined.

(** X2.  [push_front] on a list with room left puts the node at the
    front: it returns [True] and the list holds the new node followed by
    the former nodes in their order. *)
Theorem push_front_prepends s self ls n :
  dll_inv s self ls → has_room s self → is_node s n → n ∉ ls →
  wp (DoublyLinkedList.push_front self n) s (λ o s',
    o = Ret true ∧ dll_inv s' self (n :: ls) ∧ contents s' self = n :: ls ∧
    dll_frame self s s' ∧ nodes_kept (n :: ls) s s').
Proof.
  intros Hinv (l & Hl & Hc) Hn Hnew.
  eapply wp_mono; [by eapply push_front_ok|]. cbv beta.
  intros o s' (-> & Hinv' & Hfr & Hk). split_and!; try done. by apply contents_ok.
Qed.

Lemma push_front_prepends_witness :
  wp (DoublyLinkedList.push_front 5%positive 4%positive) (three_in_list (Some 4)) (λ o s',
    o = Ret true ∧ dll_inv s' 5%positive (4 :: [1; 2; 3])%positive ∧
    contents s' 5%positive = (4 :: [1; 2; 3])%positive ∧
    dll_frame 5%positive (three_in_list (Some 4)) s' ∧
    nodes_kept (4 :: [1; 2; 3])%positive (three_in_list (Some 4)) s').
Proof.
  apply (push_front_prepends (three_in_list (Some 4)) 5%positive
           [1; 2; 3]%positive 4%positive).
  - by_check.
  - exists (DLL.mk (Some 1%positive) (Some 3%positive) 3 (Some 4)).
    split; [reflexivity|discriminate].
  - vm_compute. by eexists.
  - compute_done.
Defined.

(** X3.  [remove] of a node of the list returns that node, takes it out
    while the other nodes keep their order, and clears its [next] and
    [prev]. *)
Theorem remove_unlinks s self l1 x l2 :
  dll_inv s self (l1 ++ x :: l2) →
  wp (DoublyLinkedList.remove self (Some x)) s (λ o s',
    o = Ret (Some x) ∧ dll_inv s' self (l1 ++ l2) ∧ contents s' self = l1 ++ l2 ∧
    detached s' x ∧ dll_frame self s s' ∧ nodes_kept (l1 ++ x :: l2) s s').
Proof.
  intros Hinv. eapply wp_mono; [by eapply remove_ok|]. cbv beta.
  intros o s' (-> & Hinv' & Hfr & Hk & Hd). split_and!; try done. by apply contents_ok.
Qed.

Lemma remove_unlinks_witness :
  wp (DoublyLinkedList.remove 5%positive (Some 2%positive)) (three_in_list None) (λ o s',
    o = Ret (Some 2%positive) ∧ dll_inv s' 5%positive ([1%positive] ++ [3%positive]) ∧
    contents s' 5%positive = [1%positive] ++ [3%positive] ∧
    detached s' 2%positive ∧ dll_frame 5%positive (three_in_list None) s' ∧
    nodes_kept ([1%positive] ++ 2%positive :: [3%positive]) (three_in_list None) s').
Proof.
  apply (remove_unlinks (three_in_list None) 5%positive [1%positive] 2%positive
           [3%positive]).
  by_check.
Defined.

(** X4.  [pop] returns the last node of the list and [pop_front] the
    first one; the node is taken out, the other nodes keep their order,
    and its links are cleared.  On an empty list both return [None] and
    change nothing. *)
Theorem pop_takes_end s self ls :
  dll_inv s self ls →
  wp (DoublyLinkedList.pop self) s (λ o s',
    o = Ret (last ls) ∧ dll_inv s' self (take (length ls - 1) ls) ∧
    dll_frame self s s' ∧
    match last ls with Some t => detached s' t | None => s' = s end) ∧
  wp (DoublyLinkedList.pop_front self) s (λ o s',
    o = Ret (head ls) ∧ dll_inv s' self (tail ls) ∧ dll_frame self s s' ∧
    match head ls with Some t => detached s' t | None => s' = s end).
Proof.
  intros Hinv. split.
  - destruct (list_snoc_cases ls) as [->|(ls' & t & ->)].
    + destruct Hinv as (l & Hl & Hrest). unfold wp.
      rewrite (pop_empty _ _ l) by (done || apply Hrest). simpl.
      split_and!; try done; try (by exists l); apply dll_frame_refl.
    + eapply wp_mono; [by eapply pop_ok|]. cbv beta.
      intros o s' (-> & Hinv' & Hfr & Hk & Hd).
      rewrite last_snoc, length_app. simpl.
      replace (length ls' + 1 - 1)%nat with (length ls') by lia.
      rewrite take_app_length. by split_and!.
  - destruct ls as [|x ls].
    + destruct Hinv as (l & Hl & Hrest). unfold wp.
      rewrite (pop_front_empty _ _ l) by (done || apply Hrest). simpl.
      split_and!; try done; try (by exists l); apply dll_frame_refl.
    + eapply wp_mono; [by eapply pop_front_ok|]. cbv beta.
      intros o s' (-> & Hinv' & Hfr & Hk & Hd). by split_and!.
Qed.

Lemma pop_takes_end_witness :
  wp (DoublyLinkedList.pop 5%positive) (three_in_list None) (λ o s',
    o = Ret (last [1; 2; 3]%positive) ∧
    dll_inv s' 5%positive (take (length [1; 2; 3]%positive - 1) [1; 2; 3]%positive) ∧
    dll_frame 5%positive (three_in_list None) s' ∧
    match last [1; 2; 3]%positive with
    | Some t => detached s' t
    | None => s' = three_in_list None
    end) ∧
  wp (DoublyLinkedList.pop_front 5%positive) (three_in_list None) (λ o s',
    o = Ret (head [1; 2; 3]%positive) ∧ dll_inv s' 5%positive (tail [1; 2; 3]%positive) ∧
    dll_frame 5%positive (three_in_list None) s' ∧
    match head [1; 2; 3]%positive with
    | Some t => detached s' t
    | None => s' = three_in_list None
    end).
Proof.
  apply (pop_takes_end (three_in_list None) 5%positive [1; 2; 3]%positive).
  by_check.
Defined.

(** X5.  [at_index(index)] returns the node at that position, counting
    from 0, and [None] for a negative index or one past the end; it
    changes nothing. *)
Theorem at_index_nth s self ls index :
  dll_inv s self ls →
  DoublyLinkedList.at_index self index s
  = (Ret (if bool_decide (0 ≤ index) then ls !! Z.to_nat index else None), s).
Proof. apply at_index_lookup. Qed.

Lemma at_index_nth_witness :
  DoublyLinkedList.at_index 5%positive 2 (three_in_list None)
  = (Ret (if bool_decide (0 ≤ 2) then [1; 2; 3]%positive !! Z.to_nat 2 else None),
     three_in_list None).
Proof.
  apply (at_index_nth (three_in_list None) 5%positive [1; 2; 3]%positive 2).
  by_check.
Defined.

(** X6.  [find(name)] returns the first node of the list with that name,
    [None] when there is none; it changes nothing. *)
Theorem find_first_named s self ls name :
  dll_inv s self ls →
  DoublyLinkedList.find self name s = (Ret (snd <$> first_named s name ls), s).
Proof. apply find_first. Qed.

Lemma find_first_named_witness :
  DoublyLinkedList.find 5%positive "b" (three_in_list None)
  = (Ret (snd <$> first_named (three_in_list None) "b" [1; 2; 3]%positive),
     three_in_list None).
Proof.
  apply (find_first_named (three_in_list None) 5%positive [1; 2; 3]%positive "b").
  by_check.
Defined.

(** X7.  [get_index(node)], given a name or a node, returns the index of
    the first node of the list that has this name (the name of the given
    node), [None] when there is none; it compares names, not nodes, and
    changes nothing. *)
Theorem get_index_first_named s self ls node name :
  dll_inv s self ls → sought_name s node = Some name →
  DoublyLinkedList.get_index self node s
  = (Ret ((λ p, Z.of_nat p.1) <$> first_named s name ls), s).
Proof. apply get_index_first. Qed.

Lemma get_index_first_named_witness :
  DoublyLinkedList.get_index 5%positive (ByNode (Some 3%positive)) (three_in_list None)
  = (Ret ((λ p, Z.of_nat p.1) <$> first_named (three_in_list None) "c" [1; 2; 3]%positive),
     three_in_list None).
Proof.
  apply (get_index_first_named (three_in_list None) 5%positive [1; 2; 3]%positive
           (ByNode (Some 3%positive)) "c").
  - by_check.
  - reflexivity.
Defined.

(** X8.  In a list whose nodes have pairwise different names, [get_index]
    and [at_index] are inverse to each other: the node at position [i] has
    index [i], whether it is looked up by itself or by its name. *)
Theorem get_index_at_index s self ls i n :
  dll_inv s self ls → distinct_names s ls → ls !! i = Some n →
  DoublyLinkedList.at_index self (Z.of_nat i) s = (Ret (Some n), s) ∧
  DoublyLinkedList.get_index self (ByNode (Some n)) s = (Ret (Some (Z.of_nat i)), s) ∧
  DoublyLinkedList.get_index self (ByName (node_name s n)) s
  = (Ret (Some (Z.of_nat i)), s).
Proof.
  intros Hinv Hd Hi.
  pose proof (first_named_distinct _ _ _ _ Hd Hi) as Hfirst.
  assert (is_Some (nodes s !! n)) as [nd Hnd].
  { destruct Hinv as (l & _ & _ & _ & _ & _ & Hseg).
    apply list_elem_of_lookup_2 in Hi.
    exact (dseg_lookup _ _ _ _ _ Hseg Hi). }
  split_and!.
  - rewrite (at_index_lookup _ _ _ _ Hinv).
    rewrite bool_decide_eq_true_2 by lia. by rewrite Nat2Z.id, Hi.
  - rewrite (get_index_first _ _ _ _ (node_name s n) Hinv).
    + by rewrite Hfirst.
    + simpl. unfold node_name. by rewrite Hnd.
  - rewrite (get_index_first _ _ _ _ (node_name s n) Hinv); [|done].
    by rewrite Hfirst.
Qed.

Lemma get_index_at_index_witness :
  DoublyLinkedList.at_index 5%positive (Z.of_nat 1) (three_in_list None)
  = (Ret (Some 2%positive), three_in_list None) ∧
  DoublyLinkedList.get_index 5%positive (ByNode (Some 2%positive)) (three_in_list None)
  = (Ret (Some (Z.of_nat 1)), three_in_list None) ∧
  DoublyLinkedList.get_index 5%positive
    (ByName (node_name (three_in_list None) 2%positive)) (three_in_list None)
  = (Ret (Some (Z.of_nat 1)), three_in_list None).
Proof.
  apply (get_index_at_index (three_in_list None) 5%positive [1; 2; 3]%positive
           1%nat 2%positive).
  - by_check.
  - unfold distinct_names. vm_compute. repeat constructor; set_solver.
  - reflexivity.
Defined.

(** X9.  [add_after(node, new_node)] and [add_before(node, new_node)] on
    a list with room left, for a node of the list: the new node is put
    right after, respectively right before, that node; the other nodes
    keep their order. *)
Theorem add_next_to_node s self l1 a l2 n :
  dll_inv s self (l1 ++ a :: l2) → has_room s self →
  is_node s n → n ∉ l1 ++ a :: l2 →
  wp (DoublyLinkedList.add_after self (ByNode (Some a)) n) s (λ o s',
    o = Ret tt ∧ dll_inv s' self (l1 ++ a :: n :: l2) ∧
    contents s' self = l1 ++ a :: n :: l2 ∧
    dll_frame self s s' ∧ nodes_kept (n :: l1 ++ a :: l2) s s') ∧
  wp (DoublyLinkedList.add_before self (ByNode (Some a)) n) s (λ o s',
    o = Ret tt ∧ dll_inv s' self (l1 ++ n :: a :: l2) ∧
    contents s' self = l1 ++ n :: a :: l2 ∧
    dll_frame self s s' ∧ nodes_kept (n :: l1 ++ a :: l2) s s').
Proof.
  intros Hinv (l & Hl & Hc) Hn Hnew. split.
  - eapply wp_mono; [by eapply add_after_ok|]. cbv beta.
    intros o s' (-> & Hinv' & Hfr & Hk). split_and!; try done. by apply contents_ok.
  - eapply wp_mono; [by eapply add_before_ok|]. cbv beta.
    intros o s' (-> & Hinv' & Hfr & Hk). split_and!; try done. by apply contents_ok.
Qed.

Lemma add_next_to_node_witness :
  wp (DoublyLinkedList.add_after 5%positive (ByNode (Some 2%positive)) 4%positive)
    (three_in_list None) (λ o s',
    o = Ret tt ∧
    dll_inv s' 5%positive ([1%positive] ++ 2%positive :: 4%positive :: [3%positive]) ∧
    contents s' 5%positive = [1%positive] ++ 2%positive :: 4%positive :: [3%positive] ∧
    dll_frame 5%positive (three_in_list None) s' ∧
    nodes_kept (4%positive :: [1%positive] ++ 2%positive :: [3%positive])
      (three_in_list None) s') ∧
  wp (DoublyLinkedList.add_before 5%positive (ByNode (Some 2%positive)) 4%positive)
    (three_in_list None) (λ o s',
    o = Ret tt ∧
    dll_inv s' 5%positive ([1%positive] ++ 4%positive :: 2%positive :: [3%positive]) ∧
    contents s' 5%positive = [1%positive] ++ 4%positive :: 2%positive :: [3%positive] ∧
    dll_frame 5%positive (three_in_list None) s' ∧
    nodes_kept (4%positive :: [1%positive] ++ 2%positive :: [3%positive])
      (three_in_list None) s').
Proof.
  apply (add_next_to_node (three_in_list None) 5%positive [1%positive] 2%positive
           [3%positive] 4%positive).
  - by_check.
  - exists (DLL.mk (Some 1%positive) (Some 3%positive) 3 None).
    split; [reflexivity|discriminate].
  - vm_compute. by eexists.
  - compute_done.
Defined.

(** X10.  [add_after] and [add_before] with the anchor given by name, on
    a list with room left: the new node goes right after (right before)
    the first node of the list with that name; when no node has that
    name the call raises [Exception("'<name>' is not in the list")] and
    changes nothing. *)
Theorem add_by_name s self ls name n :
  dll_inv s self ls → has_room s self → is_node s n → n ∉ ls →
  let unknown := Raise (Exception ("'" +:+ name +:+ "' is not in the list")) in
  wp (DoublyLinkedList.add_after self (ByName name) n) s (λ o s',
    match first_named s name ls with
    | Some (i, _) =>
      o = Ret tt ∧ dll_inv s' self (take (S i) ls ++ n :: drop (S i) ls) ∧
      dll_frame self s s'
    | None => o = unknown ∧ s' = s
    end) ∧
  wp (DoublyLinkedList.add_before self (ByName name) n) s (λ o s',
    match first_named s name ls with
    | Some (i, _) =>
      o = Ret tt ∧ dll_inv s' self (take i ls ++ n :: drop i ls) ∧
      dll_frame self s s'
    | None => o = unknown ∧ s' = s
    end).
Proof.
  intros Hinv (l & Hl & Hc) Hn Hnew unknown.
  pose proof (resolve_first _ _ _ name Hinv) as Hres.
  destruct (first_named s name ls) as [[i a]|] eqn:Hfirst.
  - destruct (first_named_split _ _ _ _ _ Hfirst) as [Hls Htake].
    assert (dll_inv s self (take i ls ++ a :: drop (S i) ls)) as Hinv'
      by (by rewrite <- Hls).
    assert (n ∉ take i ls ++ a :: drop (S i) ls) as Hnew' by (by rewrite <- Hls).
    assert (drop i ls = a :: drop (S i) ls) as Hdrop.
    { apply list_find_Some in Hfirst as (Hi & _). by apply drop_S. }
    split.
    + unfold wp. rewrite (add_after_resolved _ _ _ _ _ Hres).
      eapply wp_mono; [by eapply add_after_ok|]. cbv beta.
      intros o s' (-> & Hinv'' & Hfr & Hk). split_and!; try done.
      by rewrite Htake, <- app_assoc.
    + unfold wp. rewrite (add_before_resolved _ _ _ _ _ Hres).
      eapply wp_mono; [by eapply add_before_ok|]. cbv beta.
      intros o s' (-> & Hinv'' & Hfr & Hk). split_and!; try done.
      by rewrite Hdrop.
  - split; unfold wp.
    + by rewrite (add_after_unresolved _ _ _ _ _ _ Hl Hc Hres).
    + by rewrite (add_before_unresolved _ _ _ _ _ _ Hl Hc Hres).
Qed.

Lemma add_by_name_witness :
  let unknown := Raise (Exception ("'" +:+ "b" +:+ "' is not in the list")) in
  wp (DoublyLinkedList.add_after 5%positive (ByName "b") 4%positive)
    (three_in_list None) (λ o s',
    match first_named (three_in_list None) "b" [1; 2; 3]%positive with
    | Some (i, _) =>
      o = Ret tt ∧
      dll_inv s' 5%positive
        (take (S i) [1; 2; 3]%positive ++ 4%positive :: drop (S i) [1; 2; 3]%positive) ∧
      dll_frame 5%positive (three_in_list None) s'
    | None => o = unknown ∧ s' = three_in_list None
    end) ∧
  wp (DoublyLinkedList.add_before 5%positive (ByName "b") 4%positive)
    (three_in_list None) (λ o s',
    match first_named (three_in_list None) "b" [1; 2; 3]%positive with
    | Some (i, _) =>
      o = Ret tt ∧
      dll_inv s' 5%positive
        (take i [1; 2; 3]%positive ++ 4%positive :: drop i [1; 2; 3]%positive) ∧
      dll_frame 5%positive (three_in_list None) s'
    | None => o = unknown ∧ s' = three_in_list None
    end).
Proof.
  apply (add_by_name (three_in_list None) 5%positive [1; 2; 3]%positive "b" 4%positive).
  - by_check.
  - exists (DLL.mk (Some 1%positive) (Some 3%positive) 3 None).
    split; [reflexivity|discriminate].
  - vm_compute. by eexists.
  - compute_done.
Defined.

(** X11.  [add_at_index(index, new_node)] on a list with room left: for
    [0 <= index <= size] the new node ends up at position [index] and the
    nodes that were at [index] and after it move up by one; any other
    index raises [Exception("Invalid index")] and changes nothing. *)
Theorem add_at_index_places s self ls i n :
  dll_inv s self ls → has_room s self → is_node s n → n ∉ ls →
  wp (DoublyLinkedList.add_at_index self i n) s (λ o s',
    if bool_decide (0 ≤ i ≤ Z.of_nat (length ls)) then
      o = Ret tt ∧ dll_inv s' self (insert_at (Some i) n ls) ∧
      contents s' self = insert_at (Some i) n ls ∧
      dll_frame self s s' ∧ nodes_kept (n :: ls) s s'
    else o = Raise (Exception "Invalid index") ∧ s' = s).
Proof.
  intros Hinv (l & Hl & Hc) Hn Hnew.
  destruct (decide (0 ≤ i ≤ Z.of_nat (length ls))) as [Hi|Hi].
  - rewrite bool_decide_eq_true_2 by done.
    eapply wp_mono; [by eapply add_at_index_ok|]. cbv beta.
    intros o s' (-> & Hinv' & Hfr & Hk). split_and!; try done. by apply contents_ok.
  - rewrite bool_decide_eq_false_2 by done. unfold wp.
    rewrite (add_at_index_invalid _ _ l); [done..|].
    rewrite (dll_inv_size _ _ _ _ Hinv Hl). lia.
Qed.

Lemma add_at_index_places_witness :
  wp (DoublyLinkedList.add_at_index 5%positive 1 4%positive) (three_in_list None)
    (λ o s',
    if bool_decide (0 ≤ 1 ≤ Z.of_nat (length [1; 2; 3]%positive)) then
      o = Ret tt ∧ dll_inv s' 5%positive (insert_at (Some 1) 4%positive [1; 2; 3]%positive) ∧
      contents s' 5%positive = insert_at (Some 1) 4%positive [1; 2; 3]%positive ∧
      dll_frame 5%positive (three_in_list None) s' ∧
      nodes_kept (4 :: [1; 2; 3])%positive (three_in_list None) s'
    else o = Raise (Exception "Invalid index") ∧ s' = three_in_list None).
Proof.
  apply (add_at_index_places (three_in_list None) 5%positive [1; 2; 3]%positive 1
           4%positive).
  - by_check.
  - exists (DLL.mk (Some 1%positive) (Some 3%positive) 3 None).
    split; [reflexivity|discriminate].
  - vm_compute. by eexists.
  - compute_done.
Defined.

(** X12.  On a list at its capacity, [add_after], [add_before] and
    [add_at_index] print that the capacity is reached and return without
    changing the list, whatever the anchor or the index: the capacity is
    checked before the arguments are. *)
Theorem insert_rejected_at_capacity s self a i n :
  is_full s self →
  let s' := printed [msg_capacity] s in
  DoublyLinkedList.add_after self a n s = (Ret tt, s') ∧
  DoublyLinkedList.add_before self a n s = (Ret tt, s') ∧
  DoublyLinkedList.add_at_index self i n s = (Ret tt, s') ∧
  lists s' = lists s ∧ nodes s' = nodes s.
Proof.
  intros (l & Hl & Hc) s'.
  split_and!; try done; by eapply add_full.
Qed.

Lemma insert_rejected_at_capacity_witness :
  let s' := printed [msg_capacity] (three_in_list (Some 3)) in
  DoublyLinkedList.add_after 5%positive (ByName "z") 4%positive (three_in_list (Some 3))
  = (Ret tt, s') ∧
  DoublyLinkedList.add_before 5%positive (ByName "z") 4%positive (three_in_list (Some 3))
  = (Ret tt, s') ∧
  DoublyLinkedList.add_at_index 5%positive 7 4%positive (three_in_list (Some 3))
  = (Ret tt, s') ∧
  lists s' = lists (three_in_list (Some 3)) ∧ nodes s' = nodes (three_in_list (Some 3)).
Proof.
  apply (insert_rejected_at_capacity (three_in_list (Some 3)) 5%positive (ByName "z") 7
           4%positive).
  exists (DLL.mk (Some 1%positive) (Some 3%positive) 3 (Some 3)).
  split; reflexivity.
Defined.

(** X13.  [push] followed by [pop] gives the pushed node back and leaves
    the list with the nodes it had, in their order. *)
Theorem push_pop_round_trip s self ls n :
  dll_inv s self ls → has_room s self → is_node s n → n ∉ ls →
  wp (DoublyLinkedList.push self n >> DoublyLinkedList.pop self) s (λ o s',
    o = Ret (Some n) ∧ dll_inv s' self ls ∧ contents s' self = contents s self ∧
    detached s' n ∧ dll_frame self s s').
Proof.
  intros Hinv (l & Hl & Hc) Hn Hnew.
  apply wp_bind. eapply wp_mono; [by eapply push_ok|]. cbv beta.
  intros o s1 (-> & Hinv1 & Hfr1 & Hk1).
  eapply wp_mono; [by eapply pop_ok|]. cbv beta.
  intros o s2 (-> & Hinv2 & Hfr2 & Hk2 & Hd). split_and!; try done.
  - by rewrite (contents_ok _ _ _ Hinv2), (contents_ok _ _ _ Hinv).
  - by eapply dll_frame_trans.
Qed.

Lemma push_pop_round_trip_witness :
  wp (DoublyLinkedList.push 5%positive 4%positive >> DoublyLinkedList.pop 5%positive)
    (three_in_list None) (λ o s',
    o = Ret (Some 4%positive) ∧ dll_inv s' 5%positive [1; 2; 3]%positive ∧
    contents s' 5%positive = contents (three_in_list None) 5%positive ∧
    detached s' 4%positive ∧ dll_frame 5%positive (three_in_list None) s').
Proof.
  apply (push_pop_round_trip (three_in_list None) 5%positive [1; 2; 3]%positive
           4%positive).
  - by_check.
  - exists (DLL.mk (Some 1%positive) (Some 3%positive) 3 None).
    split; [reflexivity|discriminate].
  - vm_compute. by eexists.
  - compute_done.
Defined.

(** X14.  A list that is within its capacity stays within it: after any
    sequence of push / push_front / pop / pop_front / remove / add_after /
    add_before / add_at_index (with [remove] and node anchors applied to
    nodes of the list, and inserted nodes not already in it), [size] is
    at most [capacity], and [size] is the number of nodes the list
    holds. *)
Theorem capacity_never_exceeded s self ls ops :
  dll_inv s self ls → within_capacity s self → run_ok true s self ops →
  let s' := run_ops self ops s in
  within_capacity s' self ∧
  ∃ l, lists s' !! self = Some l ∧ DLL.size l = Z.of_nat (length (contents s' self)).
Proof.
  intros Hinv Hcap Hok s'.
  destruct (run_ops_within _ _ _ _ Hinv Hcap Hok) as (ls' & Hinv' & Hcap').
  subst s'. split; [done|]. destruct Hcap' as (l & Hl & _). exists l. split; [done|].
  rewrite (contents_ok _ _ _ Hinv'). by eapply dll_inv_size.
Qed.

Lemma capacity_never_exceeded_witness :
  let s' := run_ops 5%positive
              [Pop; Push 4%positive; Push 3%positive; PushFront 3%positive;
               AddAtIndex 0 3%positive; Remove 1%positive; AddAfter (ByName "b") 3%positive;
               AddBefore (ByName "b") 1%positive]
              (three_in_list (Some 3)) in
  within_capacity s' 5%positive ∧
  ∃ l, lists s' !! 5%positive = Some l ∧
       DLL.size l = Z.of_nat (length (contents s' 5%positive)).
Proof.
  apply (capacity_never_exceeded (three_in_list (Some 3)) 5%positive [1; 2; 3]%positive).
  - by_check.
  - exists (DLL.mk (Some 1%positive) (Some 3%positive) 3 (Some 3)).
    split; [reflexivity|]. intros c [= <-]. simpl. lia.
  - vm_compute. repeat split; try (by eexists); try (by repeat constructor);
      intros _ H; repeat (inversion H as [|? ? ? H']; clear H; try rename H' into H).
Defined.

(** ** [Single_Page_Container] *)

(** X15.  [add_item(item, position)] on a page (or dock) with room left
    puts the item at the end, or at index [position] when one is given,
    and makes the page the item's [parent]; nothing else of the item, of
    the page or of any other container changes. *)
Theorem page_add_item s page pg its item position :
  spcs s !! page = Some pg → dll_inv s (SPC._items pg) its →
  has_room s (SPC._items pg) → is_node s item → item ∉ its →
  valid_position position its →
  wp (Single_Page_Container.add_item page item position) s (λ o s',
    o = Ret tt ∧ dll_inv s' (SPC._items pg) (insert_at position item its) ∧
    parent s' = <[item := Some page]> (parent s) ∧
    spcs s' = spcs s ∧ mpcs s' = mpcs s ∧ homes s' = homes s ∧
    nodes_kept (item :: its) s s').
Proof.
  intros Hpg Hinv Hroom Hn Hnew Hpos.
  eapply wp_mono; [by eapply spc_add_item_ok|]. cbv beta.
  intros o s' (-> & Hinv' & (Ep&_&Es&Em&Eh&_) & Hk). by split_and!.
Qed.

Lemma page_add_item_witness :
  wp (Single_Page_Container.add_item 6%positive 13%positive (Some 1)) two_pages (λ o s',
    o = Ret tt ∧
    dll_inv s' (SPC._items (SPC.mk 7%positive (Some 1%positive) "page"))
      (insert_at (Some 1) 13%positive [8; 9]%positive) ∧
    parent s' = <[13%positive := Some 6%positive]> (parent two_pages) ∧
    spcs s' = spcs two_pages ∧ mpcs s' = mpcs two_pages ∧ homes s' = homes two_pages ∧
    nodes_kept (13 :: [8; 9])%positive two_pages s').
Proof.
  apply (page_add_item two_pages 6%positive (SPC.mk 7%positive (Some 1%positive) "page")
           [8; 9]%positive 13%positive (Some 1)).
  - reflexivity.
  - by_check.
  - exists (DLL.mk (Some 8%positive) (Some 9%positive) 2 (Some 3)).
    split; [reflexivity|discriminate].
  - vm_compute. by eexists.
  - compute_done.
  - simpl. lia.
Defined.

(** X16.  [remove_item(item)] on the page that holds the item returns it,
    takes it off the page while the other items keep their order, clears
    its links and sets its [parent] to [None].  On an empty page
    [remove_item] and [remove_last_item] raise [AttributeError] (the list
    hands back [None], whose [parent] is then assigned) and change
    nothing. *)
Theorem page_remove_item s page pg :
  spcs s !! page = Some pg →
  (∀ l1 x l2, dll_inv s (SPC._items pg) (l1 ++ x :: l2) →
     wp (Single_Page_Container.remove_item page x) s (λ o s',
       o = Ret x ∧ dll_inv s' (SPC._items pg) (l1 ++ l2) ∧ detached s' x ∧
       parent s' = <[x := None]> (parent s) ∧
       spcs s' = spcs s ∧ mpcs s' = mpcs s ∧ homes s' = homes s)) ∧
  (dll_inv s (SPC._items pg) [] →
     ∀ item,
       Single_Page_Container.remove_item page item s = (Raise AttributeError, s) ∧
       Single_Page_Container.remove_last_item page s = (Raise AttributeError, s)).
Proof.
  intros Hpg. split.
  - intros l1 x l2 Hinv.
    eapply wp_mono; [by eapply spc_remove_item_ok|]. cbv beta.
    intros o s' (-> & Hinv' & Hd & (s1 & (Ep&_&Es&Em&Eh&_) & ->) & Hk).
    store_simpl. split_and!; try done. by rewrite Ep.
  - intros Hinv item. by eapply spc_remove_empty.
Qed.

Lemma page_remove_item_witness :
  wp (Single_Page_Container.remove_item 6%positive 8%positive) two_pages (λ o s',
    o = Ret 8%positive ∧
    dll_inv s' (SPC._items (SPC.mk 7%positive (Some 1%positive) "page"))
      ([] ++ [9%positive]) ∧
    detached s' 8%positive ∧
    parent s' = <[8%positive := None]> (parent two_pages) ∧
    spcs s' = spcs two_pages ∧ mpcs s' = mpcs two_pages ∧
    homes s' = homes two_pages) ∧
  Single_Page_Container.remove_item 3%positive 9%positive full_page_with_room
  = (Raise AttributeError, full_page_with_room) ∧
  Single_Page_Container.remove_last_item 3%positive full_page_with_room
  = (Raise AttributeError, full_page_with_room).
Proof.
  split.
  - destruct (page_remove_item two_pages 6%positive
                (SPC.mk 7%positive (Some 1%positive) "page")) as [H _]; [reflexivity|].
    apply (H [] 8%positive [9%positive]). by_check.
  - destruct (page_remove_item full_page_with_room 3%positive
                (SPC.mk 4%positive (Some 1%positive) "dock")) as [_ H]; [reflexivity|].
    apply H. by_check.
Defined.



(** ** [Multi_Page_Container] *)

(** X18.  [_add_item(item)] without a page, when the last page of the
    container is not full, puts the item at the end of the last page and
    makes that page its parent; the list of pages is unchanged, no page is
    created, and a position given with the call is ignored. *)
Theorem container_add_item_last_page s self m li before last pg its item position :
  mpcs s !! self = Some m →
  dll_inv s (MPC._pages m) (before ++ [last]) →
  spcs s !! last = Some pg →
  dll_inv s (SPC._items pg) its →
  lists s !! SPC._items pg = Some li →
  DLL.size li ≠ MPC.page_capacity m →
  DLL.capacity li ≠ Some (DLL.size li) →
  is_node s item → item ∉ its →
  SPC._items pg ≠ MPC._pages m →
  (∀ x, x ∈ item :: its → x ∉ before ++ [last]) →
  wp (Multi_Page_Container._add_item self item None position) s (λ o s',
    o = Ret None ∧ dll_inv s' (SPC._items pg) (its ++ [item]) ∧
    parent s' = <[item := Some last]> (parent s) ∧
    dll_inv s' (MPC._pages m) (before ++ [last]) ∧
    spcs s' = spcs s ∧ next_loc s' = next_loc s).
Proof.
  intros Hm Hpages Hpg Hitems Hli Hsz Hroom Hnode Hnew Hne Hdisj.
  pose proof Hpages as (lp & Hlp & _ & _ & Htl & _).
  rewrite last_snoc in Htl.
  unfold Multi_Page_Container._add_item. wp_spc. wp_unfold.
  do 4 wp_step. rewrite Htl. do 8 wp_step.
  rewrite bool_decide_eq_false_2 by done. do 3 wp_step.
  rewrite Htl. do 2 wp_step.
  wp_apply (spc_add_item_ok s last pg its item None); try done; [by exists li|].
  intros o s' (-> & Hinv' & Hfr & Hk). wp_step.
  pose proof Hfr as (Ep&_&Es&_&_&En&_&Hl&_).
  split_and!; try done.
  eapply dll_inv_ext; [exact Hpages|by rewrite Hl|].
  intros x Hx. apply Hk. intros Hx'. by apply (Hdisj x).
Qed.

Lemma container_add_item_last_page_witness :
  wp (Multi_Page_Container._add_item 1%positive 13%positive None (Some 0)) two_pages
    (λ o s',
    o = Ret None ∧
    dll_inv s' (SPC._items (SPC.mk 12%positive (Some 1%positive) "page"))
      ([10%positive] ++ [13%positive]) ∧
    parent s' = <[13%positive := Some 11%positive]> (parent two_pages) ∧
    dll_inv s' (MPC._pages (MPC.mk 3 1 3 (Some 5) 2%positive (Some 15) "home"))
      ([6%positive] ++ [11%positive]) ∧
    spcs s' = spcs two_pages ∧ next_loc s' = next_loc two_pages).
Proof.
  apply (container_add_item_last_page two_pages 1%positive
           (MPC.mk 3 1 3 (Some 5) 2%positive (Some 15) "home")
           (DLL.mk (Some 10%positive) (Some 10%positive) 1 (Some 3))
           [6%positive] 11%positive (SPC.mk 12%positive (Some 1%positive) "page")
           [10%positive] 13%positive (Some 0)).
  - reflexivity.
  - by_check.
  - reflexivity.
  - by_check.
  - reflexivity.
  - discriminate.
  - discriminate.
  - vm_compute. by eexists.
  - compute_done.
  - discriminate.
  - apply Forall_forall. compute_done.
Defined.

(** X19.  [_add_item(item)] without a page, when the container has no
    page or its last page holds [page_capacity] items, and one more page
    is allowed: a new page holding exactly the item is created and
    appended to the list of pages; the item's parent is the new page and
    the call returns the item. *)
Theorem container_add_item_new_page s self m lp pgs item position :
  mpcs s !! self = Some m →
  dll_inv s (MPC._pages m) pgs →
  lists s !! MPC._pages m = Some lp →
  match last pgs with
  | None => True
  | Some t => ∃ pg li, spcs s !! t = Some pg ∧ lists s !! SPC._items pg = Some li ∧
                       DLL.size li = MPC.page_capacity m
  end →
  DLL.capacity lp = MPC.max_pages m →
  (∀ mp, MPC.max_pages m = Some mp → DLL.size lp < mp) →
  0 < MPC.page_capacity m →
  is_node s item → item ∉ pgs →
  Forall (allocated s) (item :: MPC._pages m :: pgs) →
  wp (Multi_Page_Container._add_item self item None position) s (λ o s',
    let new_page := next_loc s in
    o = Ret (Some item) ∧
    dll_inv s' (MPC._pages m) (pgs ++ [new_page]) ∧
    (∃ npg, spcs s' !! new_page = Some npg ∧ SPC.parent_container npg = Some self ∧
            dll_inv s' (SPC._items npg) [item]) ∧
    parent s' !! item = Some (Some new_page) ∧
    (∀ x, x ≠ new_page → spcs s' !! x = spcs s !! x)).
Proof.
  intros Hm Hpages Hlp Hlast Hcap Hspare Hpc Hnode Hnew Halloc.
  set (np := next_loc s). set (nl := Pos.succ np).
  apply Forall_cons in Halloc as [Ha_item Halloc].
  apply Forall_cons in Halloc as [Ha_pl Ha_pages].
  rewrite Forall_forall in Ha_pages.
  unfold allocated in *. fold np in Ha_item, Ha_pl, Ha_pages.
  assert (np ∉ pgs) as Hnp by (intros Hx%Ha_pages; lia).
  assert (item ≠ np) by lia. assert (MPC._pages m ≠ nl) by (unfold nl; lia).
  assert (DLL.capacity lp ≠ Some (DLL.size lp)) as Hroom.
  { rewrite Hcap. intros Hmp. specialize (Hspare _ Hmp). lia. }
  pose proof Hpages as (lp' & Hlp' & _ & _ & Htl & _).
  assert (lp' = lp) as -> by congruence.
  unfold Multi_Page_Container._add_item. wp_spc. wp_unfold.
  do 4 wp_step. wp_step.
  assert (wp (match DLL.tail lp with
              | Some t =>
                let* sz := let* l := getattr spcs SPC._items (Some t) in
                           getattr lists DLL.size (Some l) in
                let* c := getattr mpcs MPC.page_capacity (Some self) in
                ret (bool_decide (sz = c))
              | None => ret true
              end) s (λ o s', o = Ret true ∧ s' = s)) as Hfull.
  { rewrite Htl. destruct (last pgs) as [t|]; [|by wp_step].
    destruct Hlast as (pg & li & Hpg & Hli & Hsz).
    repeat wp_step. by rewrite bool_decide_eq_true_2 by done. }
  eapply wp_mono; [exact Hfull|]. cbv beta. intros o s' [-> ->].
  cbv beta match. wp_step.
  eapply wp_returns; [by eapply spare_page_true|]. cbv beta match.
  do 3 wp_step.
  wp_apply page_init_ok; [done..|]. fold np. fold nl.
  intros o s2 (-> & Hnl2 & Es2 & Ep2 & En2 & Ec2 & Em2 & Eh2 & Eo2 & Hl2 & Hn2 & Hnp2).
  assert (dll_inv s2 (MPC._pages m) pgs) as Hpl2.
  { eapply dll_inv_ext; [done|by apply Hl2|]. intros x Hx. apply Hn2.
    - intros ->. done.
    - intros ->. done. }
  assert (lists s2 !! MPC._pages m = Some lp) as Hlp2 by (by rewrite Hl2).
  cbv beta match. wp_step.
  wp_apply (push_ok s2 (MPC._pages m) pgs lp np); try done.
  intros o s3 (-> & Hpl3 & Hfr3 & Hk3). wp_step.
  pose proof Hfr3 as (Ep3&Ec3&Es3&Em3&Eh3&En3&Eo3&Hl3&Hcap3&Hnm3).
  split_and!; try done.
  - exists (SPC.mk nl (Some self) "page"). split_and!.
    + rewrite Es3, Es2. apply lookup_insert_eq.
    + done.
    + simpl. eapply dll_inv_frame; [exact Hnl2|exact Hfr3|exact Hk3|done|].
      intros x ->%list_elem_of_singleton [->|Hx']%elem_of_cons; done.
  - rewrite Ep3, Ep2. apply lookup_insert_eq.
  - intros x Hx. rewrite Es3, Es2. by apply lookup_insert_ne.
Qed.

Lemma container_add_item_new_page_witness :
  wp (Multi_Page_Container._add_item 1%positive 9%positive None None) full_page_with_room
    (λ o s',
    let new_page := next_loc full_page_with_room in
    o = Ret (Some 9%positive) ∧
    dll_inv s' (MPC._pages (MPC.mk 2 1 2 (Some 5) 2%positive (Some 10) "home"))
      ([6%positive] ++ [new_page]) ∧
    (∃ npg, spcs s' !! new_page = Some npg ∧
            SPC.parent_container npg = Some 1%positive ∧
            dll_inv s' (SPC._items npg) [9%positive]) ∧
    parent s' !! 9%positive = Some (Some new_page) ∧
    (∀ x, x ≠ new_page → spcs s' !! x = spcs full_page_with_room !! x)).
Proof.
  apply (container_add_item_new_page full_page_with_room 1%positive
           (MPC.mk 2 1 2 (Some 5) 2%positive (Some 10) "home")
           (DLL.mk (Some 6%positive) (Some 6%positive) 1 (Some 5))
           [6%positive] 9%positive None).
  - reflexivity.
  - by_check.
  - reflexivity.
  - exists (SPC.mk 7%positive (Some 1%positive) "page"),
      (DLL.mk (Some 5%positive) (Some 8%positive) 2 (Some 2)).
    split_and!; reflexivity.
  - reflexivity.
  - intros mp [= <-]. reflexivity.
  - reflexivity.
  - vm_compute. by eexists.
  - compute_done.
  - unfold allocated. compute_done.
Defined.

(** X20.  [_remove_item(item)], for an item on a page of the container:
    the item is taken off its page, its links are cleared and its parent
    set to [None], and the item is returned.  A page left empty is taken
    out of the list of pages; a page that still holds items stays where it
    is. *)
Theorem container_remove_item s self m page pg before after l1 item l2 :
  mpcs s !! self = Some m →
  parent s !! item = Some (Some page) →
  spcs s !! page = Some pg →
  dll_inv s (SPC._items pg) (l1 ++ item :: l2) →
  dll_inv s (MPC._pages m) (before ++ page :: after) →
  SPC._items pg ≠ MPC._pages m →
  (∀ x, x ∈ l1 ++ item :: l2 → x ∉ before ++ page :: after) →
  wp (Multi_Page_Container._remove_item self (Some item)) s (λ o s',
    o = Ret (Some item) ∧
    dll_inv s' (SPC._items pg) (l1 ++ l2) ∧
    parent s' = <[item := None]> (parent s) ∧ detached s' item ∧
    dll_inv s' (MPC._pages m)
      (if bool_decide (l1 ++ l2 = []) then before ++ after
       else before ++ page :: after) ∧
    spcs s' = spcs s).
Proof.
  intros Hm Hpar Hpg Hitems Hpages Hne Hdisj.
  unfold Multi_Page_Container._remove_item.
  rewrite bool_decide_eq_true_2 by done. wp_spc. wp_unfold.
  do 6 wp_step.
  wp_apply spc_remove_item_ok; [done..|].
  intros o s2 (-> & Hil2 & Hd2 & (s1 & Hfr1 & ->) & Hk2).
  pose proof Hfr1 as (Ep1&Ec1&Es1&Em1&Eh1&En1&Eo1&Hl1&Hcap1&Hnm1).
  set (s2 := set_parent (<[item := None]> (parent s1)) s1) in *.
  assert (dll_inv s2 (MPC._pages m) (before ++ page :: after)) as Hpl2.
  { eapply dll_inv_ext; [exact Hpages|by apply Hl1|].
    intros x Hx. apply Hk2. intros Hx'. by apply (Hdisj x). }
  pose proof Hil2 as (li2 & Hli2 & _ & _ & _ & Hsz2 & _).
  assert (spcs s2 !! page = Some pg) as Hpg2 by (by rewrite <- Es1 in Hpg).
  assert (mpcs s2 !! self = Some m) as Hm2 by (by rewrite <- Em1 in Hm).
  assert (parent s2 = <[item := None]> (parent s)) as Ep2 by (by rewrite <- Ep1).
  assert (spcs s2 = spcs s) as Es2 by done.
  clearbody s2.
  do 5 wp_step. rewrite Hsz2.
  destruct (decide (l1 ++ l2 = [])) as [Hempty|Hnonempty].
  - rewrite Hempty. simpl.
    do 2 wp_step.
    wp_apply remove_ok; [done|].
    intros o s3 (-> & Hpl3 & Hfr3 & Hk3 & _). do 2 wp_step.
    pose proof Hfr3 as (Ep3&Ec3&Es3&Em3&Eh3&En3&Eo3&Hl3&Hcap3&Hnm3).
    assert (item ∉ before ++ page :: after) as Hitem
      by (apply Hdisj; set_solver).
    split_and!; try done.
    + rewrite Hempty in Hil2.
      eapply dll_inv_ext; [exact Hil2|by apply Hl3|]. intros x Hx. set_solver.
    + by rewrite Ep3.
    + unfold detached. rewrite (Hk3 item) by done. exact Hd2.
    + by rewrite Es3.
  - rewrite (bool_decide_eq_false_2 (l1 ++ l2 = [])) by done.
    rewrite bool_decide_eq_false_2.
    2:{ destruct (l1 ++ l2); [done|]. simpl. lia. }
    do 2 wp_step. by split_and!.
Qed.

Lemma container_remove_item_witness :
  wp (Multi_Page_Container._remove_item 1%positive (Some 10%positive)) two_pages
    (λ o s',
    o = Ret (Some 10%positive) ∧
    dll_inv s' (SPC._items (SPC.mk 12%positive (Some 1%positive) "page")) ([] ++ []) ∧
    parent s' = <[10%positive := None]> (parent two_pages) ∧ detached s' 10%positive ∧
    dll_inv s' (MPC._pages (MPC.mk 3 1 3 (Some 5) 2%positive (Some 15) "home"))
      (if bool_decide ([] ++ [] = ([] : list loc)) then [6%positive] ++ []
       else [6%positive] ++ 11%positive :: []) ∧
    spcs s' = spcs two_pages).
Proof.
  apply (container_remove_item two_pages 1%positive
           (MPC.mk 3 1 3 (Some 5) 2%positive (Some 15) "home")
           11%positive (SPC.mk 12%positive (Some 1%positive) "page")
           [6%positive] [] [] 10%positive []).
  - reflexivity.
  - reflexivity.
  - reflexivity.
  - by_check.
  - by_check.
  - discriminate.
  - apply Forall_forall. compute_done.
Defined.

(** X21.  [add_item_at_page] with a page whose [parent_container] is not
    this container prints that the page does not belong to it and returns:
    neither the page nor the item is touched. *)
Theorem add_item_at_foreign_page s self item page pg position :
  spcs s !! page = Some pg → SPC.parent_container pg ≠ Some self →
  Multi_Page_Container.add_item_at_page self item page position s
  = (Ret tt, printed [Multi_Page_Container.msg_wrong_container] s).
Proof.
  intros Hpg Hne. apply wp_eq.
  unfold Multi_Page_Container.add_item_at_page. wp_spc. wp_unfold.
  by repeat wp_step.
Qed.

Lemma add_item_at_foreign_page_witness :
  Multi_Page_Container.add_item_at_page 2%positive 13%positive 6%positive None two_pages
  = (Ret tt, printed [Multi_Page_Container.msg_wrong_container] two_pages).
Proof.
  apply (add_item_at_foreign_page two_pages 2%positive 13%positive 6%positive
           (SPC.mk 7%positive (Some 1%positive) "page") None).
  - reflexivity.
  - discriminate.
Defined.

(** X22.  [remove_page(page)] removes a page only when it belongs to the
    container and is empty: a page of another container, or a page that
    holds items, is left alone and nothing changes; an empty page of the
    container is taken out of the list of pages, the other pages keeping
    their order. *)
Theorem remove_page_only_when_empty s self m page pg li :
  mpcs s !! self = Some m → spcs s !! page = Some pg →
  lists s !! SPC._items pg = Some li →
  (SPC.parent_container pg ≠ Some self ∨ DLL.size li > 0 →
   Multi_Page_Container.remove_page self page s = (Ret tt, s)) ∧
  (∀ before after,
     SPC.parent_container pg = Some self → DLL.size li = 0 →
     dll_inv s (MPC._pages m) (before ++ page :: after) →
     wp (Multi_Page_Container.remove_page self page) s (λ o s',
       o = Ret tt ∧ dll_inv s' (MPC._pages m) (before ++ after) ∧
       detached s' page ∧ dll_frame (MPC._pages m) s s')).
Proof.
  intros Hm Hpg Hli. split.
  - intros Hrefuse. apply wp_eq.
    unfold Multi_Page_Container.remove_page. wp_spc. wp_unfold. do 2 wp_step.
    destruct (decide (SPC.parent_container pg = Some self)) as [Hown|Hforeign].
    + destruct Hrefuse as [?|Hsz]; [done|].
      rewrite bool_decide_eq_false_2 by (intros ?; done).
      by repeat wp_step.
    + rewrite bool_decide_eq_true_2 by done. by wp_step.
  - intros before after Hown Hsz Hpages.
    unfold Multi_Page_Container.remove_page. wp_spc. wp_unfold. do 2 wp_step.
    rewrite bool_decide_eq_false_2 by (intros ?; done).
    repeat wp_step.
    wp_apply remove_ok; [done|].
    intros o s' (-> & Hinv' & Hfr & Hk & Hd). by wp_step.
Qed.

Lemma remove_page_only_when_empty_witness :
  Multi_Page_Container.remove_page 1%positive 6%positive two_pages = (Ret tt, two_pages) ∧
  wp (Multi_Page_Container.remove_page 1%positive 6%positive) empty_page (λ o s',
    o = Ret tt ∧
    dll_inv s' (MPC._pages (MPC.mk 3 4 12 (Some 5) 2%positive (Some 60) "home"))
      ([] ++ []) ∧
    detached s' 6%positive ∧
    dll_frame (MPC._pages (MPC.mk 3 4 12 (Some 5) 2%positive (Some 60) "home"))
      empty_page s').
Proof.
  split.
  - destruct (remove_page_only_when_empty two_pages 1%positive
                (MPC.mk 3 1 3 (Some 5) 2%positive (Some 15) "home") 6%positive
                (SPC.mk 7%positive (Some 1%positive) "page")
                (DLL.mk (Some 8%positive) (Some 9%positive) 2 (Some 3))) as [H _];
      [reflexivity..|].
    apply H. right. simpl. lia.
  - destruct (remove_page_only_when_empty empty_page 1%positive
                (MPC.mk 3 4 12 (Some 5) 2%positive (Some 60) "home") 6%positive
                (SPC.mk 7%positive (Some 1%positive) "page")
                (DLL.mk None None 0 (Some 12))) as [_ H];
      [vm_compute; reflexivity..|].
    apply (H [] []); [reflexivity|reflexivity|by_check].
Defined.

(** ** [Home] *)

(** X23.  [add_app(name)] registers nothing when the name is taken by an
    app or by a folder, or when the home screen already holds [max_apps]
    apps: it prints one message and returns, and nothing else changes. *)
Theorem add_app_rejected s self h m name :
  homes s !! self = Some h → mpcs s !! self = Some m →
  is_Some (HOME._apps h !! name) ∨ is_Some (HOME._folders h !! name) ∨
  (∃ n, MPC.max_apps m = Some n ∧ n ≠ 0 ∧ Z.of_nat (size (HOME._apps h)) = n) →
  ∃ msg, Home.add_app self name s = (Ret tt, printed [msg] s).
Proof.
  intros Hh Hm Hcase.
  destruct (decide (is_Some (HOME._apps h !! name))) as [Happ|Happ].
  { eexists. apply wp_eq. unfold Home.add_app. wp_home. wp_spc. wp_unfold.
    by repeat wp_step. }
  destruct (decide (is_Some (HOME._folders h !! name))) as [Hfol|Hfol].
  { eexists. apply wp_eq. unfold Home.add_app. wp_home. wp_spc. wp_unfold.
    by repeat wp_step. }
  destruct Hcase as [?|[?|(n & Hn & Hn0 & Hsz)]]; [done..|].
  eexists. apply wp_eq. unfold Home.add_app. wp_home. wp_spc. wp_unfold.
  do 8 wp_step. rewrite Hn. unfold truthy.
  rewrite bool_decide_eq_true_2 by done.
  rewrite bool_decide_eq_true_2 by (by rewrite Hsz).
  cbn [andb]. by repeat wp_step.
Qed.

Lemma add_app_rejected_witness :
  ∃ msg, Home.add_app 1%positive "Maps" default_home
         = (Ret tt, printed [msg] default_home).
Proof.
  apply (add_app_rejected default_home 1%positive
           (default (HOME.mk ∅ 1%positive ∅ []) (homes default_home !! 1%positive))
           (MPC.mk 3 4 12 (Some 5) 2%positive (Some 60) "home") "Maps").
  - vm_compute. reflexivity.
  - vm_compute. reflexivity.
  - left. vm_compute. by eexists.
Defined.

(** X24.  [delete_app] on an app whose [can_delete] is [False], given by
    name or as an object, prints that the app must stay and returns: the
    app stays registered, stays where it is and keeps running if it
    was. *)
Theorem delete_app_protected s self h app a nd :
  homes s !! self = Some h → app_named h app a →
  nodes s !! a = Some nd → can_delete s !! a = Some false →
  Home.delete_app self app s
  = (Ret tt, printed [Home.msg_not_deletable (Node.name nd)] s).
Proof.
  intros Hh Href Hnd Hcd. apply wp_eq. unfold Home.delete_app. wp_step.
  assert (wp (match app with
              | Str s => Home.get_app self s
              | Obj o => ret (Some o)
              end) s (λ o s', o = Ret (Some a) ∧ s' = s)) as Hres.
  { destruct app as [name|o]; simpl in Href.
    - eapply wp_returns; [by eapply get_app_known|done].
    - subst. by wp_step. }
  eapply wp_mono; [exact Hres|]. cbv beta. intros o s' [-> ->]. cbv beta match.
  wp_unfold. repeat wp_step. cbn [negb]. by repeat wp_step.
Qed.

Lemma delete_app_protected_witness :
  Home.delete_app 1%positive (Str "Phone") default_home
  = (Ret tt,
     printed ["Phone app is not allowed to be deleted and must stay on iPhone"]
       default_home).
Proof.
  apply (delete_app_protected default_home 1%positive
           (default (HOME.mk ∅ 1%positive ∅ []) (homes default_home !! 1%positive))
           (Str "Phone") 5%positive (Node.mk "Phone" (Some 8%positive) None)).
  - vm_compute. reflexivity.
  - vm_compute. reflexivity.
  - vm_compute. reflexivity.
  - vm_compute. reflexivity.
Defined.



(** X26.  [move_item_between_pages] with a page index that is negative or
    larger than the number of pages prints "Invalid Index" and returns;
    apart from what was printed nothing changes, whatever the item is. *)
Theorem move_between_pages_invalid_index s self h m lp item page_idx position :
  homes s !! self = Some h → mpcs s !! self = Some m →
  lists s !! MPC._pages m = Some lp → 0 ≤ DLL.size lp →
  page_idx < 0 ∨ page_idx > DLL.size lp →
  ∃ msgs,
    Home.move_item_between_pages self item page_idx position s
    = (Ret tt, printed (msgs ++ ["Invalid Index"]) s).
Proof.
  intros Hh Hm Hlp Hsz Hidx.
  destruct (resolve_item_state s self h item Hh) as (r & msgs & Hr).
  exists msgs. apply wp_eq. unfold Home.move_item_between_pages.
  wp_step. eapply wp_returns; [exact Hr|]. cbv beta match.
  wp_spc. wp_unfold. do 4 wp_step.
  assert (bool_decide (page_idx < DLL.size lp) && bool_decide (page_idx >= 0) = false)
    as ->.
  { apply andb_false_iff. destruct (decide (page_idx < 0)).
    - right. by apply bool_decide_eq_false_2; lia.
    - left. by apply bool_decide_eq_false_2; lia. }
  rewrite bool_decide_eq_false_2 by lia.
  repeat wp_step. by rewrite <- app_assoc.
Qed.

Lemma move_between_pages_invalid_index_witness :
  ∃ msgs,
    Home.move_item_between_pages 1%positive (Str "B") 3 None two_pages
    = (Ret tt, printed (msgs ++ ["Invalid Index"]) two_pages).
Proof.
  apply (move_between_pages_invalid_index two_pages 1%positive
           (default (HOME.mk ∅ 1%positive ∅ []) (homes two_pages !! 1%positive))
           (MPC.mk 3 1 3 (Some 5) 2%positive (Some 15) "home")
           (DLL.mk (Some 6%positive) (Some 11%positive) 2 (Some 5))
           (Str "B") 3 None).
  - vm_compute. reflexivity.
  - reflexivity.
  - reflexivity.
  - simpl. lia.
  - right. simpl. lia.
Defined.

(** X27.  [create_folder] creates nothing when the folder name is already
    the name of an app or of a folder, or when one of the apps, given by
    name, is not registered: it prints why and returns [None]; no folder
    is registered and no app is moved, even when the apps listed before
    the unknown one are registered. *)
Theorem create_folder_rejected s self h folder_name apps page position :
  homes s !! self = Some h →
  (is_Some (HOME._apps h !! folder_name) ∨ is_Some (HOME._folders h !! folder_name) →
   Home.create_folder self folder_name apps page position s
   = (Ret None, printed [Home.msg_folder_name_taken folder_name] s)) ∧
  (∀ known bad rest,
     HOME._apps h !! folder_name = None → HOME._folders h !! folder_name = None →
     apps = known ++ Str bad :: rest → known_names h known →
     HOME._apps h !! bad = None →
     Home.create_folder self folder_name apps page position s
     = (Ret None, printed ["App: " +:+ bad +:+ " was not found";
                           "Invalid app " +:+ bad +:+ ". Operation Failed."] s)).
Proof.
  intros Hh. split.
  - intros Htaken. apply wp_eq. unfold Home.create_folder. wp_home. wp_unfold.
    do 4 wp_step.
    assert (bool_decide (is_Some (HOME._apps h !! folder_name))
            || bool_decide (is_Some (HOME._folders h !! folder_name)) = true) as ->.
    { apply orb_true_iff. destruct Htaken; [left|right]; by apply bool_decide_eq_true_2. }
    by repeat wp_step.
  - intros known bad rest Hna Hnf -> Hknown Hbad. apply wp_eq.
    unfold Home.create_folder. wp_home. wp_unfold. do 4 wp_step.
    rewrite Hna, Hnf.
    rewrite !bool_decide_eq_false_2 by (by intros [? ?]). cbn [orb].
    wp_step. eapply wp_returns; [by eapply collect_apps_unknown|]. cbv beta match.
    by wp_step.
Qed.

Lemma create_folder_rejected_witness :
  Home.create_folder 1%positive "Maps" [Str "Clock"] None None default_home
  = (Ret None, printed [Home.msg_folder_name_taken "Maps"] default_home) ∧
  Home.create_folder 1%positive "Tools" ([Str "Clock"] ++ Str "Nope" :: [Str "Notes"])
    None None default_home
  = (Ret None, printed ["App: " +:+ "Nope" +:+ " was not found";
                        "Invalid app " +:+ "Nope" +:+ ". Operation Failed."]
                 default_home).
Proof.
  split.
  - destruct (create_folder_rejected default_home 1%positive
                (default (HOME.mk ∅ 1%positive ∅ []) (homes default_home !! 1%positive))
                "Maps" [Str "Clock"] None None) as [H _]; [vm_compute; reflexivity|].
    apply H. left. vm_compute. by eexists.
  - destruct (create_folder_rejected default_home 1%positive
                (default (HOME.mk ∅ 1%positive ∅ []) (homes default_home !! 1%positive))
                "Tools" ([Str "Clock"] ++ Str "Nope" :: [Str "Notes"]) None None)
      as [_ H]; [vm_compute; reflexivity|].
    apply (H [Str "Clock"] "Nope" [Str "Notes"]); try (vm_compute; reflexivity).
    repeat constructor. vm_compute. by eexists.
Defined.

(** X28.  [remove_folder] refuses a folder that still has a page: it
    prints that a folder containing apps cannot be removed and returns
    [None]; the folder stays registered and stays on its page. *)
Theorem remove_folder_refuses_nonempty s self h folder f m lp :
  homes s !! self = Some h →
  match folder with
  | Obj o => o = f
  | Str name => HOME._folders h !! name = Some f
  end →
  mpcs s !! f = Some m → lists s !! MPC._pages m = Some lp → DLL.size lp > 0 →
  Home.remove_folder self folder s
  = (Ret None, printed ["Cannot remove a folder that contains app(s)."] s).
Proof.
  intros Hh Hf Hm Hlp Hsz. apply wp_eq. unfold Home.remove_folder. wp_step.
  assert (wp (match folder with
              | Str s => Home.get_folder self s
              | Obj o => ret (Some o)
              end) s (λ o s', o = Ret (Some f) ∧ s' = s)) as Hres.
  { destruct folder as [name|o].
    - eapply wp_returns; [by eapply get_folder_known|done].
    - subst. by wp_step. }
  eapply wp_mono; [exact Hres|]. cbv beta. intros o s' [-> ->]. cbv beta match.
  wp_spc. wp_unfold. by repeat wp_step.
Qed.

Lemma remove_folder_refuses_nonempty_witness :
  Home.remove_folder 1%positive (Str "Social") home_with_folder
  = (Ret None, printed ["Cannot remove a folder that contains app(s)."] home_with_folder).
Proof.
  apply (remove_folder_refuses_nonempty home_with_folder 1%positive
           (default (HOME.mk ∅ 1%positive ∅ []) (homes home_with_folder !! 1%positive))
           (Str "Social") 11%positive
           (MPC.mk 3 3 9 (Some 3) 12%positive (Some 27) "folder")
           (DLL.mk (Some 13%positive) (Some 13%positive) 1 (Some 3))).
  - vm_compute. reflexivity.
  - vm_compute. reflexivity.
  - vm_compute. reflexivity.
  - vm_compute. reflexivity.
  - simpl. lia.
Defined.

(** X29.  [move_item_to_dock], for an item (given by name or as an object)
    that sits on a page and a dock that has room: the item is taken off
    its page, the other items keeping their order, and put on the dock at
    the end, or at index [position] when one is given; its parent is now
    the dock.  Nothing is printed and no page is created. *)
Theorem move_to_dock_moves_item s self h d item it page pg l1 l2 docked position :
  homes s !! self = Some h → refers_to h item it →
  spcs s !! HOME._dock h = Some d →
  dll_inv s (SPC._items d) docked → has_room s (SPC._items d) →
  parent s !! it = Some (Some page) → spcs s !! page = Some pg →
  dll_inv s (SPC._items pg) (l1 ++ it :: l2) →
  SPC._items pg ≠ SPC._items d →
  (∀ x, x ∈ l1 ++ it :: l2 → x ∉ docked) →
  valid_position position docked →
  wp (Home.move_item_to_dock self item position) s (λ o s',
    o = Ret tt ∧ dll_inv s' (SPC._items pg) (l1 ++ l2) ∧
    dll_inv s' (SPC._items d) (insert_at position it docked) ∧
    parent s' = <[it := Some (HOME._dock h)]> (parent s) ∧
    stdout s' = stdout s ∧ next_loc s' = next_loc s).
Proof.
  intros Hh Href Hd Hdock Hroom Hpar Hpg Hpage Hne Hdisj Hpos.
  pose proof Hroom as (ld & Hld & Hcap).
  unfold Home.move_item_to_dock. wp_step.
  eapply wp_returns; [by eapply resolve_item_refers|]. cbv beta match.
  wp_home. wp_spc. wp_unfold. do 10 wp_step.
  rewrite bool_decide_eq_false_2 by congruence.
  do 6 wp_step.
  wp_apply (transfer_ok s page pg l1 it l2 (HOME._dock h) d docked position);
    [done..|].
  intros o s2 (-> & Es2 & Em2 & Eh2 & Hl2 & Hadd).
  wp_step. eapply wp_getattr; [by rewrite Eh2|]. cbv beta match.
  eapply wp_mono; [exact Hadd|]. cbv beta.
  intros o s3 (-> & ? & ? & ? & ? & ? & ? & ? & ? & _). by split_and!.
Qed.

Lemma move_to_dock_moves_item_witness :
  wp (Home.move_item_to_dock 1%positive (Str "Maps") (Some 1)) dock_with_room (λ o s',
    o = Ret tt ∧
    dll_inv s' (SPC._items (SPC.mk 7%positive (Some 1%positive) "page"))
      ([] ++ [12; 13; 14; 15]%positive) ∧
    dll_inv s' (SPC._items (SPC.mk 4%positive (Some 1%positive) "dock"))
      (insert_at (Some 1) 11%positive [5; 9; 10]%positive) ∧
    parent s'
    = <[11%positive :=
          Some (HOME._dock (default (HOME.mk ∅ 1%positive ∅ [])
                              (homes dock_with_room !! 1%positive)))]>
        (parent dock_with_room) ∧
    stdout s' = stdout dock_with_room ∧ next_loc s' = next_loc dock_with_room).
Proof.
  apply (move_to_dock_moves_item dock_with_room 1%positive
           (default (HOME.mk ∅ 1%positive ∅ []) (homes dock_with_room !! 1%positive))
           (SPC.mk 4%positive (Some 1%positive) "dock") (Str "Maps") 11%positive
           6%positive (SPC.mk 7%positive (Some 1%positive) "page")
           [] [12; 13; 14; 15]%positive [5; 9; 10]%positive (Some 1)).
  - vm_compute. reflexivity.
  - left. vm_compute. reflexivity.
  - vm_compute. reflexivity.
  - by_check.
  - exists (DLL.mk (Some 5%positive) (Some 10%positive) 3 (Some 4)).
    split; [vm_compute; reflexivity|discriminate].
  - vm_compute. reflexivity.
  - vm_compute. reflexivity.
  - by_check.
  - discriminate.
  - apply Forall_forall. compute_done.
  - simpl. lia.
Defined.

(** X30.  [move_item_between_pages(item, page_idx, position)], for an item
    on a page of the home screen and the index of another page of the home
    screen that has room: the item is taken off its page and put on the
    page at that index, at the end or at index [position]; the other
    items of both pages keep their order and the item's parent is the new
    page.  A page left empty by the move is taken out of the list of
    pages; otherwise the list of pages is as before.  Nothing is printed
    and no page is created. *)
Theorem move_between_pages_moves_item
    s self h m item it before after i src spg l1 l2 dest dpg dits position :
  let pgs := before ++ src :: after in
  homes s !! self = Some h → refers_to h item it →
  mpcs s !! self = Some m → spcs s !! self = None →
  MPC.container_type m = "home" →
  dll_inv s (MPC._pages m) pgs → pgs !! i = Some dest →
  parent s !! it = Some (Some src) → src ≠ dest →
  spcs s !! src = Some spg → SPC.parent_container spg = Some self →
  dll_inv s (SPC._items spg) (l1 ++ it :: l2) →
  spcs s !! dest = Some dpg → SPC.parent_container dpg = Some self →
  SPC.container_type dpg = "page" →
  dll_inv s (SPC._items dpg) dits → has_room s (SPC._items dpg) →
  SPC._items spg ≠ SPC._items dpg →
  SPC._items spg ≠ MPC._pages m → SPC._items dpg ≠ MPC._pages m →
  (∀ x, x ∈ l1 ++ it :: l2 → x ∉ dits) →
  (∀ x, x ∈ pgs → x ∉ dits ++ l1 ++ it :: l2) →
  valid_position position dits →
  wp (Home.move_item_between_pages self item (Z.of_nat i) position) s (λ o s',
    o = Ret tt ∧ dll_inv s' (SPC._items spg) (l1 ++ l2) ∧
    dll_inv s' (SPC._items dpg) (insert_at position it dits) ∧
    parent s' = <[it := Some dest]> (parent s) ∧
    dll_inv s' (MPC._pages m)
      (if bool_decide (l1 ++ l2 = []) then before ++ after else pgs) ∧
    stdout s' = stdout s ∧ next_loc s' = next_loc s).
Proof.
  intros pgs Hh Href Hm Hself Hty Hpages Hi Hpar Hsd Hspg Hsown Hsrc Hdpg Hown Hdty
    Hdst Hroom Hne Hnp Hnp' Hdisj Hsep Hpos.
  pose proof Hroom as (ld & Hld & Hcap).
  pose proof Hpages as (lp & Hlp & _ & _ & _ & Hsz & _).
  pose proof (lookup_lt_Some _ _ _ Hi) as Hlen.
  unfold Home.move_item_between_pages. wp_step.
  eapply wp_returns; [by eapply resolve_item_refers|]. cbv beta match.
  wp_spc. wp_unfold. do 4 wp_step.
  rewrite !bool_decide_eq_true_2 by lia. cbn [andb].
  unfold Multi_Page_Container.get_page_at_index. wp_spc. do 3 wp_step.
  eapply wp_returns; [eapply at_index_ok; [done|lia]|]. cbv beta match.
  rewrite Nat2Z.id, Hi.
  unfold Home._move_item_object. wp_unfold. do 2 wp_step.
  apply wp_try_finally.
  rewrite bool_decide_eq_false_2 by congruence. wp_spc. do 4 wp_step.
  wp_apply (transfer_ok s src spg l1 it l2 dest dpg dits position); [done..|].
  intros o s2 (-> & Es2 & Em2 & Eh2 & Hl2 & Hadd). cbv beta match.
  assert (lists s2 !! SPC._items dpg = Some ld) as Hld2.
  { rewrite Hl2; [done|]. congruence. }
  assert (lists s2 !! MPC._pages m = Some lp) as Hlp2.
  { rewrite Hl2; [done|]. congruence. }
  assert (spcs s2 !! dest = Some dpg) as Hdpg2 by (by rewrite Es2).
  assert (spcs s2 !! self = None) as Hself2 by (by rewrite Es2).
  assert (mpcs s2 !! self = Some m) as Hm2 by (by rewrite Em2).
  wp_step. eapply wp_container_type_spc; [exact Hdpg2|]. cbv beta match.
  rewrite Hdty. rewrite bool_decide_eq_false_2 by done.
  repeat wp_step. rewrite Hown.
  eapply wp_container_type_mpc; [done..|].
  cbv beta match. rewrite Hty. rewrite bool_decide_eq_true_2 by done.
  wp_step. eapply wp_container_type_spc; [exact Hdpg2|]. cbv beta match.
  rewrite Hdty. rewrite bool_decide_eq_false_2 by done.
  unfold Multi_Page_Container._add_item, Multi_Page_Container.add_item_at_page.
  wp_spc. wp_unfold. repeat wp_step.
  destruct (spare_page_state s2 self m lp Hm2 Hlp2) as (b & Hspare).
  eapply wp_returns; [exact Hspare|]. cbv beta match.
  rewrite bool_decide_eq_false_2 by congruence. cbn [andb]. do 2 wp_step.
  wp_apply Hadd.
  intros o s3 (-> & Hsrc3 & Hdst3 & Ep3 & Es3 & Em3 & Eh3 & En3 & Eo3 & Hl3 & Hk3).
  cbv beta match. do 2 wp_step.
  pose proof Hsrc3 as (ls3 & Hls3 & _ & _ & _ & Hsz3 & _).
  assert (spcs s3 !! src = Some spg) as Hspg3 by (by rewrite Es3).
  assert (mpcs s3 !! self = Some m) as Hm3 by (by rewrite Em3).
  assert (dll_inv s3 (MPC._pages m) pgs) as Hpages3.
  { eapply dll_inv_ext; [exact Hpages|by rewrite Hl3|].
    intros x Hx. apply Hk3. by apply Hsep. }
  unfold prune_original_parent. wp_spc. wp_unfold. do 4 wp_step.
  rewrite Hsz3.
  destruct (decide (l1 ++ l2 = [])) as [Hempty|Hleft].
  - rewrite Hempty in *. simpl in *.
    do 2 wp_step. rewrite Hsown.
    unfold Multi_Page_Container.remove_page. wp_spc. wp_unfold. do 2 wp_step.
    rewrite bool_decide_eq_false_2 by (intros Hn; by apply Hn).
    repeat wp_step.
    wp_apply remove_ok; [exact Hpages3|].
    intros o s4 (-> & Hpages4 & Hfr4 & Hk4 & _). wp_step.
    pose proof Hfr4 as (Ep4&Ec4&Es4&Em4&Eh4&En4&Eo4&Hl4&Hcap4&Hnm4).
    split_and!; try done; try congruence.
    + eapply dll_inv_ext; [exact Hsrc3|by apply Hl4|]. intros x Hx. set_solver.
    + eapply dll_inv_frame; [exact Hdst3|exact Hfr4|exact Hk4|done|].
      intros x Hx Hx'. apply (Hsep x Hx').
      apply elem_of_insert_at in Hx as [->|Hx]; set_solver.
  - rewrite (bool_decide_eq_false_2 (l1 ++ l2 = [])) by done.
    rewrite bool_decide_eq_false_2.
    2:{ destruct (l1 ++ l2); [done|]. simpl. lia. }
    wp_step. by split_and!.
Qed.

Lemma move_between_pages_moves_item_witness :
  wp (Home.move_item_between_pages 1%positive (Str "D") (Z.of_nat 0) (Some 1)) two_pages
    (λ o s',
    o = Ret tt ∧
    dll_inv s' (SPC._items (SPC.mk 12%positive (Some 1%positive) "page")) ([] ++ []) ∧
    dll_inv s' (SPC._items (SPC.mk 7%positive (Some 1%positive) "page"))
      (insert_at (Some 1) 10%positive [8; 9]%positive) ∧
    parent s' = <[10%positive := Some 6%positive]> (parent two_pages) ∧
    dll_inv s' (MPC._pages (MPC.mk 3 1 3 (Some 5) 2%positive (Some 15) "home"))
      (if bool_decide ([] ++ [] = ([] : list loc)) then [6%positive] ++ []
       else [6%positive] ++ 11%positive :: []) ∧
    stdout s' = stdout two_pages ∧ next_loc s' = next_loc two_pages).
Proof.
  apply (move_between_pages_moves_item two_pages 1%positive
           (default (HOME.mk ∅ 1%positive ∅ []) (homes two_pages !! 1%positive))
           (MPC.mk 3 1 3 (Some 5) 2%positive (Some 15) "home")
           (Str "D") 10%positive [6%positive] [] 0%nat
           11%positive (SPC.mk 12%positive (Some 1%positive) "page") [] []
           6%positive (SPC.mk 7%positive (Some 1%positive) "page") [8; 9]%positive
           (Some 1)).
  - vm_compute. reflexivity.
  - left. vm_compute. reflexivity.
  - reflexivity.
  - reflexivity.
  - reflexivity.
  - by_check.
  - reflexivity.
  - reflexivity.
  - discriminate.
  - reflexivity.
  - reflexivity.
  - by_check.
  - reflexivity.
  - reflexivity.
  - reflexivity.
  - by_check.
  - exists (DLL.mk (Some 8%positive) (Some 9%positive) 2 (Some 3)).
    split; [reflexivity|discriminate].
  - discriminate.
  - discriminate.
  - discriminate.
  - apply Forall_forall. compute_done.
  - apply Forall_forall. compute_done.
  - simpl. lia.
Defined.
